(** * Hive Exchange Bot: settlement and ledger engine

    A shallow embedding of the ledger code of the bot
    (models/Transaction, models/ExchangeRate, services/blockchain,
    services/exchange, utils/format, utils/validation and the
    /deposit, /confirm, /withdraw, /complete_exchange and /reject_exchange
    handlers), followed by the properties of the specification.

    Conventions.
    - A [Decimal] is a decimal.js value: an integer coefficient and a
      number of fractional digits.  The library rounds the result of
      [plus], [minus] and [times] to [precision] (20) significant digits,
      half away from zero; [finalise] writes that rounding out.
    - A NUMERIC(24,6) column holds an integer number of millionths.
    - A JavaScript number is a binary64 value; [Double] writes its rounding
      out over dyadic rationals.
    - The table of transactions is the list of its rows in insertion order;
      the in-process map of deposit requests is a [gmap] keyed by chat id.
    - The chain and the clock are inputs of the handlers. *)

From Stdlib Require Import ZArith Lia Bool List String Ascii SpecFloat.
From stdpp Require Import base option list gmap strings.
Import ListNotations.

Local Open Scope Z_scope.

(* ================================================================== *)
(** * decimal.js values *)
(* ================================================================== *)

Module Dec.

(** [coef * 10^(-scale)] *)
Record Decimal : Type := mk { coef : Z; scale : nat }.

Definition pow10 (n : nat) : Z := 10 ^ Z.of_nat n.

(** Decimal.precision and Decimal.rounding (ROUND_HALF_UP) are left at the
    library defaults throughout the repository. *)
Definition precision : nat := 20.

(** Nearest integer to [n / d], ties upwards, for [0 <= n] and [0 < d]. *)
Definition half_up_div (n d : Z) : Z := (2 * n + d) / (2 * d).

Fixpoint count_digits (fuel : nat) (n : Z) : nat :=
  match fuel with
  | O => 1%nat
  | S f => if n <? 10 then 1%nat else S (count_digits f (n / 10))
  end.

(** Number of decimal digits of [n] (1 for 0). *)
Definition ndigits (n : Z) : nat := count_digits (Z.to_nat (Z.log2 n)) n.

(** Rounding of a coefficient to [precision] significant digits. *)
Definition round_sd (c : Z) : Z :=
  if Z.abs c <? pow10 precision then c
  else
    let k := (ndigits (Z.abs c) - precision)%nat in
    Z.sgn c * (half_up_div (Z.abs c) (pow10 k) * pow10 k).

(** The library's [finalise(x, Ctor.precision, Ctor.rounding)], which ends
    every arithmetic method: below 10^20 the coefficient is kept as it is. *)
Definition finalise (d : Decimal) : Decimal := mk (round_sd (coef d)) (scale d).

(** Both coefficients at the larger of the two scales. *)
Definition align (a b : Decimal) : Z * Z * nat :=
  let s := Nat.max (scale a) (scale b) in
  (coef a * pow10 (s - scale a), coef b * pow10 (s - scale b), s).

(** Decimal.prototype.plus, minus and times: the exact result, rounded to
    [precision] significant digits. *)
Definition plus (a b : Decimal) : Decimal :=
  let '(x, y, s) := align a b in finalise (mk (x + y) s).

Definition minus (a b : Decimal) : Decimal :=
  let '(x, y, s) := align a b in finalise (mk (x - y) s).

Definition times (a b : Decimal) : Decimal :=
  finalise (mk (coef a * coef b) (scale a + scale b)).

(** Decimal.prototype.cmp and the comparisons built on it: exact. *)
Definition cmp (a b : Decimal) : comparison :=
  let '(x, y, _) := align a b in x ?= y.

Definition equals (a b : Decimal) : bool :=
  match cmp a b with Eq => true | _ => false end.
Definition lessThan (a b : Decimal) : bool :=
  match cmp a b with Lt => true | _ => false end.
Definition greaterThan (a b : Decimal) : bool :=
  match cmp a b with Gt => true | _ => false end.

Definition zero : Decimal := mk 0 0.

(** The value of a NUMERIC(_,6) cell holding [m] millionths. *)
Definition of_micro (m : Z) : Decimal := mk m 6.

(** [d] rounded half away from zero to [dp] fractional digits, as an
    integer number of units of [10^(-dp)]. *)
Definition round_at (dp : nat) (d : Decimal) : Z :=
  if (scale d <=? dp)%nat then coef d * pow10 (dp - scale d)
  else Z.sgn (coef d) * half_up_div (Z.abs (coef d)) (pow10 (scale d - dp)).

(** ** Rendering *)

Definition digit_char (n : Z) : ascii := ascii_of_nat (48 + Z.to_nat n).

(** The last [w] decimal digits of [n], most significant first. *)
Fixpoint fixed_digits (w : nat) (n : Z) : list ascii :=
  match w with
  | O => []
  | S w' => fixed_digits w' (n / 10) ++ [digit_char (n mod 10)]
  end.

Definition int_digits (n : Z) : list ascii := fixed_digits (ndigits n) n.

Definition toFixed_chars (dp : nat) (d : Decimal) : list ascii :=
  let r := Z.abs (round_at dp d) in
  (if coef d <? 0 then ["-"%char] else [])
    ++ int_digits (r / pow10 dp)
    ++ match dp with
       | O => []
       | _ => "."%char :: fixed_digits dp (r mod pow10 dp)
       end.

(** Decimal.prototype.toFixed(dp) on a finite value. *)
Definition toFixed (dp : nat) (d : Decimal) : string :=
  string_of_list_ascii (toFixed_chars dp d).

(** ** Parsing

    [new Decimal(str)] for the literals of the library's decimal grammar:
    an optional sign, then either digits with an optional point and
    optional further digits, or a point and digits, then an optional
    exponent (e or E, an optional sign, digits).  [None] stands for the
    DecimalError the constructor throws.  The other literal forms the
    library reads (Infinity, NaN, the 0x, 0b and 0o prefixes) are not
    finite decimal amounts and are [None] here as well. *)

Definition digit_of (c : ascii) : option Z :=
  let n := Z.of_nat (nat_of_ascii c) in
  if (48 <=? n) && (n <=? 57) then Some (n - 48) else None.

Definition is_digit (c : ascii) : bool :=
  match digit_of c with Some _ => true | None => false end.

(** Longest prefix of digits, and the rest. *)
Fixpoint take_digits (l : list ascii) : list ascii * list ascii :=
  match l with
  | c :: l' =>
      if is_digit c then let '(ds, r) := take_digits l' in (c :: ds, r)
      else ([], l)
  | [] => ([], [])
  end.

Fixpoint digits_value (acc : Z) (l : list ascii) : Z :=
  match l with
  | c :: l' => digits_value (10 * acc + default 0 (digit_of c)) l'
  | [] => acc
  end.

Definition is_e (c : ascii) : bool :=
  (Ascii.eqb c "e" || Ascii.eqb c "E")%char.

(** The exponent part: empty, or [e], an optional sign and digits to the
    end of the literal. *)
Definition parse_exponent (l : list ascii) : option Z :=
  match l with
  | [] => Some 0
  | c :: l1 =>
      if is_e c then
        let '(neg, l2) :=
          match l1 with
          | "-"%char :: l2 => (true, l2)
          | "+"%char :: l2 => (false, l2)
          | _ => (false, l1)
          end in
        match take_digits l2 with
        | ([], _) => None
        | (ds, []) =>
            let e := digits_value 0 ds in Some (if neg then - e else e)
        | (_, _ :: _) => None
        end
      else None
  end.

(** [ip.fp e ex] with sign [neg]. *)
Definition assemble (neg : bool) (ip fp : list ascii) (ex : Z) : Decimal :=
  let c := digits_value 0 (ip ++ fp) in
  let c := if neg then - c else c in
  let e := ex - Z.of_nat (length fp) in
  if 0 <=? e then mk (c * 10 ^ e) 0 else mk c (Z.to_nat (- e)).

Definition parse_unsigned (neg : bool) (l : list ascii) : option Decimal :=
  let '(ip, r1) := take_digits l in
  match r1 with
  | "."%char :: r2 =>
      let '(fp, r3) := take_digits r2 in
      match ip, fp with
      | [], [] => None
      | _, _ => assemble neg ip fp <$> parse_exponent r3
      end
  | _ =>
      match ip with
      | [] => None
      | _ => assemble neg ip [] <$> parse_exponent r1
      end
  end.

Definition parse_chars (l : list ascii) : option Decimal :=
  match l with
  | "-"%char :: l' => parse_unsigned true l'
  | "+"%char :: l' => parse_unsigned false l'
  | _ => parse_unsigned false l
  end.

Definition parse (s : string) : option Decimal :=
  parse_chars (list_ascii_of_string s).

(** [d] denotes [m] millionths exactly. *)
Definition is_micro (d : Decimal) (m : Z) : Prop :=
  (scale d <= 6)%nat /\ coef d * pow10 (6 - scale d) = m.

End Dec.

Import Dec.

(* ================================================================== *)
(** * JavaScript numbers *)
(* ================================================================== *)

Module Double.

(** A binary64 value; [Finite m e] is [m * 2^e]. *)
Inductive double : Type :=
  | Finite (m e : Z)
  | Infinite (neg : bool)
  | NaN.

(** Nearest integer to [n / d], ties to the even one ([0 <= n], [0 < d]). *)
Definition rne_div (n d : Z) : Z :=
  let q := n / d in
  let r := n mod d in
  match 2 * r ?= d with
  | Lt => q
  | Gt => q + 1
  | Eq => if Z.even q then q else q + 1
  end.

(** [a / b >= 2^l] for positive [a], [b]. *)
Definition ge_pow2 (a b l : Z) : bool :=
  b * 2 ^ Z.max 0 l <=? a * 2 ^ Z.max 0 (- l).

(** Floor of the binary logarithm of [a / b] for positive [a], [b]. *)
Definition log2_ratio (a b : Z) : Z :=
  let l := Z.log2 a - Z.log2 b in
  if ge_pow2 a b l then l else l - 1.

(** The binary64 value nearest to [num / den] ([0 < den]): 53 significant
    bits, exponent of the last bit at least -1074, ties to even, overflow
    to infinity. *)
Definition round_to_double (num den : Z) : double :=
  if num =? 0 then Finite 0 0
  else
    let a := Z.abs num in
    let e := Z.max (log2_ratio a den - 52) (-1074) in
    let m := rne_div (a * 2 ^ Z.max 0 (- e)) (den * 2 ^ Z.max 0 e) in
    let '(m, e) := if m =? 2 ^ 53 then (2 ^ 52, e + 1) else (m, e) in
    if 971 <? e then Infinite (num <? 0)
    else Finite (Z.sgn num * m) e.

(** The same value in the representation of the Standard Library's
    specification of IEEE 754 arithmetic. *)
Definition to_spec (x : double) : spec_float :=
  match x with
  | Finite 0 _ => S754_zero false
  | Finite (Zpos m) e => S754_finite false m e
  | Finite (Zneg m) e => S754_finite true m e
  | Infinite neg => S754_infinity neg
  | NaN => S754_nan
  end.

Definition is_zero (x : double) : bool :=
  match x with Finite 0 _ => true | _ => false end.

Definition is_neg (x : double) : bool :=
  match x with Finite m _ => m <? 0 | Infinite neg => neg | NaN => false end.

(** The [*] of two numbers. *)
Definition mul (x y : double) : double :=
  match x, y with
  | NaN, _ | _, NaN => NaN
  | Finite m1 e1, Finite m2 e2 =>
      let e := e1 + e2 in
      round_to_double (m1 * m2 * 2 ^ Z.max 0 e) (2 ^ Z.max 0 (- e))
  | _, _ =>
      if is_zero x || is_zero y then NaN
      else Infinite (xorb (is_neg x) (is_neg y))
  end.

Definition of_decimal (d : Dec.Decimal) : double :=
  round_to_double (Dec.coef d) (Dec.pow10 (Dec.scale d)).

(** [parseFloat] on the decimal literals of [Dec.parse]; both grammars
    agree on them.  Any other argument is read as NaN here (the prefix
    reading of parseFloat is not modelled). *)
Definition parseFloat (s : string) : double :=
  match Dec.parse s with
  | Some d => of_decimal d
  | None => NaN
  end.

(** Number.prototype.toFixed(fd) for a finite [x] below 10^21: the
    integer [n] with [n / 10^fd] nearest to [x], the larger one on a tie.
    [None] where the method switches to the exponential rendering. *)
Definition toFixed (fd : nat) (x : double) : option string :=
  match x with
  | NaN => Some "NaN"%string
  | Infinite neg => Some (if neg then "-Infinity" else "Infinity")%string
  | Finite m e =>
      let a := Z.abs m in
      if 10 ^ 21 * 2 ^ Z.max 0 (- e) <=? a * 2 ^ Z.max 0 e then None
      else
        let n := Dec.half_up_div (a * Dec.pow10 fd * 2 ^ Z.max 0 e)
                                 (2 ^ Z.max 0 (- e)) in
        Some (string_of_list_ascii
                ((if m <? 0 then ["-"%char] else [])
                   ++ Dec.int_digits (n / Dec.pow10 fd)
                   ++ match fd with
                      | O => []
                      | _ => "."%char :: Dec.fixed_digits fd (n mod Dec.pow10 fd)
                      end))
  end.

End Double.

(* ================================================================== *)
(** * models/Transaction *)
(* ================================================================== *)

Inductive TxType : Type := deposit | withdrawal | exchange.
Inductive TxStatus : Type := pending | completed | failed | processing.

#[global] Instance TxType_eq_dec : EqDecision TxType.
Proof. solve_decision. Defined.
#[global] Instance TxStatus_eq_dec : EqDecision TxStatus.
Proof. solve_decision. Defined.

(** A row of the [transactions] table.  [amount] and [fee] are
    NUMERIC(24,6) cells (millionths), [fiatAmount] is NUMERIC(24,2)
    (hundredths); the nullable columns are options.  The columns the ORM
    maintains by itself (createdAt, updatedAt) and paymentDetails, which
    nothing writes, are left out. *)
Module Tx.
Record t : Type := mk {
  id : Z;
  type : TxType;
  chatId : string;
  amount : Z;
  fiatAmount : option Z;
  fiatType : option string;
  walletAddress : option string;
  txHash : option string;
  status : TxStatus;
  completedAt : option Z;
  fee : option Z;
  confirmations : option Z;
  adminNotes : option string
}.

Definition set_status (s : TxStatus) (r : t) : t :=
  mk (id r) (type r) (chatId r) (amount r) (fiatAmount r) (fiatType r)
     (walletAddress r) (txHash r) s (completedAt r) (fee r)
     (confirmations r) (adminNotes r).
Definition set_txHash (h : string) (r : t) : t :=
  mk (id r) (type r) (chatId r) (amount r) (fiatAmount r) (fiatType r)
     (walletAddress r) (Some h) (status r) (completedAt r) (fee r)
     (confirmations r) (adminNotes r).
Definition set_completedAt (d : Z) (r : t) : t :=
  mk (id r) (type r) (chatId r) (amount r) (fiatAmount r) (fiatType r)
     (walletAddress r) (txHash r) (status r) (Some d) (fee r)
     (confirmations r) (adminNotes r).
Definition set_confirmations (n : Z) (r : t) : t :=
  mk (id r) (type r) (chatId r) (amount r) (fiatAmount r) (fiatType r)
     (walletAddress r) (txHash r) (status r) (completedAt r) (fee r)
     (Some n) (adminNotes r).
Definition set_adminNotes (s : string) (r : t) : t :=
  mk (id r) (type r) (chatId r) (amount r) (fiatAmount r) (fiatType r)
     (walletAddress r) (txHash r) (status r) (completedAt r) (fee r)
     (confirmations r) (Some s).
End Tx.

(** The table: its rows in insertion order. *)
Abbreviation Table := (list Tx.t).

(** [findAll({ where: { chatId, type, status: [...] } })] *)
Definition findAll (tbl : Table) (c : string) (ty : TxType)
    (sts : list TxStatus) : list Tx.t :=
  List.filter
    (fun r => bool_decide (Tx.chatId r = c) && bool_decide (Tx.type r = ty)
              && bool_decide (Tx.status r ∈ sts))
    tbl.

(** [rows.reduce((sum, tx) => sum.plus(tx.amount), new Decimal(0))] *)
Definition total (rows : list Tx.t) : Dec.Decimal :=
  fold_left (fun sum tx => Dec.plus sum (Dec.of_micro (Tx.amount tx)))
            rows Dec.zero.

(** Transaction.getUserBalance *)
Definition getUserBalance (tbl : Table) (chatId : string) : string :=
  let deposits := findAll tbl chatId deposit [completed] in
  let withdrawals :=
    findAll tbl chatId withdrawal [completed; pending; processing] in
  let exchanges :=
    findAll tbl chatId exchange [completed; pending; processing] in
  let totalDeposits := total deposits in
  let totalWithdrawals := total withdrawals in
  let totalExchanges := total exchanges in
  let balance :=
    Dec.minus (Dec.minus totalDeposits totalWithdrawals) totalExchanges in
  if Dec.lessThan balance Dec.zero then "0.000000"%string
  else Dec.toFixed 6 balance.

(** The primary key is a serial: the next value after the rows so far
    (no row is ever deleted). *)
Definition next_id (tbl : Table) : Z := Z.of_nat (length tbl) + 1.

(** [Transaction.create(fields)]: the new row is appended. *)
Definition create (tbl : Table) (mkrow : Z -> Tx.t) : Table * Tx.t :=
  let r := mkrow (next_id tbl) in (tbl ++ [r], r).

(** [instance.save()]: the row with the instance's key is overwritten. *)
Definition save (tbl : Table) (r : Tx.t) : Table :=
  List.map (fun x => if Tx.id x =? Tx.id r then r else x) tbl.

(** Transaction.createDeposit / createWithdrawal / createExchange *)
Definition createDeposit (tbl : Table) (chatId : string) (amount : Z)
    : Table * Tx.t :=
  create tbl (fun i =>
    Tx.mk i deposit chatId amount None None None None pending None None
          None None).

Definition createWithdrawal (tbl : Table) (chatId : string) (amount : Z)
    (walletAddress : string) (fee : Z) : Table * Tx.t :=
  create tbl (fun i =>
    Tx.mk i withdrawal chatId amount None None (Some walletAddress) None
          pending None (Some fee) None None).

Definition createExchange (tbl : Table) (chatId : string) (amount : Z)
    (fiatAmount : Z) (fiatType : string) : Table * Tx.t :=
  create tbl (fun i =>
    Tx.mk i exchange chatId amount (Some fiatAmount) (Some fiatType) None
          None pending None None None None).

(** Every row sits at the position of its key, as [create] leaves it. *)
Definition table_ok (tbl : Table) : Prop :=
  forall (i : nat) r, tbl !! i = Some r -> Tx.id r = Z.of_nat i + 1.

(** ** The balance rule of the specification *)

Definition sum_amounts (rows : list Tx.t) : Z :=
  fold_right (fun r acc => Tx.amount r + acc) 0 rows.

Definition completedDeposits (tbl : Table) (c : string) : Z :=
  sum_amounts (findAll tbl c deposit [completed]).
Definition reservedWithdrawals (tbl : Table) (c : string) : Z :=
  sum_amounts (findAll tbl c withdrawal [completed; pending; processing]).
Definition reservedExchanges (tbl : Table) (c : string) : Z :=
  sum_amounts (findAll tbl c exchange [completed; pending; processing]).

(** Completed deposits minus reserved withdrawals minus reserved
    exchanges, in millionths. *)
Definition rawBalance (tbl : Table) (c : string) : Z :=
  completedDeposits tbl c - reservedWithdrawals tbl c
  - reservedExchanges tbl c.

(** What one row contributes to the balance of [c]. *)
Definition effect (r : Tx.t) (c : string) : Z :=
  if bool_decide (Tx.chatId r = c) then
    match Tx.type r, Tx.status r with
    | deposit, completed => Tx.amount r
    | deposit, _ => 0
    | _, failed => 0
    | _, _ => - Tx.amount r
    end
  else 0.

(** Sum of the magnitudes of the amounts the balance of [c] is made of. *)
Definition sum_abs (rows : list Tx.t) : Z :=
  fold_right (fun r acc => Z.abs (Tx.amount r) + acc) 0 rows.

Definition volume (tbl : Table) (c : string) : Z :=
  sum_abs
    (findAll tbl c deposit [completed]
       ++ findAll tbl c withdrawal [completed; pending; processing]
       ++ findAll tbl c exchange [completed; pending; processing]).

(* ================================================================== *)
(** * utils/validation and utils/format *)
(* ================================================================== *)

Definition is_hex (c : ascii) : bool :=
  let n := nat_of_ascii c in
  ((48 <=? n) && (n <=? 57) || (65 <=? n) && (n <=? 70)
   || (97 <=? n) && (n <=? 102))%nat.

(** schemas.txHash: 0x and exactly 64 hexadecimal digits. *)
Definition isValidTxHash (hash : string) : bool :=
  match list_ascii_of_string hash with
  | "0"%char :: "x"%char :: rest =>
      (length rest =? 64)%nat && forallb is_hex rest
  | _ => false
  end.

(** schemas.amount: the text constructs a Decimal greater than 0. *)
Definition isValidAmount (amount : string) : bool :=
  match Dec.parse amount with
  | Some d => Dec.greaterThan d Dec.zero
  | None => false
  end.

(** The value the amount schema accepts, or the InvalidAmount failure. *)
Definition parseAmount (amount : string) : option Dec.Decimal :=
  if isValidAmount amount then Dec.parse amount else None.

(** formatUSDT and formatFiat: toFixed, and zero when the constructor
    throws. *)
Definition formatUSDT (amount : string) : string :=
  match Dec.parse amount with
  | Some decimal => Dec.toFixed 6 decimal
  | None => "0.000000"
  end.

Definition formatFiat (amount : string) : string :=
  match Dec.parse amount with
  | Some decimal => Dec.toFixed 2 decimal
  | None => "0.00"
  end.

(** ** Splitting and trimming *)

Fixpoint split_on (sep : ascii) (l : list ascii) : list (list ascii) :=
  match l with
  | [] => [[]]
  | c :: l' =>
      if Ascii.eqb c sep then [] :: split_on sep l'
      else match split_on sep l' with
           | w :: ws => (c :: w) :: ws
           | [] => [[c]]
           end
  end.

(** ASCII white space (the multi-byte blanks String.prototype.trim also
    strips do not occur in numbers or addresses). *)
Definition is_space (c : ascii) : bool :=
  let n := nat_of_ascii c in ((9 <=? n) && (n <=? 13) || (n =? 32))%nat.

Fixpoint trim_left (l : list ascii) : list ascii :=
  match l with
  | c :: l' => if is_space c then trim_left l' else l
  | [] => []
  end.

Definition trim (l : list ascii) : list ascii :=
  rev (trim_left (rev (trim_left l))).

Definition to_lower_char (c : ascii) : ascii :=
  let n := nat_of_ascii c in
  if ((65 <=? n) && (n <=? 90))%nat then ascii_of_nat (n + 32) else c.

(** String.prototype.toLowerCase on ASCII text. *)
Definition toLowerCase (s : string) : string :=
  string_of_list_ascii (List.map to_lower_char (list_ascii_of_string s)).

(** validation.parseWithdrawCommand; [isAddress] is ethers.isAddress. *)
Definition parseWithdrawCommand (isAddress : string -> bool)
    (command : string) : option (string * string) :=
  match split_on ","%char (list_ascii_of_string command) with
  | [p0; p1] =>
      match trim p0, trim p1 with
      | [], _ | _, [] => None
      | a, b =>
          let amount := string_of_list_ascii a in
          let address := string_of_list_ascii b in
          if isValidAmount amount && isAddress address
          then Some (amount, address) else None
      end
  | _ => None
  end.

(* ================================================================== *)
(** * models/ExchangeRate and the fiat computation of services/exchange *)
(* ================================================================== *)

(** The singleton row: two NUMERIC(24,6) cells. *)
Record ExchangeRates : Type := { rateUSD : Z; rateUAH : Z }.

Definition rate_for (rates : ExchangeRates) (fiatType : string) : Z :=
  if String.eqb fiatType "USD" then rateUSD rates else rateUAH rates.

(** ExchangeRate.convertToFiat:
    [(parseFloat(amount) * parseFloat(rate)).toFixed(2)] *)
Definition convertToFiat (rates : ExchangeRates) (amount fiatType : string)
    : option string :=
  let rate := rate_for rates fiatType in
  Double.toFixed 2
    (Double.mul (Double.parseFloat amount)
                (Double.of_decimal (Dec.of_micro rate))).

(** processExchangeRequest, the fiat amount:
    [amountDecimal.times(rate).toFixed(2)] *)
Definition exchangeFiatAmount (rates : ExchangeRates)
    (amountDecimal : Dec.Decimal) (fiatType : string) : string :=
  let rate := rate_for rates fiatType in
  Dec.toFixed 2 (Dec.times amountDecimal (Dec.of_micro rate)).

(* ================================================================== *)
(** * The chain as the code sees it *)
(* ================================================================== *)

(** The result of an awaited call: a value, or a thrown error with its
    message. *)
Inductive Outcome (A : Type) : Type :=
  | Ok (a : A)
  | Throw (message : string).
Arguments Ok {A} a.
Arguments Throw {A} message.

(** A decoded Transfer(from, to, value) log. *)
Record LogDescription : Type :=
  { name : string; arg_from : string; arg_to : string; arg_value : Z }.

(** What [usdtContract.interface.parseLog] does with a log: it throws, it
    returns null, or it returns a description. *)
Inductive ParseLog : Type :=
  | ParseThrows
  | ParseNull
  | Parsed (d : LogDescription).

Record Log : Type := { address : string; parseLog : ParseLog }.

Record Receipt : Type := { blockNumber : Z; logs : list Log }.

(** The provider and the token contract, read side. *)
Record Chain : Type := {
  getTransactionReceipt : string -> Outcome (option Receipt);
  getBlockNumber : Outcome Z;
  decimals : Outcome nat
}.

Record Config : Type := {
  usdtContractAddress : string;
  depositAddress : string;
  minConfirmations : Z;
  (** the number, as the Decimal its text denotes *)
  withdrawalFee : Dec.Decimal
}.

(** The reason of a failed verification (the source builds the text). *)
Inductive Reason : Type :=
  | NotFound                (* Transaction not found or not yet confirmed *)
  | InsufficientConfirmations (confirmations required : Z)
  | NoTransferEvent         (* No USDT transfer event found in transaction *)
  | WrongRecipient          (* recipient is not the system deposit address *)
  | AmountMismatch (expected : string) (got : Dec.Decimal)
  | VerifyError (message : string).   (* Error verifying transaction: ... *)

Inductive Verification : Type :=
  | Verified (amount : Dec.Decimal) (confirmations : Z)
  | NotVerified (reason : Reason).

(** The map and the filter over [receipt.logs]: a log whose parse threw is
    dropped, reading [name] of a null parse throws, a description is kept
    when it is a Transfer emitted by the token contract. *)
Fixpoint transferEvents (cfg : Config) (ls : list Log)
    : Outcome (list LogDescription) :=
  match ls with
  | [] => Ok []
  | l :: ls' =>
      match parseLog l with
      | ParseThrows => transferEvents cfg ls'
      | ParseNull => Throw "Cannot read properties of null (reading 'name')"
      | Parsed d =>
          match transferEvents cfg ls' with
          | Throw m => Throw m
          | Ok rest =>
              if String.eqb (name d) "Transfer"
                 && String.eqb (toLowerCase (toLowerCase (address l)))
                               (toLowerCase (usdtContractAddress cfg))
              then Ok (d :: rest) else Ok rest
          end
      end
  end.

(** services/blockchain verifyDepositTransaction *)
Definition verifyDepositTransaction (cfg : Config) (chain : Chain)
    (txHash expectedAmount : string) : Verification :=
  match getTransactionReceipt chain txHash with
  | Throw m => NotVerified (VerifyError m)
  | Ok None => NotVerified NotFound
  | Ok (Some receipt) =>
      match getBlockNumber chain with
      | Throw m => NotVerified (VerifyError m)
      | Ok currentBlock =>
          let confirmations := currentBlock - blockNumber receipt in
          if confirmations <? minConfirmations cfg then
            NotVerified
              (InsufficientConfirmations confirmations (minConfirmations cfg))
          else
            match transferEvents cfg (logs receipt) with
            | Throw m => NotVerified (VerifyError m)
            | Ok [] => NotVerified NoTransferEvent
            | Ok (transferEvent :: _) =>
                if negb (String.eqb (toLowerCase (arg_to transferEvent))
                                    (toLowerCase (depositAddress cfg)))
                then NotVerified WrongRecipient
                else
                  match decimals chain with
                  | Throw m => NotVerified (VerifyError m)
                  | Ok dec =>
                      let amountDecimal :=
                        Dec.mk (arg_value transferEvent) dec in
                      match Dec.parse expectedAmount with
                      | None =>
                          NotVerified
                            (VerifyError
                               ("[DecimalError] Invalid argument: "
                                  ++ expectedAmount))
                      | Some expectedDecimal =>
                          if negb (Dec.equals amountDecimal expectedDecimal)
                          then NotVerified
                                 (AmountMismatch expectedAmount amountDecimal)
                          else Verified amountDecimal confirmations
                      end
                  end
            end
      end
  end.

(** ** Withdrawals *)

Record FeeData : Type :=
  { maxFeePerGas : option Z; maxPriorityFeePerGas : option Z }.

(** The outcomes of the awaited steps of one run of [processWithdrawal].
    [gasLimit] is [Math.floor(gasEstimate * 1.2)]: the floor of the
    product for a number, a TypeError for a BigInt estimate. *)
Record Wallet : Type := {
  parseTokenAmount : Outcome Z;
  getFeeData : Outcome FeeData;
  estimateGas : Outcome Z;
  gasLimit : Z -> Outcome Z;
  transfer : Outcome string;
  wait : Outcome unit
}.

(** The requests that reach the chain client.  The amount of
    [CallParseTokenAmount] is the one of the row, in millionths. *)
Inductive ChainCall : Type :=
  | CallParseTokenAmount (amount : Z)
  | CallGetFeeData
  | CallEstimateGas (to : option string) (value : Z)
  | CallTransfer (to : option string) (value gasLimit : Z) (fees : FeeData)
  | CallWait (hash : string).

(** What a run does, in order: rows written by [save] and requests to
    the chain client. *)
Inductive Event : Type :=
  | Saved (row : Tx.t)
  | Called (c : ChainCall).

(** The table, the instance in memory and the events so far. *)
Record Run : Type :=
  { run_table : Table; run_tx : Tx.t; run_log : list Event }.

Definition M (A : Type) : Type := Run -> Run * Outcome A.

Definition ret {A} (a : A) : M A := fun s => (s, Ok a).
Definition bind {A B} (m : M A) (k : A -> M B) : M B :=
  fun s =>
    match m s with
    | (s', Ok a) => k a s'
    | (s', Throw msg) => (s', Throw msg)
    end.

Notation "x <- m ;; k" := (bind m (fun x => k))
  (at level 100, m at level 99, right associativity).
Notation "m ;;; k" := (bind m (fun _ => k))
  (at level 100, k at level 200, right associativity).

Definition instance : M Tx.t := fun s => (s, Ok (run_tx s)).
Definition assign (f : Tx.t -> Tx.t) : M unit :=
  fun s => (Build_Run (run_table s) (f (run_tx s)) (run_log s), Ok tt).
Definition saveInstance : M unit :=
  fun s => (Build_Run (save (run_table s) (run_tx s)) (run_tx s)
                      (run_log s ++ [Saved (run_tx s)]), Ok tt).
Definition call {A} (c : ChainCall) (o : Outcome A) : M A :=
  fun s => (Build_Run (run_table s) (run_tx s) (run_log s ++ [Called c]), o).
Definition compute {A} (o : Outcome A) : M A := fun s => (s, o).

Inductive WithdrawalResult : Type :=
  | WithdrawalOk (txHash : string)         (* { success: true, txHash } *)
  | WithdrawalError (error : string).      (* { success: false, error } *)

(** The body of the try block. *)
Definition processWithdrawal_try (w : Wallet) (now : Z) : M string :=
  assign (Tx.set_status processing) ;;;
  saveInstance ;;;
  transaction <- instance ;;
  amountToSend <-
    call (CallParseTokenAmount (Tx.amount transaction)) (parseTokenAmount w) ;;
  gasPrice <- call CallGetFeeData (getFeeData w) ;;
  gasEstimate <-
    call (CallEstimateGas (Tx.walletAddress transaction) amountToSend)
         (estimateGas w) ;;
  limit <- compute (gasLimit w gasEstimate) ;;
  hash <-
    call (CallTransfer (Tx.walletAddress transaction) amountToSend limit
                       gasPrice)
         (transfer w) ;;
  assign (Tx.set_txHash hash) ;;;
  saveInstance ;;;
  call (CallWait hash) (wait w) ;;;
  assign (fun t =>
            Tx.set_confirmations 1
              (Tx.set_completedAt now (Tx.set_status completed t))) ;;;
  saveInstance ;;;
  ret hash.

(** services/blockchain processWithdrawal: the try block, and the catch
    block on the state the throw left. *)
Definition processWithdrawal (w : Wallet) (now : Z) (tbl : Table)
    (transaction : Tx.t) : Run * WithdrawalResult :=
  match processWithdrawal_try w now (Build_Run tbl transaction []) with
  | (s, Ok hash) => (s, WithdrawalOk hash)
  | (s, Throw message) =>
      let t :=
        Tx.set_adminNotes ("Failed: " ++ message)
          (Tx.set_status failed (run_tx s)) in
      (Build_Run (save (run_table s) t) t (run_log s ++ [Saved t]),
       WithdrawalError message)
  end.

(** The message of the first step of the script that throws, if any. *)
Definition failure_of (w : Wallet) : option string :=
  match parseTokenAmount w with
  | Throw m => Some m
  | Ok _ =>
  match getFeeData w with
  | Throw m => Some m
  | Ok _ =>
  match estimateGas w with
  | Throw m => Some m
  | Ok g =>
  match gasLimit w g with
  | Throw m => Some m
  | Ok _ =>
  match transfer w with
  | Throw m => Some m
  | Ok _ =>
  match wait w with
  | Throw m => Some m
  | Ok _ => None
  end end end end end end.

(* ================================================================== *)
(** * bots/user-bot: /deposit, /confirm and /withdraw *)
(* ================================================================== *)

(** The handlers first make sure the user is registered (models/User);
    that does not touch the ledger and is left out.  The table is a
    reliable store: [create] and [save] do not throw, except where a value
    does not fit its column. *)

(** An entry of the [depositRequests] map. *)
Record DepositRequest : Type := { amount : string; timestamp : Z }.

(** The state the handlers share: the in-process map and the table. *)
Record State : Type :=
  { depositRequests : gmap string DepositRequest; table : Table }.

(** A text written into a NUMERIC(24,dp) cell: rounded to [dp] digits,
    rejected by the server when it does not fit 24 digits. *)
Definition numeric_of (dp : nat) (d : Dec.Decimal) : option Z :=
  let m := Dec.round_at dp d in
  if Z.abs m <? 10 ^ 24 then Some m else None.

Definition numeric (dp : nat) (s : string) : option Z :=
  d ← Dec.parse s; numeric_of dp d.

(** [msg.text.split(' ')[1] || '10'] *)
Definition depositBase (text : string) : string :=
  match split_on " "%char (list_ascii_of_string text) with
  | _ :: (c :: w) :: _ => string_of_list_ascii (c :: w)
  | _ => "10"
  end.

Inductive DepositReply : Type :=
  | DepositInstructions (depositAmount : string)
  | DepositError.                       (* handleError *)

(** /deposit.  [k] is [Math.floor(Math.random() * 10000)]. *)
Definition on_deposit (now k : Z) (st : State) (chatId text : string)
    : State * DepositReply :=
  match Double.toFixed 4 (Double.round_to_double k 10000) with
  | None => (st, DepositError)
  | Some randomAmount =>
      match Dec.parse (depositBase text), Dec.parse randomAmount with
      | Some base, Some rnd =>
          let depositAmount := Dec.toFixed 6 (Dec.plus base rnd) in
          (Build_State
             (<[chatId := Build_DepositRequest depositAmount now]>
                (depositRequests st))
             (table st),
           DepositInstructions depositAmount)
      | _, _ => (st, DepositError)
      end
  end.

Inductive ConfirmReply : Type :=
  | InvalidHashFormat
  | NoActiveRequest
  | RequestExpired
  | VerificationFailed (reason : Reason)
  | DepositVerified (transaction : Tx.t) (balance : string)
  | ConfirmError.                       (* handleError *)

(** /confirm <txHash> *)
Definition on_confirm (cfg : Config) (chain : Chain) (now : Z) (st : State)
    (chatId txHash : string) : State * ConfirmReply :=
  if negb (isValidTxHash txHash) then (st, InvalidHashFormat)
  else
    match depositRequests st !! chatId with
    | None => (st, NoActiveRequest)
    | Some depositRequest =>
        if 24 * 60 * 60 * 1000 <? now - timestamp depositRequest then
          (Build_State (delete chatId (depositRequests st)) (table st),
           RequestExpired)
        else
          match verifyDepositTransaction cfg chain txHash
                  (amount depositRequest) with
          | NotVerified reason => (st, VerificationFailed reason)
          | Verified _ confirmations =>
              match numeric 6 (amount depositRequest) with
              | None => (st, ConfirmError)
              | Some a =>
                  let '(tbl, transaction) :=
                    createDeposit (table st) chatId a in
                  let transaction :=
                    Tx.set_confirmations confirmations
                      (Tx.set_completedAt now
                         (Tx.set_status completed
                            (Tx.set_txHash txHash transaction))) in
                  let tbl := save tbl transaction in
                  (Build_State (delete chatId (depositRequests st)) tbl,
                   DepositVerified transaction (getUserBalance tbl chatId))
              end
          end
    end.

Inductive WithdrawReply : Type :=
  | WithdrawInvalidFormat
  | InsufficientBalance (totalAmount : Dec.Decimal) (balance : string)
  | WithdrawalFailed (error : string)
  | WithdrawalSuccessful (txHash : string) (newBalance : string)
  | WithdrawError.                      (* handleError *)

(** /withdraw amount,walletAddress.  The result carries the events of the
    run of [processWithdrawal]. *)
Definition on_withdraw (isAddress : string -> bool) (cfg : Config)
    (w : Wallet) (now : Z) (tbl : Table) (chatId command : string)
    : Table * WithdrawReply * list Event :=
  match parseWithdrawCommand isAddress command with
  | None => (tbl, WithdrawInvalidFormat, [])
  | Some (amount, address) =>
      let balance := getUserBalance tbl chatId in
      let withdrawalFee := withdrawalFee cfg in
      match Dec.parse amount, Dec.parse balance with
      | Some a, Some b =>
          let totalAmount := Dec.plus a withdrawalFee in
          if Dec.lessThan b totalAmount then
            (tbl, InsufficientBalance totalAmount balance, [])
          else
            match numeric_of 6 a, numeric_of 6 withdrawalFee with
            | Some amt, Some fee =>
                let '(tbl1, transaction) :=
                  createWithdrawal tbl chatId amt address fee in
                let '(s, result) :=
                  processWithdrawal w now tbl1 transaction in
                match result with
                | WithdrawalError error =>
                    (run_table s, WithdrawalFailed error, run_log s)
                | WithdrawalOk txHash =>
                    (run_table s,
                     WithdrawalSuccessful txHash
                       (getUserBalance (run_table s) chatId),
                     run_log s)
                end
            | _, _ => (tbl, WithdrawError, [])
            end
      | _, _ => (tbl, WithdrawError, [])
      end
  end.

(* ================================================================== *)
(** * services/exchange and the admin decisions *)
(* ================================================================== *)

Inductive ExchangeRequestResult : Type :=
  | ExchangeCreated (transaction : Tx.t) (fiatAmount : string)
  | ExchangeRefused (error : string).

(** processExchangeRequest; [userFound] is the result of User.findByPk. *)
Definition processExchangeRequest (rates : ExchangeRates) (userFound : bool)
    (tbl : Table) (chatId amount fiatType : string)
    : Table * ExchangeRequestResult :=
  if negb userFound then (tbl, ExchangeRefused "User not found")
  else
    let balance := getUserBalance tbl chatId in
    match Dec.parse amount, Dec.parse balance with
    | Some amountDecimal, Some b =>
        if Dec.greaterThan amountDecimal b then
          (tbl, ExchangeRefused
                  ("Insufficient balance. Available: "
                     ++ formatUSDT balance ++ " USDT"))
        else
          let fiatAmount := exchangeFiatAmount rates amountDecimal fiatType in
          match numeric_of 6 amountDecimal, numeric 2 fiatAmount with
          | Some amt, Some fiat =>
              let '(tbl1, transaction) :=
                createExchange tbl chatId amt fiat fiatType in
              (tbl1, ExchangeCreated transaction fiatAmount)
          | _, _ => (tbl, ExchangeRefused "numeric field overflow")
          end
    | _, _ => (tbl, ExchangeRefused "[DecimalError] Invalid argument")
    end.

(** The result of [Transaction.findByPk(text)]. *)
Inductive Found : Type :=
  | Row (transaction : Tx.t)
  | NoRow
  | QueryError (message : string).

Section Admin.

(** The server's reading of the command argument as an integer key;
    [None] when it rejects the text. *)
Variable int_of_text : string -> option Z.

Definition findByPk (tbl : Table) (transactionId : string) : Found :=
  match int_of_text transactionId with
  | None => QueryError "invalid input syntax for type integer"
  | Some k =>
      match List.find (fun r => Tx.id r =? k) tbl with
      | Some r => Row r
      | None => NoRow
      end
  end.

Definition status_text (s : TxStatus) : string :=
  match s with
  | pending => "pending"
  | completed => "completed"
  | failed => "failed"
  | processing => "processing"
  end.

(** The key finds a row that a decision can be taken on: an exchange that
    is pending. *)
Definition decidable_exchange (tbl : Table) (transactionId : string)
    (t : Tx.t) : Prop :=
  findByPk tbl transactionId = Row t
  /\ Tx.type t = exchange /\ Tx.status t = pending.

Inductive ExchangeDecision : Type :=
  | DecisionOk (transaction : Tx.t)        (* { success: true, transaction } *)
  | DecisionError (error : string).        (* { success: false, error } *)

(** services/exchange completeExchangeTransaction *)
Definition completeExchangeTransaction (now : Z) (tbl : Table)
    (transactionId adminNotes : string) : Table * ExchangeDecision :=
  match findByPk tbl transactionId with
  | QueryError message => (tbl, DecisionError message)
  | NoRow => (tbl, DecisionError "Transaction not found")
  | Row transaction =>
      if negb (bool_decide (Tx.type transaction = exchange)) then
        (tbl, DecisionError "Not an exchange transaction")
      else if negb (bool_decide (Tx.status transaction = pending)) then
        (tbl, DecisionError
                ("Transaction is not pending, current status: "
                   ++ status_text (Tx.status transaction)))
      else
        let transaction :=
          Tx.set_completedAt now (Tx.set_status completed transaction) in
        let transaction :=
          if String.eqb adminNotes "" then transaction
          else Tx.set_adminNotes adminNotes transaction in
        (save tbl transaction, DecisionOk transaction)
  end.

Inductive RejectReply : Type :=
  | NotAuthorized
  | RejectNotFound
  | RejectNotExchange
  | RejectNotPending (status : TxStatus)
  | ExchangeRejected (transaction : Tx.t) (rejectionReason : string)
  | RejectError.

(** bots/admin-bot, /reject_exchange.  [transactionId] is the capture of
    the command pattern, [words] the words of the text after the second
    blank ([parts.slice(2).join(' ')]) when there are any, [userFound] the
    result of the User.findByPk that follows the save (reading the name of
    a missing user throws). *)
Definition on_reject_exchange (adminChatId : string) (userFound : bool)
    (tbl : Table) (chatId transactionId : string) (words : option string)
    : Table * RejectReply :=
  if negb (String.eqb chatId adminChatId) then (tbl, NotAuthorized)
  else
    let rejectionReason :=
      default "Exchange request was rejected by the administrator." words in
    match findByPk tbl transactionId with
    | QueryError _ => (tbl, RejectError)
    | NoRow => (tbl, RejectNotFound)
    | Row transaction =>
        if negb (bool_decide (Tx.type transaction = exchange)) then
          (tbl, RejectNotExchange)
        else if negb (bool_decide (Tx.status transaction = pending)) then
          (tbl, RejectNotPending (Tx.status transaction))
        else
          let transaction :=
            Tx.set_adminNotes rejectionReason
              (Tx.set_status failed transaction) in
          (save tbl transaction,
           if userFound then ExchangeRejected transaction rejectionReason
           else RejectError)
    end.

End Admin.

(* ================================================================== *)
(** * The handlers as a transition system *)
(* ================================================================== *)

(** The chain shows, for [txHash], a mined transaction whose first
    Transfer of the token moves [value] base units (at [dec] decimals) to
    the deposit address, [confirmations] blocks below the head. *)
Definition chain_shows (cfg : Config) (chain : Chain) (txHash : string)
    (value : Z) (dec : nat) (confirmations : Z) : Prop :=
  exists receipt currentBlock ev rest,
    getTransactionReceipt chain txHash = Ok (Some receipt)
    /\ getBlockNumber chain = Ok currentBlock
    /\ confirmations = currentBlock - blockNumber receipt
    /\ transferEvents cfg (logs receipt) = Ok (ev :: rest)
    /\ toLowerCase (arg_to ev) = toLowerCase (depositAddress cfg)
    /\ arg_value ev = value
    /\ decimals chain = Ok dec.

(** One incoming command, with what the environment answers during it. *)
Inductive Action : Type :=
  | ADeposit (chatId text : string) (now k : Z)
  | AConfirm (chain : Chain) (chatId txHash : string) (now : Z)
  | AWithdraw (w : Wallet) (chatId command : string) (now : Z)
  | AExchange (rates : ExchangeRates) (userFound : bool)
              (chatId amount fiatType : string)
  | AComplete (transactionId adminNotes : string) (now : Z)
  | AReject (userFound : bool) (chatId transactionId : string)
            (words : option string).

Section Machine.

Variable isAddress : string -> bool.
Variable int_of_text : string -> option Z.
Variable cfg : Config.
Variable adminChatId : string.

Definition step (st : State) (a : Action) : State :=
  match a with
  | ADeposit chatId text now k => fst (on_deposit now k st chatId text)
  | AConfirm chain chatId txHash now =>
      fst (on_confirm cfg chain now st chatId txHash)
  | AWithdraw w chatId command now =>
      Build_State (depositRequests st)
        (fst (fst (on_withdraw isAddress cfg w now (table st) chatId command)))
  | AExchange rates userFound chatId amount fiatType =>
      Build_State (depositRequests st)
        (fst (processExchangeRequest rates userFound (table st) chatId amount
                fiatType))
  | AComplete transactionId adminNotes now =>
      Build_State (depositRequests st)
        (fst (completeExchangeTransaction int_of_text now (table st)
                transactionId adminNotes))
  | AReject userFound chatId transactionId words =>
      Build_State (depositRequests st)
        (fst (on_reject_exchange int_of_text adminChatId userFound (table st)
                chatId transactionId words))
  end.

Definition run (st : State) (actions : list Action) : State :=
  fold_left step actions st.

(** The action is a /deposit of [c]. *)
Definition opens_for (c : string) (a : Action) : Prop :=
  match a with
  | ADeposit chatId _ _ _ => chatId = c
  | _ => False
  end.

End Machine.

(* ================================================================== *)
(** * Sample data *)
(* ================================================================== *)

Definition ledger_example : Table :=
  [ Tx.mk 1 deposit "alice" 50400000 None None None (Some "0x01") completed
          (Some 10) None (Some 6) None;
    Tx.mk 2 deposit "alice" 7000000 None None None None pending None None
          None None;
    Tx.mk 3 withdrawal "alice" 20000000 None None (Some "0xabc") None
          processing None (Some 400000) None None;
    Tx.mk 4 exchange "alice" 5000000 (Some 500) (Some "USD") None None
          pending None None None None;
    Tx.mk 5 withdrawal "alice" 9000000 None None (Some "0xabc") None failed
          None (Some 400000) None (Some "Failed: timeout");
    Tx.mk 6 deposit "bob" 1000000 None None None (Some "0x02") completed
          (Some 11) None (Some 6) None ]%string.


Definition sample_hash : string :=
  "0xaaaaaaaaaaaaaaaaaaaaaaaaaaaaaaaaaaaaaaaaaaaaaaaaaaaaaaaaaaaaaaaa".

Definition sample_cfg : Config :=
  {| usdtContractAddress := "0x55d398326f99059fF775485246999027B3197955";
     depositAddress := "0x1111111111111111111111111111111111111111";
     minConfirmations := 5;
     withdrawalFee := Dec.mk 4 1 |}.

(** A chain whose every transaction is one Transfer of [value] base units
    (18 decimals) to the deposit address, mined at block 100, with the
    head at [100 + confirmations]. *)
Definition sample_chain (value confirmations : Z) : Chain :=
  {| getTransactionReceipt := fun _ =>
       Ok (Some
             {| blockNumber := 100;
                logs :=
                  [ {| address := "0x55d398326f99059fF775485246999027B3197955";
                       parseLog :=
                         Parsed
                           {| name := "Transfer";
                              arg_from := "0x2222222222222222222222222222222222222222";
                              arg_to := "0x1111111111111111111111111111111111111111";
                              arg_value := value |} |} ] |});
     getBlockNumber := Ok (100 + confirmations);
     decimals := Ok 18%nat |}.

(** A run where every step succeeds, and one where the node is down. *)
Definition wallet_ok : Wallet :=
  {| parseTokenAmount := Ok 50000000000000000000;
     getFeeData := Ok {| maxFeePerGas := Some 3; maxPriorityFeePerGas := Some 1 |};
     estimateGas := Ok 50000;
     gasLimit := fun g => Ok (g * 12 / 10);
     transfer := Ok "0xbbbbbbbbbbbbbbbbbbbbbbbbbbbbbbbbbbbbbbbbbbbbbbbbbbbbbbbbbbbbbbbb";
     wait := Ok tt |}.

Definition wallet_down : Wallet :=
  {| parseTokenAmount := Throw "could not detect network";
     getFeeData := Throw "could not detect network";
     estimateGas := Throw "could not detect network";
     gasLimit := fun g => Ok (g * 12 / 10);
     transfer := Throw "could not detect network";
     wait := Throw "could not detect network" |}.

(** A withdrawal that was paid out. *)
Definition settled_withdrawal : Tx.t :=
  Tx.mk 1 withdrawal "alice" 50000000 None None
        (Some "0x3333333333333333333333333333333333333333")
        (Some "0xcccccccccccccccccccccccccccccccccccccccccccccccccccccccccccccccc")
        completed (Some 1700000000000) (Some 400000) (Some 1) None.

Definition funded (micro : Z) : Table :=
  [ Tx.mk 1 deposit "alice" micro None None None (Some sample_hash) completed
          (Some 1700000000000) None (Some 6) None ].

(** A run where the transfer is sent and the wait for it fails. *)
Definition wallet_timeout : Wallet :=
  {| parseTokenAmount := Ok 50000000000000000000;
     getFeeData := Ok {| maxFeePerGas := Some 3; maxPriorityFeePerGas := Some 1 |};
     estimateGas := Ok 50000;
     gasLimit := fun g => Ok (g * 12 / 10);
     transfer := Ok "0xbbbbbbbbbbbbbbbbbbbbbbbbbbbbbbbbbbbbbbbbbbbbbbbbbbbbbbbbbbbbbbbb";
     wait := Throw "timeout" |}.

Definition pending_withdrawal : Tx.t :=
  Tx.mk 1 withdrawal "alice" 50000000 None None
        (Some "0x3333333333333333333333333333333333333333") None
        pending None (Some 400000) None None.

(** A reading of keys: the unsigned decimal integers. *)
Definition decimal_key (s : string) : option Z :=
  match Dec.parse s with
  | Some d => if (Dec.scale d =? 0)%nat then Some (Dec.coef d) else None
  | None => None
  end.

(** The state after /deposit of alice at 1700000000000 with the draw 1234:
    an intent for 10.123400. *)
Definition intent_state : State :=
  fst (on_deposit 1700000000000 1234 (Build_State ∅ []) "alice" "/deposit").
(* ================================================================== *)
(** * The ledger as a whole *)
(* ================================================================== *)

(** No row carries a negative amount and no account is overdrawn. *)
Definition solvent (tbl : Table) : Prop :=
  Forall (fun r => 0 <= Tx.amount r) tbl /\ forall c, 0 <= rawBalance tbl c.

(** The token values a chain reports are unsigned integers. *)
Definition unsigned_values (chain : Chain) : Prop :=
  forall h receipt,
    getTransactionReceipt chain h = Ok (Some receipt) ->
    Forall (fun l => forall d, parseLog l = Parsed d -> 0 <= arg_value d)
           (logs receipt).

(** The commands as the bots pass them on: the chain of a /confirm
    reports unsigned values, and the /exchange handler hands over an
    amount the validator accepted. *)
Definition well_formed (a : Action) : Prop :=
  match a with
  | AConfirm chain _ _ _ => unsigned_values chain
  | AExchange _ _ _ amount _ => isValidAmount amount = true
  | _ => True
  end.

(** The command comes from the account [c]. *)
Definition sent_by (c : string) (a : Action) : Prop :=
  match a with
  | ADeposit chatId _ _ _ => chatId = c
  | AConfirm _ chatId _ _ => chatId = c
  | AWithdraw _ chatId _ _ => chatId = c
  | AExchange _ _ chatId _ _ => chatId = c
  | AComplete _ _ _ => False
  | AReject _ _ _ _ => False
  end.

(* ================================================================== *)
(** * The requests of a withdrawal *)
(* ================================================================== *)

(** The event is a request to submit a transfer. *)
Definition is_transfer (e : Event) : bool :=
  match e with
  | Called (CallTransfer _ _ _ _) => true
  | _ => false
  end.

(** The transfer a run requests for the row [t]: the one built from the
    answers of the steps before it, when none of them throws. *)
Definition transfer_request (w : Wallet) (t : Tx.t) : option ChainCall :=
  match parseTokenAmount w, getFeeData w, estimateGas w with
  | Ok amountToSend, Ok gasPrice, Ok gasEstimate =>
      match gasLimit w gasEstimate with
      | Ok limit =>
          Some (CallTransfer (Tx.walletAddress t) amountToSend limit gasPrice)
      | Throw _ => None
      end
  | _, _, _ => None
  end.

(* ================================================================== *)
(** * models/User and the registration of the handlers *)
(* ================================================================== *)

(** The users table: the chat id (the key) and the nullable username.
    The timestamps the ORM maintains are left out. *)
Abbreviation Users := (gmap string (option string)).

(** The truthiness of a string or null. *)
Definition truthy (s : option string) : bool :=
  match s with
  | Some s => negb (String.eqb s "")
  | None => false
  end.

(** User.findOrCreateUser(chatId, username): the table after the call and
    the username of the user returned. *)
Definition findOrCreateUser (users : Users) (chatId : string)
    (username : option string) : Users * option string :=
  match users !! chatId with
  | None => (<[chatId := username]> users, username)
  | Some stored =>
      if negb (bool_decide (stored = username)) && truthy username
      then (<[chatId := username]> users, username)
      else (users, stored)
  end.

(** registerUser(msg), with [msg.from.username || null]. *)
Definition registerUser (users : Users) (chatId : string)
    (fromUsername : option string) : Users * option string :=
  findOrCreateUser users chatId
    (if truthy fromUsername then fromUsername else None).

(** ensureUserExists(chatId) *)
Definition ensureUserExists (users : Users) (chatId : string) : bool :=
  bool_decide (is_Some (users !! chatId)).

(** The opening of the handlers:
    [if (!await ensureUserExists(chatId)) await registerUser(msg)]. *)
Definition ensure_registered (users : Users) (chatId : string)
    (fromUsername : option string) : Users :=
  if ensureUserExists users chatId then users
  else fst (registerUser users chatId fromUsername).

(* ================================================================== *)
(** * models/ExchangeRate: the stored rates *)
(* ================================================================== *)

(** The table of rates: empty, or its one row (id 1). *)
Abbreviation RateStore := (option ExchangeRates).

(** config.defaultRates (1.0 and 39.5), as the cells they are stored as. *)
Definition defaultRates : ExchangeRates :=
  {| rateUSD := 1000000; rateUAH := 39500000 |}.

(** ExchangeRate.getCurrentRates: the row, created with the defaults
    when the table is empty. *)
Definition getCurrentRates (store : RateStore) : RateStore * ExchangeRates :=
  match store with
  | Some rates => (store, rates)
  | None => (Some defaultRates, defaultRates)
  end.

(** The argument of updateRates: each rate a text, or absent. *)
Record NewRates : Type :=
  { new_rateUSD : option string; new_rateUAH : option string }.

(** ExchangeRate.updateRates: a rate that is given (and truthy) is
    written into its NUMERIC(24,6) cell, the other cell keeps its value,
    or takes the default when the row is created.  [None] when the server
    rejects a value. *)
Definition updateRates (store : RateStore) (newRates : NewRates)
    : option RateStore :=
  let current := default defaultRates store in
  usd ← (if truthy (new_rateUSD newRates)
         then new_rateUSD newRates ≫= numeric 6
         else Some (rateUSD current));
  uah ← (if truthy (new_rateUAH newRates)
         then new_rateUAH newRates ≫= numeric 6
         else Some (rateUAH current));
  Some (Some {| rateUSD := usd; rateUAH := uah |}).

(* ================================================================== *)
(** * utils/validation: the exchange command *)
(* ================================================================== *)






(* ================================================================== *)
(** * The command patterns of the bots *)
(* ================================================================== *)

(** [l] without the prefix [p], when it starts with it. *)
Fixpoint strip_prefix (p l : list ascii) : option (list ascii) :=
  match p, l with
  | [], _ => Some l
  | c :: p', d :: l' => if Ascii.eqb c d then strip_prefix p' l' else None
  | _ :: _, [] => None
  end.

(** The longest prefix the dot of a pattern matches: up to the first line
    terminator (LF, CR, U+2028 or U+2029, the last two E2 80 A8 and
    E2 80 A9 in UTF-8). *)
Fixpoint take_line (l : list ascii) : list ascii :=
  match l with
  | [] => []
  | c :: l' =>
      if (Ascii.eqb c "010" || Ascii.eqb c "013")%char then []
      else
        match l with
        | "226"%char :: "128"%char :: c3 :: _ =>
            if (Ascii.eqb c3 "168" || Ascii.eqb c3 "169")%char then []
            else c :: take_line l'
        | _ => c :: take_line l'
        end
  end.

(** The capture of a pattern made of the literal [pat] and a group of one
    or more characters of the line: the match is the leftmost one, the
    group takes all it can. *)
Fixpoint capture_from (pat l : list ascii) {struct l} : option (list ascii) :=
  match
    match strip_prefix pat l with
    | Some rest =>
        match take_line rest with
        | [] => None
        | c :: cap => Some (c :: cap)
        end
    | None => None
    end
  with
  | Some cap => Some cap
  | None =>
      match l with
      | [] => None
      | _ :: l' => capture_from pat l'
      end
  end.

(** [match[1]] for the handler registered on the pattern that is the
    command, a blank and the group; [None] when the text does not match
    and the handler is not called. *)
Definition onText (command text : string) : option string :=
  string_of_list_ascii
    <$> capture_from (list_ascii_of_string (command ++ " "))
                     (list_ascii_of_string text).

(** Array.prototype.join *)
Fixpoint join (sep : ascii) (ws : list (list ascii)) : list ascii :=
  match ws with
  | [] => []
  | w :: ws' =>
      match ws' with
      | [] => w
      | _ :: _ => w ++ sep :: join sep ws'
      end
  end.

(** [parts.slice(2).join(' ')] for [parts = msg.text.split(' ')], when
    [parts.length > 2]. *)
Definition words_after_id (text : string) : option string :=
  match split_on " "%char (list_ascii_of_string text) with
  | _ :: _ :: w :: ws => Some (string_of_list_ascii (join " "%char (w :: ws)))
  | _ => None
  end.

(** The text holds no line terminator. *)
Definition single_line (s : string) : Prop :=
  take_line (list_ascii_of_string s) = list_ascii_of_string s.

(** The text holds no blank. *)
Definition one_word (s : string) : Prop :=
  Forall (fun c => c <> " "%char) (list_ascii_of_string s).

(* ================================================================== *)
(** * bots/user-bot: /exchange *)
(* ================================================================== *)



(* ================================================================== *)
(** * bots/admin-bot: /rate_usd, /rate_uah, /complete_exchange and
      /reject_exchange on the text of the message *)
(* ================================================================== *)

Inductive RateReply : Type :=
  | RateNotAuthorized
  | RateInvalid
  | RateUpdated (rate : string)
  | RateError.

Definition on_rate (command : string) (as_new : string -> NewRates)
    (adminChatId : string) (store : RateStore) (chatId text : string)
    : option (RateStore * RateReply) :=
  rate ← onText command text;
  Some
    (if negb (String.eqb chatId adminChatId) then (store, RateNotAuthorized)
     else if negb (isValidAmount rate) then (store, RateInvalid)
     else
       match updateRates store (as_new rate) with
       | Some store' => (store', RateUpdated rate)
       | None => (store, RateError)
       end).

(** /rate_usd [value] and /rate_uah [value] *)
Definition on_rate_usd : string -> RateStore -> string -> string
                         -> option (RateStore * RateReply) :=
  on_rate "/rate_usd"
    (fun rateUSD => {| new_rateUSD := Some rateUSD; new_rateUAH := None |}).

Definition on_rate_uah : string -> RateStore -> string -> string
                         -> option (RateStore * RateReply) :=
  on_rate "/rate_uah"
    (fun rateUAH => {| new_rateUSD := None; new_rateUAH := Some rateUAH |}).

Inductive CompleteReply : Type :=
  | CompleteNotAuthorized
  | CompleteFailed (error : string)
  | ExchangeCompleted (transaction : Tx.t)
  | CompleteError.

Section AdminText.

Variable int_of_text : string -> option Z.

(** /complete_exchange [id].  [userFound] is the result of the
    User.findByPk that follows the completion (reading the name of a
    missing user throws). *)
Definition on_complete_exchange (adminChatId : string) (now : Z)
    (userFound : bool) (tbl : Table) (chatId text : string)
    : option (Table * CompleteReply) :=
  transactionId ← onText "/complete_exchange" text;
  Some
    (if negb (String.eqb chatId adminChatId) then (tbl, CompleteNotAuthorized)
     else
       let adminNotes := default ""%string (words_after_id text) in
       match completeExchangeTransaction int_of_text now tbl transactionId
               adminNotes with
       | (tbl', DecisionError error) => (tbl', CompleteFailed error)
       | (tbl', DecisionOk transaction) =>
           (tbl',
            if userFound then ExchangeCompleted transaction else CompleteError)
       end).

(** /reject_exchange [id], from the text of the message. *)
Definition on_reject_exchange_text (adminChatId : string) (userFound : bool)
    (tbl : Table) (chatId text : string) : option (Table * RejectReply) :=
  transactionId ← onText "/reject_exchange" text;
  Some (on_reject_exchange int_of_text adminChatId userFound tbl chatId
          transactionId (words_after_id text)).

End AdminText.

(* ================================================================== *)
(** * bots/user-bot: the Deposit button *)
(* ================================================================== *)

(** callback_query, case 'deposit': as /deposit, on the base 10.  [k] is
    [Math.floor(Math.random() * 10000)]. *)
Definition on_deposit_button (now k : Z) (st : State) (chatId : string)
    : State * DepositReply :=
  match Double.toFixed 4 (Double.round_to_double k 10000) with
  | None => (st, DepositError)
  | Some randomAmount =>
      match Dec.parse "10", Dec.parse randomAmount with
      | Some base, Some rnd =>
          let depositAmount := Dec.toFixed 6 (Dec.plus base rnd) in
          (Build_State
             (<[chatId := Build_DepositRequest depositAmount now]>
                (depositRequests st))
             (table st),
           DepositInstructions depositAmount)
      | _, _ => (st, DepositError)
      end
  end.

(* ================================================================== *)
(** * decimal.js: toString *)
(* ================================================================== *)

Module DecText.

(** The coefficient and scale without the trailing zeros of the
    fraction. *)
Fixpoint strip_zeros (s : nat) (c : Z) : Z * nat :=
  match s with
  | O => (c, O)
  | S s' => if c mod 10 =? 0 then strip_zeros s' (c / 10) else (c, s)
  end.

(** A list of digits without its trailing zeros. *)
Fixpoint drop_zeros (l : list ascii) : list ascii :=
  match l with
  | [] => []
  | c :: l' =>
      match drop_zeros l' with
      | [] => if Ascii.eqb c "0" then [] else [c]
      | r => c :: r
      end
  end.

(** The plain notation: the integer digits, and the fraction when there
    is one. *)
Definition plain (a : Z) (s : nat) : list ascii :=
  Dec.int_digits (a / Dec.pow10 s)
    ++ match s with
       | O => []
       | _ => "."%char :: Dec.fixed_digits s (a mod Dec.pow10 s)
       end.

(** The exponential notation: the first significant digit, the others
    after a point, and the exponent with its sign. *)
Definition exponential (a e : Z) : list ascii :=
  match drop_zeros (Dec.int_digits a) with
  | [] => []
  | d :: ds =>
      d :: match ds with [] => [] | _ => "."%char :: ds end
        ++ (if e <? 0 then ["e"%char; "-"%char] else ["e"%char; "+"%char])
        ++ Dec.int_digits (Z.abs e)
  end.

(** Decimal.prototype.toString on a finite value: the plain notation
    without trailing zeros, the exponential one when the exponent of the
    first digit is at least 21 (toExpPos) or at most -7 (toExpNeg). *)
Definition toString (d : Dec.Decimal) : string :=
  let '(c, s) := strip_zeros (Dec.scale d) (Dec.coef d) in
  let a := Z.abs c in
  if a =? 0 then "0"%string
  else
    let e := Z.of_nat (Dec.ndigits a) - 1 - Z.of_nat s in
    string_of_list_ascii
      ((if c <? 0 then ["-"%char] else [])
         ++ if (21 <=? e) || (e <=? -7) then exponential a e else plain a s).

End DecText.

(* ================================================================== *)
(** * models/SystemMetric and services/metrics: the daily volume *)
(* ================================================================== *)

(** The breakdown stored with a daily volume. *)
Record Breakdown : Type := {
  breakdown_deposit : string;
  breakdown_withdrawal : string;
  breakdown_exchange : string;
  breakdown_count : nat
}.

(** A row of the [system_metrics] table; [metricValue] is a
    NUMERIC(24,6) cell.  The key and the timestamps are left out. *)
Record SystemMetric : Type := {
  metricType : string;
  metricDate : string;
  metricValue : Z;
  metricData : option Breakdown
}.

Abbreviation Metrics := (list SystemMetric).

(** [findOrCreate({ where: { metricType, metricDate }, defaults })],
    followed, when the row was found, by the assignment of the new value
    and data and [save]: the first matching row is rewritten, or a row is
    appended. *)
Fixpoint record_metric (new : SystemMetric) (metrics : Metrics) : Metrics :=
  match metrics with
  | [] => [new]
  | m :: metrics' =>
      if String.eqb (metricType m) (metricType new)
         && String.eqb (metricDate m) (metricDate new)
      then new :: metrics'
      else m :: record_metric new metrics'
  end.

(** SystemMetric.recordDailyVolume; [None] when the server rejects the
    value. *)
Definition recordDailyVolume (metrics : Metrics) (date volume : string)
    (breakdown : Breakdown) : option Metrics :=
  value ← numeric 6 volume;
  Some (record_metric
          {| metricType := "daily_volume"; metricDate := date;
             metricValue := value; metricData := Some breakdown |}
          metrics).

(** What the writers of the table look a row up by. *)
Definition metric_key (m : SystemMetric) : string * string :=
  (metricType m, metricDate m).

(** The text reads as [m] millionths. *)
Definition denotes (s : string) (m : Z) : Prop :=
  exists d, Dec.parse s = Some d /\ Dec.is_micro d m.

(** The running sums of calculateDailyVolume. *)
Record Volumes : Type := {
  volume_deposit : Dec.Decimal;
  volume_withdrawal : Dec.Decimal;
  volume_exchange : Dec.Decimal;
  totalVolume : Dec.Decimal
}.

(** The body of the forEach:
    [volumeByType[tx.type] = volumeByType[tx.type].plus(amount)] and
    [totalVolume = totalVolume.plus(amount)]. *)
Definition add_volume (v : Volumes) (tx : Tx.t) : Volumes :=
  let amount := Dec.of_micro (Tx.amount tx) in
  {| volume_deposit :=
       match Tx.type tx with
       | deposit => Dec.plus (volume_deposit v) amount
       | _ => volume_deposit v
       end;
     volume_withdrawal :=
       match Tx.type tx with
       | withdrawal => Dec.plus (volume_withdrawal v) amount
       | _ => volume_withdrawal v
       end;
     volume_exchange :=
       match Tx.type tx with
       | exchange => Dec.plus (volume_exchange v) amount
       | _ => volume_exchange v
       end;
     totalVolume := Dec.plus (totalVolume v) amount |}.

Definition volumes (transactions : list Tx.t) : Volumes :=
  fold_left add_volume transactions
    {| volume_deposit := Dec.zero; volume_withdrawal := Dec.zero;
       volume_exchange := Dec.zero; totalVolume := Dec.zero |}.

(** The rows of one type. *)
Definition of_type (ty : TxType) (transactions : list Tx.t) : list Tx.t :=
  List.filter (fun r => bool_decide (Tx.type r = ty)) transactions.

(** The result of calculateDailyVolume. *)
Record DailyVolume : Type := {
  daily_date : string;
  daily_total : string;
  daily_deposit : string;
  daily_withdrawal : string;
  daily_exchange : string;
  daily_count : nat
}.

(** The result for the rows the query returned. *)
Definition dailyVolume (dateStr : string) (transactions : list Tx.t)
    : DailyVolume :=
  let v := volumes transactions in
  {| daily_date := dateStr;
     daily_total := DecText.toString (totalVolume v);
     daily_deposit := DecText.toString (volume_deposit v);
     daily_withdrawal := DecText.toString (volume_withdrawal v);
     daily_exchange := DecText.toString (volume_exchange v);
     daily_count := length transactions |}.

(** A day in milliseconds. *)
Definition day_ms : Z := 86400000.

Section DailyVolume.

(** The date part of toISOString for a day counted from the epoch
    (YYYY-MM-DD). *)
Variable iso_date : Z -> string.

(** Local time minus UTC, in milliseconds (taken as the same for both
    ends of the day). *)
Variable offset : Z.

(** [new Date(dateStr)]: midnight UTC of the day of [date]. *)
Definition startOfDay (date : Z) : Z := date / day_ms * day_ms.

(** [new Date(dateStr)] followed by [setHours(23, 59, 59, 999)], which
    sets the time of the local day the instant falls in. *)
Definition endOfDay (date : Z) : Z :=
  (startOfDay date + offset) / day_ms * day_ms + 86399999 - offset.

(** [findAll({ where: { status: 'completed',
                         completedAt: { [Op.between]: [start, end] } } })] *)
Definition completedBetween (tbl : Table) (startOfDay endOfDay : Z)
    : list Tx.t :=
  List.filter
    (fun r =>
       bool_decide (Tx.status r = completed)
       && match Tx.completedAt r with
          | Some at_ => (startOfDay <=? at_) && (at_ <=? endOfDay)
          | None => false
          end)
    tbl.

(** services/metrics calculateDailyVolume at the instant [date]; [None]
    when recording the metric throws. *)
Definition calculateDailyVolume (tbl : Table) (metrics : Metrics) (date : Z)
    : option (Metrics * DailyVolume) :=
  let dateStr := iso_date (date / day_ms) in
  let transactions :=
    completedBetween tbl (startOfDay date) (endOfDay date) in
  let result := dailyVolume dateStr transactions in
  metrics' ← recordDailyVolume metrics dateStr (daily_total result)
               {| breakdown_deposit := daily_deposit result;
                  breakdown_withdrawal := daily_withdrawal result;
                  breakdown_exchange := daily_exchange result;
                  breakdown_count := daily_count result |};
  Some (metrics', result).

End DailyVolume.

(* ================================================================== *)
(** * Further sample data *)
(* ================================================================== *)

Definition sample_rates : ExchangeRates :=
  {| rateUSD := 1000000; rateUAH := 39500000 |}.

Definition sample_address : string :=
  "0x3333333333333333333333333333333333333333".

(** alice deposits 50.4, withdraws 50 and asks to exchange the rest. *)
Definition alice_session : list Action :=
  [ ADeposit "alice" "/deposit 50" 1700000000000 4000;
    AConfirm (sample_chain 50400000000000000000 6) "alice" sample_hash
             1700000001000;
    AWithdraw wallet_ok "alice"
              "50,0x3333333333333333333333333333333333333333" 1700000002000;
    AExchange sample_rates true "alice" "0.4" "USD" ].

(** bob deposits 25.0077 and asks to exchange 5 of it. *)
Definition bob_session : list Action :=
  [ ADeposit "bob" "/deposit 25" 1700000003000 77;
    AConfirm (sample_chain 25007700000000000000 6) "bob" sample_hash
             1700000004000;
    AExchange sample_rates true "bob" "5" "UAH" ].

(** The administrator completes exchange 4 and rejects withdrawal 3 (which
    is refused), then alice withdraws. *)
Definition admin_session : list Action :=
  [ AComplete "4" "paid in cash" 1700000005000;
    AReject true "admin" "3" None;
    AWithdraw wallet_ok "alice"
              "1,0x3333333333333333333333333333333333333333" 1700000006000 ].

(** A chain whose transactions carry, before the Transfer to the deposit
    address, a log of another contract that the token interface decodes
    to null. *)
Definition chain_with_foreign_log (value confirmations : Z) : Chain :=
  {| getTransactionReceipt := fun _ =>
       Ok (Some
             {| blockNumber := 100;
                logs :=
                  [ {| address := "0x10ED43C718714eb63d5aA57B78B54704E256024E";
                       parseLog := ParseNull |};
                    {| address := "0x55d398326f99059fF775485246999027B3197955";
                       parseLog :=
                         Parsed
                           {| name := "Transfer";
                              arg_from := "0x2222222222222222222222222222222222222222";
                              arg_to := "0x1111111111111111111111111111111111111111";
                              arg_value := value |} |} ] |});
     getBlockNumber := Ok (100 + confirmations);
     decimals := Ok 18%nat |}.

(** The table after the sessions of alice and bob and the completion of
    bob's exchange. *)
Definition day_table : Table :=
  table (run (fun _ => true) decimal_key sample_cfg "admin" (Build_State ∅ [])
           (alice_session ++ bob_session
              ++ [AComplete "5" "paid in cash" 1700000005000])).

(** The date part of toISOString on the day of the sample sessions. *)
Definition sample_iso_date (day : Z) : string :=
  if day =? 19675 then "2023-11-14" else "1970-01-01".

(** A table of metrics with the volume of the day before and an earlier
    volume of the day of the sample sessions. *)
Definition day_metrics : Metrics :=
  [ {| metricType := "daily_volume"; metricDate := "2023-11-13";
       metricValue := 12000000; metricData := None |};
    {| metricType := "daily_volume"; metricDate := "2023-11-14";
       metricValue := 50400000; metricData := None |};
    {| metricType := "user_count"; metricDate := "2023-11-14";
       metricValue := 2000000; metricData := None |} ].

(* ================================================================== *)
(** * services/blockchain: processWithdrawal on a store that can fail *)
(* ================================================================== *)

(** The outcomes of the four awaited [transaction.save()] of one run of
    [processWithdrawal], in the order of the source: the save that writes
    the row as processing, the one that writes the hash, the one that
    writes the row as completed, and the one of the catch block.  A save
    that throws writes nothing. *)
Record Store : Type := {
  save_processing : Outcome unit;
  save_txHash : Outcome unit;
  save_completed : Outcome unit;
  save_failed : Outcome unit
}.

(** The store whose saves all succeed. *)
Definition reliable : Store :=
  {| save_processing := Ok tt; save_txHash := Ok tt;
     save_completed := Ok tt; save_failed := Ok tt |}.

Definition saveInstance_on (o : Outcome unit) : M unit :=
  fun s =>
    match o with
    | Ok _ => saveInstance s
    | Throw message => (s, Throw message)
    end.

(** The body of the try block. *)
Definition processWithdrawal_try_on (st : Store) (w : Wallet) (now : Z)
    : M string :=
  assign (Tx.set_status processing) ;;;
  saveInstance_on (save_processing st) ;;;
  transaction <- instance ;;
  amountToSend <-
    call (CallParseTokenAmount (Tx.amount transaction)) (parseTokenAmount w) ;;
  gasPrice <- call CallGetFeeData (getFeeData w) ;;
  gasEstimate <-
    call (CallEstimateGas (Tx.walletAddress transaction) amountToSend)
         (estimateGas w) ;;
  limit <- compute (gasLimit w gasEstimate) ;;
  hash <-
    call (CallTransfer (Tx.walletAddress transaction) amountToSend limit
                       gasPrice)
         (transfer w) ;;
  assign (Tx.set_txHash hash) ;;;
  saveInstance_on (save_txHash st) ;;;
  call (CallWait hash) (wait w) ;;;
  assign (fun t =>
            Tx.set_confirmations 1
              (Tx.set_completedAt now (Tx.set_status completed t))) ;;;
  saveInstance_on (save_completed st) ;;;
  ret hash.

(** services/blockchain processWithdrawal: the try block, and the catch
    block on the state the throw left.  The save of the catch block is
    awaited outside any try: when it throws, the function throws and
    returns no result. *)
Definition processWithdrawal_on (st : Store) (w : Wallet) (now : Z)
    (tbl : Table) (transaction : Tx.t) : Run * Outcome WithdrawalResult :=
  match processWithdrawal_try_on st w now (Build_Run tbl transaction []) with
  | (s, Ok hash) => (s, Ok (WithdrawalOk hash))
  | (s, Throw message) =>
      let t :=
        Tx.set_adminNotes ("Failed: " ++ message)
          (Tx.set_status failed (run_tx s)) in
      match save_failed st with
      | Ok _ =>
          (Build_Run (save (run_table s) t) t (run_log s ++ [Saved t]),
           Ok (WithdrawalError message))
      | Throw thrown => (Build_Run (run_table s) t (run_log s), Throw thrown)
      end
  end.

(** The message of the first step of the try block that throws, if any:
    the chain requests and the saves, in the order of the source. *)
Definition failure_on (st : Store) (w : Wallet) : option string :=
  match save_processing st with
  | Throw m => Some m
  | Ok _ =>
  match parseTokenAmount w with
  | Throw m => Some m
  | Ok _ =>
  match getFeeData w with
  | Throw m => Some m
  | Ok _ =>
  match estimateGas w with
  | Throw m => Some m
  | Ok g =>
  match gasLimit w g with
  | Throw m => Some m
  | Ok _ =>
  match transfer w with
  | Throw m => Some m
  | Ok _ =>
  match save_txHash st with
  | Throw m => Some m
  | Ok _ =>
  match wait w with
  | Throw m => Some m
  | Ok _ =>
  match save_completed st with
  | Throw m => Some m
  | Ok _ => None
  end end end end end end end end end.

(** A store that accepts the first save of a run and is lost after it,
    and one that misses the save of the hash only. *)
Definition store_lost : Store :=
  {| save_processing := Ok tt;
     save_txHash := Throw "Connection terminated unexpectedly";
     save_completed := Throw "Connection terminated unexpectedly";
     save_failed := Throw "Connection terminated unexpectedly" |}.

Definition store_flaky : Store :=
  {| save_processing := Ok tt;
     save_txHash := Throw "Connection terminated unexpectedly";
     save_completed := Ok tt;
     save_failed := Ok tt |}.

(* ================================================================== *)
(** * What a receipt shows, in the words of the specification *)
(* ================================================================== *)

(** The log [l] was emitted by the token contract and decodes to the
    Transfer [d]. *)
Definition token_transfer (cfg : Config) (l : Log) (d : LogDescription)
    : Prop :=
  parseLog l = Parsed d
  /\ name d = "Transfer"%string
  /\ toLowerCase (address l) = toLowerCase (usdtContractAddress cfg).

(** [d] is the first Transfer of the token among the logs [ls], in their
    order. *)
Definition first_token_transfer (cfg : Config) (ls : list Log)
    (d : LogDescription) : Prop :=
  exists before l after,
    ls = before ++ l :: after
    /\ token_transfer cfg l d
    /\ forall l' d', In l' before -> ~ token_transfer cfg l' d'.

(** No log of [ls] decodes to null. *)
Definition all_decoded (ls : list Log) : Prop :=
  Forall (fun l => parseLog l <> ParseNull) ls.

(** The fields of a row that no handler assigns once the row is created:
    the key, the kind, the owner, the amount, the fiat amount and kind,
    the wallet address and the fee.  (The status, the hash, the completion
    time, the confirmations and the notes are the ones that are.) *)
Definition same_record (r r' : Tx.t) : Prop :=
  Tx.id r' = Tx.id r /\ Tx.type r' = Tx.type r
  /\ Tx.chatId r' = Tx.chatId r /\ Tx.amount r' = Tx.amount r
  /\ Tx.fiatAmount r' = Tx.fiatAmount r /\ Tx.fiatType r' = Tx.fiatType r
  /\ Tx.walletAddress r' = Tx.walletAddress r /\ Tx.fee r' = Tx.fee r.

(* ================================================================== *)
(** * The texts that are read alike *)
(* ================================================================== *)

(** [new Decimal] reads, besides the decimal literals of [Dec.parse],
    Infinity and NaN, the literals with the prefixes 0x, 0b and 0o,
    digits set apart by underscores, and exponents beyond its range,
    which it turns into zero or infinity; String.prototype.trim and
    toUpperCase know the blanks and the letters outside ASCII.  A text of
    ASCII characters without the letters and the mark those forms need
    (I, N, x, b, o, e in either case, and the underscore) is a decimal
    literal without exponent or an error for the constructor as for
    [Dec.parse], and is trimmed and upper-cased alike. *)
Definition plain_char (c : ascii) : bool :=
  (nat_of_ascii c <? 128)%nat
  && negb (existsb (Ascii.eqb c) (list_ascii_of_string "_INxXbBoOeE")).

Definition plain_text (s : string) : bool :=
  forallb plain_char (list_ascii_of_string s).

(* ================================================================== *)
(** * Handlers in flight *)
(* ================================================================== *)

(** The handlers are asynchronous: a handler that has read the balance
    awaits again before it creates its row, and other handlers run in
    between.  The /withdraw handler and the exchange service are written
    here in their two parts: up to the balance check, and from there to
    the end, on the table as it is by then. *)

(** What the /withdraw handler holds after its check: the reply it has
    sent, or the amount and the address it goes on with. *)
Inductive WithdrawCheck : Type :=
  | CheckAnswered (reply : WithdrawReply)
  | CheckPassed (amount : Dec.Decimal) (address : string).

Definition withdraw_check (isAddress : string -> bool) (cfg : Config)
    (tbl : Table) (chatId command : string) : WithdrawCheck :=
  match parseWithdrawCommand isAddress command with
  | None => CheckAnswered WithdrawInvalidFormat
  | Some (amount, address) =>
      let balance := getUserBalance tbl chatId in
      let withdrawalFee := withdrawalFee cfg in
      match Dec.parse amount, Dec.parse balance with
      | Some a, Some b =>
          let totalAmount := Dec.plus a withdrawalFee in
          if Dec.lessThan b totalAmount then
            CheckAnswered (InsufficientBalance totalAmount balance)
          else CheckPassed a address
      | _, _ => CheckAnswered WithdrawError
      end
  end.

(** From createWithdrawal to the end of the handler. *)
Definition withdraw_settle (cfg : Config) (w : Wallet) (now : Z)
    (tbl : Table) (chatId : string) (a : Dec.Decimal) (address : string)
    : Table * WithdrawReply * list Event :=
  match numeric_of 6 a, numeric_of 6 (withdrawalFee cfg) with
  | Some amt, Some fee =>
      let '(tbl1, transaction) :=
        createWithdrawal tbl chatId amt address fee in
      let '(s, result) := processWithdrawal w now tbl1 transaction in
      match result with
      | WithdrawalError error =>
          (run_table s, WithdrawalFailed error, run_log s)
      | WithdrawalOk txHash =>
          (run_table s,
           WithdrawalSuccessful txHash (getUserBalance (run_table s) chatId),
           run_log s)
      end
  | _, _ => (tbl, WithdrawError, [])
  end.

(** What processExchangeRequest holds after its check. *)
Inductive ExchangeCheck : Type :=
  | ExchangeAnswered (result : ExchangeRequestResult)
  | ExchangePassed (amountDecimal : Dec.Decimal).

Definition exchange_check (userFound : bool) (tbl : Table)
    (chatId amount : string) : ExchangeCheck :=
  if negb userFound then ExchangeAnswered (ExchangeRefused "User not found")
  else
    let balance := getUserBalance tbl chatId in
    match Dec.parse amount, Dec.parse balance with
    | Some amountDecimal, Some b =>
        if Dec.greaterThan amountDecimal b then
          ExchangeAnswered
            (ExchangeRefused
               ("Insufficient balance. Available: "
                  ++ formatUSDT balance ++ " USDT"))
        else ExchangePassed amountDecimal
    | _, _ => ExchangeAnswered (ExchangeRefused "[DecimalError] Invalid argument")
    end.

(** From the reading of the rates to the end of the service. *)
Definition exchange_settle (rates : ExchangeRates) (tbl : Table)
    (chatId : string) (amountDecimal : Dec.Decimal) (fiatType : string)
    : Table * ExchangeRequestResult :=
  let fiatAmount := exchangeFiatAmount rates amountDecimal fiatType in
  match numeric_of 6 amountDecimal, numeric 2 fiatAmount with
  | Some amt, Some fiat =>
      let '(tbl1, transaction) :=
        createExchange tbl chatId amt fiat fiatType in
      (tbl1, ExchangeCreated transaction fiatAmount)
  | _, _ => (tbl, ExchangeRefused "numeric field overflow")
  end.

(** A handler between its check and its end. *)
Inductive Flight : Type :=
  | Withdrawing (w : Wallet) (now : Z) (chatId : string)
                (amount : Dec.Decimal) (address : string)
  | Exchanging (rates : ExchangeRates) (chatId : string)
               (amountDecimal : Dec.Decimal) (fiatType : string).

(** What the scheduler does next: it runs the handler of a command from
    its start to its end, it runs the handler of a /withdraw or of an
    exchange request up to its balance check (the handlers of the other
    commands are run whole), or it lets the [n]-th handler in flight go
    on to its end. *)
Inductive Move : Type :=
  | Handle (a : Action)
  | Check (a : Action)
  | Settle (n : nat).

(** The state of the bot and the handlers in flight, oldest first. *)
Record Play : Type := { play_state : State; in_flight : list Flight }.

Section Flights.

Variable isAddress : string -> bool.
Variable int_of_text : string -> option Z.
Variable cfg : Config.
Variable adminChatId : string.

(** The flight a check leaves, when the handler goes on. *)
Definition check (st : State) (a : Action) : option Flight :=
  match a with
  | AWithdraw w chatId command now =>
      match withdraw_check isAddress cfg (table st) chatId command with
      | CheckPassed amount address =>
          Some (Withdrawing w now chatId amount address)
      | CheckAnswered _ => None
      end
  | AExchange rates userFound chatId amount fiatType =>
      match exchange_check userFound (table st) chatId amount with
      | ExchangePassed amountDecimal =>
          Some (Exchanging rates chatId amountDecimal fiatType)
      | ExchangeAnswered _ => None
      end
  | _ => None
  end.

Definition settle (st : State) (f : Flight) : State :=
  match f with
  | Withdrawing w now chatId amount address =>
      Build_State (depositRequests st)
        (fst (fst (withdraw_settle cfg w now (table st) chatId amount
                     address)))
  | Exchanging rates chatId amountDecimal fiatType =>
      Build_State (depositRequests st)
        (fst (exchange_settle rates (table st) chatId amountDecimal fiatType))
  end.

Definition move (p : Play) (m : Move) : Play :=
  match m with
  | Handle a =>
      Build_Play (step isAddress int_of_text cfg adminChatId (play_state p) a)
                 (in_flight p)
  | Check a =>
      match a with
      | AWithdraw _ _ _ _ | AExchange _ _ _ _ _ =>
          Build_Play (play_state p)
            (in_flight p
               ++ match check (play_state p) a with
                  | Some f => [f]
                  | None => []
                  end)
      | _ =>
          Build_Play
            (step isAddress int_of_text cfg adminChatId (play_state p) a)
            (in_flight p)
      end
  | Settle n =>
      match in_flight p !! n with
      | Some f =>
          Build_Play (settle (play_state p) f) (delete n (in_flight p))
      | None => p
      end
  end.

Definition play (p : Play) (moves : list Move) : Play :=
  fold_left move moves p.

(** The handlers run one at a time: while a handler is in flight the only
    move is to let it go on to its end. *)
Fixpoint one_at_a_time (p : Play) (moves : list Move) : Prop :=
  match moves with
  | [] => True
  | m :: moves' =>
      (in_flight p = [] \/ m = Settle 0) /\ one_at_a_time (move p m) moves'
  end.

End Flights.

(** The commands whose handlers the moves start. *)
Definition commands (moves : list Move) : list Action :=
  flat_map (fun m => match m with
                     | Handle a | Check a => [a]
                     | Settle _ => []
                     end) moves.

(** A withdrawal of 20 and an exchange request for 30 by alice; the
    moves that run two such requests up to their check before either goes
    on, and moves that run the handlers one after the other. *)
Definition withdraw_20 : Action :=
  AWithdraw wallet_ok "alice" "20,0x3333333333333333333333333333333333333333"
            1700000002000.

Definition exchange_30 : Action :=
  AExchange {| rateUSD := 1000000; rateUAH := 39500000 |} true "alice" "30"
            "USD".

Definition both_in_flight : list Move :=
  [Check exchange_30; Check exchange_30; Settle 0; Settle 0].

Definition one_after_the_other : list Move :=
  [ Check exchange_30; Settle 0; Check exchange_30; Settle 0;
    Check withdraw_20; Settle 0 ].

(* ================================================================== *)
(** * Facts about Decimal values *)
(* ================================================================== *)

Module DecFacts.
Import Dec.

Lemma pow10_pos n : 0 < pow10 n.
Proof. unfold pow10. apply Z.pow_pos_nonneg; lia. Qed.

Lemma pow10_S n : pow10 (S n) = 10 * pow10 n.
Proof. unfold pow10. rewrite Nat2Z.inj_succ, Z.pow_succ_r; lia. Qed.

Lemma pow10_add a b : pow10 (a + b) = pow10 a * pow10 b.
Proof. unfold pow10. rewrite Nat2Z.inj_add, Z.pow_add_r; lia. Qed.

Lemma pow10_0 : pow10 0 = 1.
Proof. reflexivity. Qed.

(** Within the working precision nothing is rounded. *)
Lemma round_sd_small c : Z.abs c < pow10 precision -> round_sd c = c.
Proof.
  intros H. unfold round_sd.
  destruct (Z.ltb_spec (Z.abs c) (pow10 precision)); [reflexivity | lia].
Qed.

Lemma is_micro_zero : is_micro zero 0.
Proof. split; [cbn; lia | reflexivity]. Qed.

Lemma is_micro_of_micro m : is_micro (of_micro m) m.
Proof.
  split; unfold of_micro; cbn [coef scale]; [lia|].
  rewrite Nat.sub_diag, pow10_0. lia.
Qed.

Lemma is_micro_abs d m : is_micro d m -> Z.abs (coef d) <= Z.abs m.
Proof.
  intros [_ <-]. rewrite Z.abs_mul.
  pose proof (pow10_pos (6 - scale d)).
  rewrite (Z.abs_eq (pow10 _)) by lia. nia.
Qed.

Lemma pow10_split (s t : nat) :
  (t <= s)%nat -> pow10 s = pow10 (s - t) * pow10 t.
Proof. intros. rewrite <- pow10_add. f_equal. lia. Qed.

Lemma align_micro a b x y :
  is_micro a x -> is_micro b y ->
  exists p q s, align a b = (p, q, s) /\ (s <= 6)%nat
                /\ p * pow10 (6 - s) = x /\ q * pow10 (6 - s) = y.
Proof.
  intros [Ha <-] [Hb <-]. unfold align.
  set (s := Nat.max (scale a) (scale b)).
  exists (coef a * pow10 (s - scale a)), (coef b * pow10 (s - scale b)), s.
  assert (Hs : (s <= 6)%nat) by (subst s; lia).
  repeat split; [exact Hs | |].
  - rewrite <- Z.mul_assoc, <- pow10_add. do 2 f_equal. subst s; lia.
  - rewrite <- Z.mul_assoc, <- pow10_add. do 2 f_equal. subst s; lia.
Qed.

Lemma is_micro_finalise c s m :
  (s <= 6)%nat -> c * pow10 (6 - s) = m -> Z.abs m < pow10 precision ->
  is_micro (finalise (mk c s)) m.
Proof.
  intros Hs Hc Hm.
  assert (Hle : Z.abs c <= Z.abs m) by (apply (is_micro_abs (mk c s)); split; auto).
  unfold finalise; cbn [coef scale]. rewrite round_sd_small by lia.
  split; auto.
Qed.

Lemma plus_micro a b x y :
  is_micro a x -> is_micro b y -> Z.abs (x + y) < pow10 precision ->
  is_micro (plus a b) (x + y).
Proof.
  intros Ha Hb Hr.
  destruct (align_micro a b x y Ha Hb) as (p & q & s & E & Hs & Hp & Hq).
  unfold plus. rewrite E. apply is_micro_finalise; auto. lia.
Qed.

Lemma minus_micro a b x y :
  is_micro a x -> is_micro b y -> Z.abs (x - y) < pow10 precision ->
  is_micro (minus a b) (x - y).
Proof.
  intros Ha Hb Hr.
  destruct (align_micro a b x y Ha Hb) as (p & q & s & E & Hs & Hp & Hq).
  unfold minus. rewrite E. apply is_micro_finalise; auto. lia.
Qed.

Lemma cmp_micro a b x y :
  is_micro a x -> is_micro b y -> cmp a b = (x ?= y).
Proof.
  intros Ha Hb.
  destruct (align_micro a b x y Ha Hb) as (p & q & s & E & Hs & <- & <-).
  unfold cmp. rewrite E.
  pose proof (pow10_pos (6 - s)).
  destruct (Z.compare_spec p q),
    (Z.compare_spec (p * pow10 (6 - s)) (q * pow10 (6 - s)));
    auto; nia.
Qed.

Lemma lessThan_micro a b x y :
  is_micro a x -> is_micro b y -> lessThan a b = (x <? y).
Proof.
  intros Ha Hb. unfold lessThan, Z.ltb. now rewrite (cmp_micro a b x y).
Qed.

Lemma greaterThan_micro a b x y :
  is_micro a x -> is_micro b y -> greaterThan a b = (y <? x).
Proof.
  intros Ha Hb. unfold greaterThan. rewrite (cmp_micro a b x y) by auto.
  unfold Z.ltb. rewrite (Z.compare_antisym x y).
  destruct (x ?= y); reflexivity.
Qed.

Lemma equals_micro a b x y :
  is_micro a x -> is_micro b y -> equals a b = (x =? y).
Proof.
  intros Ha Hb. unfold equals. rewrite (cmp_micro a b x y) by auto.
  destruct (Z.compare_spec x y), (Z.eqb_spec x y); auto; lia.
Qed.

Lemma round_at_micro d m : is_micro d m -> round_at 6 d = m.
Proof.
  intros [Hs <-]. unfold round_at.
  destruct (Nat.leb_spec (scale d) 6); [reflexivity | lia].
Qed.

Lemma toFixed_micro d m :
  is_micro d m -> toFixed 6 d = toFixed 6 (of_micro m).
Proof.
  intros H. unfold toFixed, toFixed_chars.
  rewrite (round_at_micro d m H), (round_at_micro _ m (is_micro_of_micro m)).
  destruct H as [Hs <-]. cbn [coef of_micro].
  pose proof (pow10_pos (6 - scale d)).
  replace (coef d * pow10 (6 - scale d) <? 0) with (coef d <? 0); [reflexivity|].
  destruct (Z.ltb_spec (coef d) 0), (Z.ltb_spec (coef d * pow10 (6 - scale d)) 0);
    auto; nia.
Qed.

(** ** Digits *)

Lemma digit_of_char k : 0 <= k < 10 -> digit_of (digit_char k) = Some k.
Proof.
  intros H.
  assert (E : k = 0 \/ k = 1 \/ k = 2 \/ k = 3 \/ k = 4 \/ k = 5 \/ k = 6
              \/ k = 7 \/ k = 8 \/ k = 9) by lia.
  repeat (destruct E as [-> | E]; [reflexivity |]). subst. reflexivity.
Qed.

Lemma is_digit_char k : 0 <= k < 10 -> is_digit (digit_char k) = true.
Proof. intros H. unfold is_digit. now rewrite digit_of_char. Qed.

Lemma mod10_range n : 0 <= n mod 10 < 10.
Proof. apply Z.mod_pos_bound. lia. Qed.

Lemma fixed_digits_digits w n : Forall (fun c => is_digit c = true) (fixed_digits w n).
Proof.
  revert n. induction w as [| w IH]; intros n; cbn [fixed_digits].
  - constructor.
  - apply Forall_app. split; [apply IH |].
    constructor; [apply is_digit_char, mod10_range | constructor].
Qed.

Lemma length_fixed_digits w n : length (fixed_digits w n) = w.
Proof.
  revert n. induction w as [| w IH]; intros n; cbn [fixed_digits]; [reflexivity |].
  rewrite length_app, IH. cbn. lia.
Qed.

Lemma digits_value_app acc l1 l2 :
  digits_value acc (l1 ++ l2) = digits_value (digits_value acc l1) l2.
Proof. revert acc. induction l1 as [| c l1 IH]; intros acc; cbn; auto. Qed.

Lemma digits_value_fixed w n acc :
  digits_value acc (fixed_digits w n) = acc * pow10 w + n mod pow10 w.
Proof.
  revert n acc. induction w as [| w IH]; intros n acc.
  - cbn [fixed_digits digits_value]. rewrite pow10_0, Z.mod_1_r. lia.
  - cbn [fixed_digits]. rewrite digits_value_app, IH. cbn [digits_value].
    rewrite digit_of_char by apply mod10_range. cbn [default].
    rewrite pow10_S.
    pose proof (pow10_pos w).
    rewrite (Z.rem_mul_r n 10 (pow10 w)) by lia. unfold id. lia.
Qed.

Lemma count_digits_bound fuel n :
  0 <= n < 2 ^ (Z.of_nat fuel + 1) -> n < pow10 (count_digits fuel n).
Proof.
  revert n. induction fuel as [| f IH]; intros n Hn.
  - cbn in Hn. cbn [count_digits]. unfold pow10. cbn. lia.
  - cbn [count_digits]. destruct (Z.ltb_spec n 10).
    + unfold pow10. cbn. lia.
    + rewrite pow10_S.
      assert (Hd : n / 10 < pow10 (count_digits f (n / 10))).
      { apply IH. split; [apply Z.div_pos; lia |].
        apply Z.div_lt_upper_bound; [lia |].
        rewrite Nat2Z.inj_succ in Hn.
        replace (Z.succ (Z.of_nat f) + 1) with (Z.succ (Z.of_nat f + 1)) in Hn by lia.
        rewrite Z.pow_succ_r in Hn by lia. lia. }
      pose proof (Z.mul_div_le n 10). pose proof (Z.mod_pos_bound n 10).
      pose proof (Z_div_mod_eq_full n 10). lia.
Qed.

Lemma ndigits_bound n : 0 <= n -> n < pow10 (ndigits n).
Proof.
  intros Hn. unfold ndigits. apply count_digits_bound.
  split; [exact Hn |].
  rewrite Z2Nat.id by apply Z.log2_nonneg.
  destruct (Z.eq_dec n 0) as [-> | Hz]; [cbn; lia |].
  pose proof (Z.log2_spec n). replace (Z.log2 n + 1) with (Z.succ (Z.log2 n)) by lia.
  lia.
Qed.

Lemma count_digits_lower fuel n :
  1 <= n -> pow10 (count_digits fuel n - 1) <= n.
Proof.
  revert n. induction fuel as [| f IH]; intros n Hn; cbn [count_digits].
  - change (pow10 0 <= n). rewrite pow10_0. lia.
  - destruct (Z.ltb_spec n 10);
      [change (pow10 0 <= n); rewrite pow10_0; lia |].
    replace (S (count_digits f (n / 10)) - 1)%nat
      with (S (count_digits f (n / 10) - 1))%nat
      by (destruct f; cbn [count_digits]; [| destruct (_ <? _)]; lia).
    rewrite pow10_S.
    assert (1 <= n / 10) by (apply Z.div_le_lower_bound; lia).
    pose proof (IH (n / 10) ltac:(lia)). pose proof (Z.mul_div_le n 10). lia.
Qed.

(** [ndigits n] is the number of decimal digits of a positive [n]. *)
Lemma ndigits_spec n :
  1 <= n -> pow10 (ndigits n - 1) <= n < pow10 (ndigits n).
Proof.
  intros Hn. split; [now apply count_digits_lower | apply ndigits_bound; lia].
Qed.

Lemma count_digits_pos fuel n : (1 <= count_digits fuel n)%nat.
Proof. destruct fuel; cbn [count_digits]; [lia |]. destruct (n <? 10); lia. Qed.

Lemma digits_value_int n : 0 <= n -> digits_value 0 (int_digits n) = n.
Proof.
  intros Hn. unfold int_digits. rewrite digits_value_fixed.
  rewrite Z.mod_small; [lia |]. split; [exact Hn | now apply ndigits_bound].
Qed.

Lemma int_digits_cons n :
  exists c l, int_digits n = c :: l /\ is_digit c = true
              /\ Forall (fun c => is_digit c = true) l.
Proof.
  pose proof (fixed_digits_digits (ndigits n) n) as HF.
  pose proof (length_fixed_digits (ndigits n) n) as HL.
  pose proof (count_digits_pos (Z.to_nat (Z.log2 n)) n) as HP.
  fold (ndigits n) in HP. fold (int_digits n) in HF, HL.
  destruct (int_digits n) as [| c l]; [cbn in HL; lia |].
  exists c, l. inversion HF; subst. auto.
Qed.

(** ** Reading back what [toFixed] wrote *)

Lemma take_digits_stop ds rest :
  Forall (fun c => is_digit c = true) ds ->
  match rest with [] => True | c :: _ => is_digit c = false end ->
  take_digits (ds ++ rest) = (ds, rest).
Proof.
  intros Hds Hrest. induction Hds as [| c ds Hc _ IH]; cbn [app take_digits].
  - destruct rest as [| c r]; cbn [take_digits]; [reflexivity | now rewrite Hrest].
  - now rewrite Hc, IH.
Qed.

Lemma parse_chars_digit c l :
  is_digit c = true -> parse_chars (c :: l) = parse_unsigned false (c :: l).
Proof.
  intros H. unfold parse_chars.
  destruct c as [[] [] [] [] [] [] [] []]; try reflexivity; discriminate H.
Qed.

Lemma parse_unsigned_fixed neg ip p f :
  ip <> [] -> Forall (fun c => is_digit c = true) ip ->
  parse_unsigned neg (ip ++ "."%char :: fixed_digits (S p) f)
  = Some (assemble neg ip (fixed_digits (S p) f) 0).
Proof.
  intros Hne Hip. unfold parse_unsigned.
  rewrite (take_digits_stop ip) by (auto; reflexivity).
  pose proof (take_digits_stop (fixed_digits (S p) f) []
                (fixed_digits_digits _ _) I) as E.
  rewrite app_nil_r in E. rewrite E.
  destruct ip as [| c ip]; [congruence |]. reflexivity.
Qed.

Lemma assemble_fixed neg ip p f :
  assemble neg ip (fixed_digits (S p) f) 0
  = mk (let c := digits_value 0 ip * pow10 (S p) + f mod pow10 (S p) in
        if neg then - c else c) (S p).
Proof.
  unfold assemble. rewrite length_fixed_digits, digits_value_app, digits_value_fixed.
  destruct (Z.leb_spec 0 (0 - Z.of_nat (S p))); [lia |].
  f_equal. lia.
Qed.

Lemma half_up_div_nonneg n d : 0 <= n -> 0 < d -> 0 <= half_up_div n d.
Proof. intros. unfold half_up_div. apply Z.div_pos; lia. Qed.

Lemma round_at_sign dp d :
  (coef d < 0 -> round_at dp d <= 0) /\ (0 <= coef d -> 0 <= round_at dp d).
Proof.
  unfold round_at. destruct (scale d <=? dp)%nat.
  - pose proof (pow10_pos (dp - scale d)). split; nia.
  - pose proof (half_up_div_nonneg (Z.abs (coef d)) (pow10 (scale d - dp))
                  (Z.abs_nonneg _) (pow10_pos _)).
    split; intros; nia.
Qed.

(** [new Decimal(x.toFixed(dp))] is [x] rounded to [dp] digits. *)
Lemma parse_toFixed p d :
  parse (toFixed (S p) d) = Some (mk (round_at (S p) d) (S p)).
Proof.
  unfold parse, toFixed. rewrite list_ascii_of_string_of_list_ascii.
  unfold toFixed_chars.
  set (r := Z.abs (round_at (S p) d)).
  assert (Hr : 0 <= r) by (subst r; lia).
  pose proof (pow10_pos (S p)) as Hp.
  destruct (int_digits_cons (r / pow10 (S p))) as (c & l & E & Hc & Hl).
  assert (Hv : digits_value 0 (c :: l) * pow10 (S p) + (r mod pow10 (S p)) mod pow10 (S p) = r).
  { rewrite <- E, digits_value_int by (apply Z.div_pos; lia).
    rewrite Z.mod_mod by lia. pose proof (Z_div_mod_eq_full r (pow10 (S p))). lia. }
  destruct (round_at_sign (S p) d) as [Hneg Hpos].
  rewrite E. destruct (Z.ltb_spec (coef d) 0) as [Hlt | Hge].
  - cbn [app parse_chars].
    change (c :: l ++ ?x) with ((c :: l) ++ x).
    rewrite parse_unsigned_fixed by (try discriminate; constructor; auto).
    rewrite assemble_fixed. cbv zeta. rewrite Hv. f_equal. f_equal. subst r. lia.
  - cbn [app]. rewrite parse_chars_digit by exact Hc.
    change (c :: l ++ ?x) with ((c :: l) ++ x).
    rewrite parse_unsigned_fixed by (try discriminate; constructor; auto).
    rewrite assemble_fixed. cbv zeta. rewrite Hv. f_equal. f_equal. subst r. lia.
Qed.

Lemma parse_toFixed_micro m : parse (toFixed 6 (of_micro m)) = Some (of_micro m).
Proof.
  rewrite parse_toFixed. unfold of_micro. f_equal. f_equal.
  apply round_at_micro, is_micro_of_micro.
Qed.

End DecFacts.

(* ================================================================== *)
(** * The balance engine *)
(* ================================================================== *)

Section Balance.
Import Dec DecFacts.

Lemma sum_abs_app l1 l2 : sum_abs (l1 ++ l2) = sum_abs l1 + sum_abs l2.
Proof. induction l1 as [| r l1 IH]; cbn; [reflexivity |]. fold (sum_abs (l1 ++ l2)) (sum_abs l1). lia. Qed.

Lemma sum_amounts_app l1 l2 :
  sum_amounts (l1 ++ l2) = sum_amounts l1 + sum_amounts l2.
Proof.
  induction l1 as [| r l1 IH]; cbn; [reflexivity |].
  fold (sum_amounts (l1 ++ l2)) (sum_amounts l1). lia.
Qed.

Lemma sum_abs_nonneg l : 0 <= sum_abs l.
Proof. induction l as [| r l IH]; cbn; [lia |]. fold (sum_abs l). lia. Qed.

Lemma sum_amounts_abs l : Z.abs (sum_amounts l) <= sum_abs l.
Proof.
  induction l as [| r l IH]; cbn; [lia |].
  fold (sum_amounts l) (sum_abs l). lia.
Qed.

(** The reduce keeps the exact running sum while it fits the precision. *)
Lemma fold_plus_micro rows : forall acc x,
  is_micro acc x -> Z.abs x + sum_abs rows < pow10 precision ->
  is_micro
    (fold_left (fun sum tx => plus sum (of_micro (Tx.amount tx))) rows acc)
    (x + sum_amounts rows).
Proof.
  induction rows as [| r rows IH]; intros acc x Hacc Hb.
  - cbn. now rewrite Z.add_0_r.
  - cbn [fold_left sum_amounts fold_right].
    fold (sum_amounts rows). cbn [sum_abs fold_right] in Hb. fold (sum_abs rows) in Hb.
    pose proof (sum_abs_nonneg rows).
    rewrite Z.add_assoc. apply IH.
    + apply plus_micro; [exact Hacc | apply is_micro_of_micro | lia].
    + lia.
Qed.

Lemma total_micro rows :
  sum_abs rows < pow10 precision -> is_micro (total rows) (sum_amounts rows).
Proof.
  intros H. unfold total.
  change (sum_amounts rows) with (0 + sum_amounts rows).
  apply fold_plus_micro; [apply is_micro_zero | cbn; lia].
Qed.

Lemma getUserBalance_micro tbl c :
  volume tbl c < 10 ^ 20 ->
  getUserBalance tbl c = toFixed 6 (of_micro (Z.max 0 (rawBalance tbl c))).
Proof.
  intros Hv. change (10 ^ 20) with (pow10 precision) in Hv.
  unfold volume in Hv. rewrite !sum_abs_app in Hv.
  set (D := findAll tbl c deposit [completed]) in *.
  set (W := findAll tbl c withdrawal [completed; pending; processing]) in *.
  set (E := findAll tbl c exchange [completed; pending; processing]) in *.
  pose proof (sum_abs_nonneg D). pose proof (sum_abs_nonneg W).
  pose proof (sum_abs_nonneg E).
  pose proof (sum_amounts_abs D). pose proof (sum_amounts_abs W).
  pose proof (sum_amounts_abs E).
  assert (HD : is_micro (total D) (sum_amounts D)) by (apply total_micro; lia).
  assert (HW : is_micro (total W) (sum_amounts W)) by (apply total_micro; lia).
  assert (HE : is_micro (total E) (sum_amounts E)) by (apply total_micro; lia).
  assert (HB : is_micro (minus (minus (total D) (total W)) (total E))
                 (rawBalance tbl c)).
  { unfold rawBalance, completedDeposits, reservedWithdrawals, reservedExchanges.
    fold D W E. apply minus_micro; [apply minus_micro | |]; auto; lia. }
  unfold getUserBalance. fold D W E.
  rewrite (lessThan_micro _ _ _ 0 HB is_micro_zero).
  destruct (Z.ltb_spec (rawBalance tbl c) 0).
  - rewrite Z.max_l by lia. reflexivity.
  - rewrite Z.max_r by lia. now apply toFixed_micro.
Qed.

Lemma getUserBalance_parse tbl c :
  volume tbl c < 10 ^ 20 ->
  parse (getUserBalance tbl c) = Some (of_micro (Z.max 0 (rawBalance tbl c))).
Proof.
  intros H. rewrite (getUserBalance_micro tbl c H).
  apply parse_toFixed_micro.
Qed.

(** The balance read as a number of millionths. *)
Lemma getUserBalance_value tbl c m :
  volume tbl c < 10 ^ 20 ->
  getUserBalance tbl c = toFixed 6 (of_micro m) ->
  Z.max 0 (rawBalance tbl c) = m.
Proof.
  intros Hv E. rewrite (getUserBalance_micro tbl c Hv) in E.
  apply (f_equal parse) in E.
  rewrite !parse_toFixed_micro in E. now injection E.
Qed.

End Balance.

(** C1 (as amended).  For every account whose counted amounts total fewer
    than 10^20 millionths (the 20 significant digits decimal.js keeps),
    the computed balance is the rendering, with six digits, of: the sum of
    its completed deposits, minus the sum of its withdrawals that are
    completed, processing or pending, minus the sum of its exchanges in
    those states, with zero in place of a negative result; read back as a
    Decimal it is that number. *)
Theorem getUserBalance_rule (tbl : Table) (c : string) :
  volume tbl c < 10 ^ 20 ->
  getUserBalance tbl c
  = Dec.toFixed 6 (Dec.of_micro (Z.max 0 (rawBalance tbl c)))
  /\ Dec.parse (getUserBalance tbl c)
     = Some (Dec.of_micro (Z.max 0 (rawBalance tbl c))).
Proof.
  intros H. split; [now apply getUserBalance_micro | now apply getUserBalance_parse].
Qed.

Lemma getUserBalance_rule_witness :
  volume ledger_example "alice" < 10 ^ 20
  /\ getUserBalance ledger_example "alice" = "25.400000"%string.
Proof.
  split; [reflexivity |].
  exact (proj1 (getUserBalance_rule ledger_example "alice" eq_refl)).
Defined.

(** C1, counterexample: a single completed deposit of
    100000000000000.000001 (21 significant digits, a value NUMERIC(24,6)
    holds) is summed to 100000000000000.000000. *)
Lemma getUserBalance_beyond_precision :
  let tbl :=
    [ Tx.mk 1 deposit "alice" 100000000000000000001 None None None
            (Some "0x01") completed (Some 10) None (Some 6) None ]%string in
  rawBalance tbl "alice" = 100000000000000000001
  /\ getUserBalance tbl "alice" = "100000000000000.000000"%string
  /\ Dec.toFixed 6 (Dec.of_micro (Z.max 0 (rawBalance tbl "alice")))
     = "100000000000000.000001"%string.
Proof. vm_compute. auto. Qed.

(* ================================================================== *)
(** * Formatting and parsing amounts *)
(* ================================================================== *)

Section Format.
Import Dec DecFacts.

(** [half_up_div n d] is the integer nearest to [n / d], the upper one on
    a tie. *)
Lemma half_up_div_spec n d :
  0 <= n -> 0 < d ->
  2 * half_up_div n d * d - d <= 2 * n < 2 * half_up_div n d * d + d.
Proof.
  intros Hn Hd. unfold half_up_div.
  pose proof (Z_div_mod_eq_full (2 * n + d) (2 * d)).
  pose proof (Z.mod_pos_bound (2 * n + d) (2 * d)). nia.
Qed.

Lemma toFixed_shape p d :
  exists ip fp,
    list_ascii_of_string (toFixed (S p) d)
    = (if coef d <? 0 then ["-"%char] else []) ++ ip ++ "."%char :: fp
    /\ ip <> [] /\ Forall (fun c => is_digit c = true) ip
    /\ Forall (fun c => is_digit c = true) fp /\ length fp = S p.
Proof.
  unfold toFixed. rewrite list_ascii_of_string_of_list_ascii.
  unfold toFixed_chars.
  set (r := Z.abs (round_at (S p) d)).
  destruct (int_digits_cons (r / pow10 (S p))) as (c & l & E & Hc & Hl).
  exists (int_digits (r / pow10 (S p))), (fixed_digits (S p) (r mod pow10 (S p))).
  split; [reflexivity |]. rewrite E.
  repeat split; [discriminate | constructor; auto | apply fixed_digits_digits
                | apply length_fixed_digits].
Qed.

Lemma isValidAmount_toFixed d :
  isValidAmount (toFixed 6 d) = (0 <? round_at 6 d).
Proof.
  unfold isValidAmount. rewrite parse_toFixed.
  apply (greaterThan_micro (mk (round_at 6 d) 6) zero (round_at 6 d) 0);
    [apply (is_micro_of_micro (round_at 6 d)) | apply is_micro_zero].
Qed.

End Format.

(** C8 (as amended).  For every decimal literal [s] denoting [d]:
    formatUSDT renders an optional minus sign, the integer digits, a point
    and exactly six digits; the rendering reads back as [d] rounded to six
    fractional digits, half away from zero on the last retained digit; the
    amount validator accepts the rendering exactly when that rounded value
    is positive (so it rejects the rendering of zero); and when [d] has at
    most six fractional digits the value read back equals [d]. *)
Theorem formatUSDT_roundtrip (s : string) (d : Dec.Decimal) :
  Dec.parse s = Some d ->
  let r := Dec.round_at 6 d in
  (exists ip fp,
      list_ascii_of_string (formatUSDT s)
      = (if Dec.coef d <? 0 then ["-"%char] else []) ++ ip ++ "."%char :: fp
      /\ ip <> [] /\ Forall (fun c => Dec.is_digit c = true) ip
      /\ Forall (fun c => Dec.is_digit c = true) fp /\ length fp = 6%nat)
  /\ Dec.parse (formatUSDT s) = Some (Dec.mk r 6)
  /\ parseAmount (formatUSDT s) = (if 0 <? r then Some (Dec.mk r 6) else None)
  /\ ((Dec.scale d <= 6)%nat ->
      r = Dec.coef d * Dec.pow10 (6 - Dec.scale d)
      /\ Dec.equals (Dec.mk r 6) d = true)
  /\ ((6 < Dec.scale d)%nat ->
      let u := Dec.pow10 (Dec.scale d - 6) in
      r = Z.sgn (Dec.coef d) * Z.abs r
      /\ 2 * Z.abs r * u - u <= 2 * Z.abs (Dec.coef d) < 2 * Z.abs r * u + u).
Proof.
  intros Hs r. unfold formatUSDT, parseAmount. rewrite Hs.
  rewrite isValidAmount_toFixed, DecFacts.parse_toFixed. fold r.
  split; [apply toFixed_shape |].
  split; [reflexivity |]. split; [reflexivity |]. split.
  - intros Hle.
    assert (Hm : Dec.is_micro d r)
      by (split; [exact Hle |]; subst r; unfold Dec.round_at;
          destruct (Nat.leb_spec (Dec.scale d) 6); [reflexivity | lia]).
    split; [symmetry; apply Hm |].
    rewrite (DecFacts.equals_micro (Dec.mk r 6) d r r
               (DecFacts.is_micro_of_micro r) Hm).
    apply Z.eqb_refl.
  - intros Hlt. cbv zeta. set (u := Dec.pow10 (Dec.scale d - 6)).
    subst r. unfold Dec.round_at.
    destruct (Nat.leb_spec (Dec.scale d) 6); [lia |]. fold u.
    pose proof (DecFacts.pow10_pos (Dec.scale d - 6)) as Hu. fold u in Hu.
    pose proof (DecFacts.half_up_div_nonneg (Z.abs (Dec.coef d)) u
                  (Z.abs_nonneg _) Hu) as Hq.
    pose proof (half_up_div_spec (Z.abs (Dec.coef d)) u (Z.abs_nonneg _) Hu).
    set (q := Dec.half_up_div (Z.abs (Dec.coef d)) u) in *.
    assert (Ha : Z.abs (Z.sgn (Dec.coef d) * q) = q \/ Dec.coef d = 0).
    { destruct (Z.sgn_spec (Dec.coef d)) as [[? ->] | [[? ->] | [? ->]]]; lia. }
    destruct Ha as [Ha | Hz].
    + rewrite Ha. split; [reflexivity | lia].
    + assert (Hq0 : q = 0).
      { subst q. rewrite Hz. unfold Dec.half_up_div. cbn.
        apply Z.div_small. lia. }
      rewrite Hz, Hq0 in *. cbn. lia.
Qed.

Lemma formatUSDT_roundtrip_witness :
  Dec.parse "50.4" = Some (Dec.mk 504 1)
  /\ formatUSDT "50.4" = "50.400000"%string
  /\ parseAmount (formatUSDT "50.4") = Some (Dec.mk 50400000 6).
Proof.
  pose proof (formatUSDT_roundtrip "50.4" (Dec.mk 504 1) eq_refl) as H.
  cbv zeta in H. destruct H as (_ & _ & H & _).
  split; [reflexivity | split; [reflexivity | exact H]].
Defined.

(** C8, counterexamples: the rendering of zero does not parse as an
    amount, and an amount that needs rounding reads back rounded. *)
Lemma formatUSDT_roundtrip_fails :
  formatUSDT "0" = "0.000000"%string
  /\ parseAmount (formatUSDT "0") = None
  /\ Dec.parse "1.2345675" = Some (Dec.mk 12345675 7)
  /\ formatUSDT "1.2345675" = "1.234568"%string
  /\ parseAmount (formatUSDT "1.2345675") = Some (Dec.mk 1234568 6)
  /\ Dec.equals (Dec.mk 1234568 6) (Dec.mk 12345675 7) = false.
Proof. vm_compute. repeat split. Qed.

(* ================================================================== *)
(** * The table *)
(* ================================================================== *)

Section TableFacts.

Lemma save_length tbl r : length (save tbl r) = length tbl.
Proof. apply length_map. Qed.

Lemma save_lookup tbl r (i : nat) x :
  tbl !! i = Some x ->
  save tbl r !! i = Some (if Tx.id x =? Tx.id r then r else x).
Proof. intros H. unfold save. now rewrite list_lookup_fmap, H. Qed.

Lemma save_hit tbl r (i : nat) x :
  tbl !! i = Some x -> Tx.id x = Tx.id r -> save tbl r !! i = Some r.
Proof.
  intros H E. rewrite (save_lookup _ _ _ _ H), E, Z.eqb_refl. reflexivity.
Qed.

Lemma save_miss tbl r (i : nat) x :
  tbl !! i = Some x -> Tx.id x <> Tx.id r -> save tbl r !! i = Some x.
Proof.
  intros H E. rewrite (save_lookup _ _ _ _ H).
  destruct (Z.eqb_spec (Tx.id x) (Tx.id r)); [contradiction | reflexivity].
Qed.

(** Saving a row under a key no row has changes nothing. *)
Lemma save_absent tbl r :
  Forall (fun x => Tx.id x <> Tx.id r) tbl -> save tbl r = tbl.
Proof.
  induction 1 as [| x tbl Hx _ IH]; cbn; [reflexivity |].
  destruct (Z.eqb_spec (Tx.id x) (Tx.id r)); [contradiction |].
  unfold save in IH. now rewrite IH.
Qed.

Lemma table_ok_ids tbl :
  table_ok tbl -> Forall (fun x => Tx.id x <> next_id tbl) tbl.
Proof.
  intros Hok. apply Forall_lookup. intros i x Hi.
  pose proof (lookup_lt_Some _ _ _ Hi). rewrite (Hok i x Hi).
  unfold next_id. lia.
Qed.

(** Saving the row [create] has just appended rewrites that row only. *)
Lemma save_created tbl r r' :
  table_ok tbl -> Tx.id r = next_id tbl -> Tx.id r' = next_id tbl ->
  save (tbl ++ [r]) r' = tbl ++ [r'].
Proof.
  intros Hok Hr Hr'.
  assert (E : save tbl r' = tbl)
    by (apply save_absent; rewrite Hr'; now apply table_ok_ids).
  unfold save in *. rewrite map_app, E. cbn [List.map].
  now rewrite Hr, Hr', Z.eqb_refl.
Qed.

Lemma table_ok_snoc tbl r :
  table_ok tbl -> Tx.id r = next_id tbl -> table_ok (tbl ++ [r]).
Proof.
  intros Hok Hr i x Hi.
  destruct (lookup_app_Some tbl [r] i x) as [H _]. destruct (H Hi) as [Hl | [Hge Hl]].
  - now apply Hok.
  - destruct (i - length tbl)%nat eqn:E; [| now destruct n].
    cbn in Hl. injection Hl as <-. rewrite Hr. unfold next_id. lia.
Qed.

Lemma findAll_app tbl1 tbl2 c ty sts :
  findAll (tbl1 ++ tbl2) c ty sts = findAll tbl1 c ty sts ++ findAll tbl2 c ty sts.
Proof. apply List.filter_app. Qed.

Lemma findAll_single r c ty sts :
  findAll [r] c ty sts
  = if bool_decide (Tx.chatId r = c) && bool_decide (Tx.type r = ty)
       && bool_decide (Tx.status r ∈ sts)
    then [r] else [].
Proof. reflexivity. Qed.

Ltac decide_bools :=
  repeat match goal with
         | |- context [bool_decide ?P] =>
             let b := eval vm_compute in (bool_decide P) in
             change (bool_decide P) with b
         end.

(** Appending a row moves the balance by the contribution of the row. *)
Lemma rawBalance_snoc tbl r c :
  rawBalance (tbl ++ [r]) c = rawBalance tbl c + effect r c.
Proof.
  unfold rawBalance, completedDeposits, reservedWithdrawals, reservedExchanges.
  rewrite !findAll_app, !sum_amounts_app, !findAll_single. unfold effect.
  destruct (bool_decide (Tx.chatId r = c)); cbn [andb]; [| cbn; lia].
  destruct (Tx.type r), (Tx.status r); decide_bools; cbn; lia.
Qed.

Lemma volume_snoc tbl r c :
  volume (tbl ++ [r]) c = volume tbl c + Z.abs (effect r c).
Proof.
  unfold volume.
  rewrite !findAll_app, !sum_abs_app, !findAll_single. unfold effect.
  destruct (bool_decide (Tx.chatId r = c)); cbn [andb]; [| cbn; lia].
  destruct (Tx.type r), (Tx.status r); decide_bools; cbn; lia.
Qed.

End TableFacts.


(* ================================================================== *)
(** * Withdrawal settlement *)
(* ================================================================== *)

Section Withdrawal.

Ltac unfold_run :=
  cbv beta iota zeta delta
    [processWithdrawal processWithdrawal_try failure_of bind assign
     saveInstance call compute instance ret run_table run_tx run_log app].

Ltac tx_simpl :=
  cbn [fst snd run_table run_tx run_log app Tx.id Tx.type Tx.chatId Tx.amount
       Tx.status Tx.adminNotes Tx.txHash Tx.completedAt Tx.confirmations
       Tx.set_status Tx.set_txHash Tx.set_completedAt Tx.set_confirmations
       Tx.set_adminNotes].

Ltac script w :=
  destruct (parseTokenAmount w) as [amt | m1];
  [ destruct (getFeeData w) as [fees | m2];
    [ destruct (estimateGas w) as [gas | m3];
      [ destruct (gasLimit w gas) as [lim | m4];
        [ destruct (transfer w) as [hash | m5];
          [ destruct (wait w) as [[] | m6] | ] | ] | ] | ] | ];
  tx_simpl.

Ltac saved Hi Hid :=
  first [ exact Hi
        | eapply save_hit;
          [ saved Hi Hid | tx_simpl; first [reflexivity | exact Hid] ] ].

(** Whatever the script, the row of the instance ends up holding the
    instance, the instance keeps its key, owner, kind and amount, and the
    result tells what happened. *)
Lemma processWithdrawal_cases w now tbl t :
  let p := processWithdrawal w now tbl t in
  (forall (i : nat) r, tbl !! i = Some r -> Tx.id r = Tx.id t ->
     run_table (fst p) !! i = Some (run_tx (fst p)))
  /\ ((exists t1, Tx.id t1 = Tx.id t
         /\ run_table (fst p) = save (save tbl t1) (run_tx (fst p)))
      \/ (exists t1 t2, Tx.id t1 = Tx.id t /\ Tx.id t2 = Tx.id t
           /\ run_table (fst p)
              = save (save (save tbl t1) t2) (run_tx (fst p))))
  /\ (Tx.id (run_tx (fst p)) = Tx.id t
      /\ Tx.type (run_tx (fst p)) = Tx.type t
      /\ Tx.chatId (run_tx (fst p)) = Tx.chatId t
      /\ Tx.amount (run_tx (fst p)) = Tx.amount t)
  /\ match failure_of w with
     | Some msg =>
         snd p = WithdrawalError msg
         /\ Tx.status (run_tx (fst p)) = failed
         /\ Tx.adminNotes (run_tx (fst p)) = Some ("Failed: " ++ msg)%string
     | None =>
         exists h, transfer w = Ok h
           /\ snd p = WithdrawalOk h
           /\ Tx.status (run_tx (fst p)) = completed
           /\ Tx.txHash (run_tx (fst p)) = Some h
           /\ Tx.completedAt (run_tx (fst p)) = Some now
           /\ Tx.confirmations (run_tx (fst p)) = Some 1
     end.
Proof.
  intros p. subst p.
  remember (processWithdrawal w now tbl t) as p eqn:Hp.
  revert Hp. unfold_run. script w; intros ->; tx_simpl.
  all: split; [intros i r Hi Hid; saved Hi Hid |].
  all: split; [| split; [repeat split | eauto 10]].
  all: first [ left; eexists; split; [| reflexivity]; reflexivity
             | right; eexists; eexists; split; [| split; [| reflexivity]];
               reflexivity ].
Qed.

(** The first thing a run does is to write the row as processing; every
    request to the chain comes after it. *)
Lemma processWithdrawal_log_head w now tbl t :
  exists rest,
    run_log (fst (processWithdrawal w now tbl t))
    = Saved (Tx.set_status processing t) :: rest.
Proof.
  remember (processWithdrawal w now tbl t) as p eqn:Hp.
  revert Hp. unfold_run. script w; intros ->; tx_simpl; eexists; reflexivity.
Qed.

(** On the row [create] has just appended, the run rewrites that row
    only. *)
Lemma processWithdrawal_created w now tbl t :
  table_ok tbl -> Tx.id t = next_id tbl ->
  run_table (fst (processWithdrawal w now (tbl ++ [t]) t))
  = tbl ++ [run_tx (fst (processWithdrawal w now (tbl ++ [t]) t))].
Proof.
  intros Hok Hid.
  destruct (processWithdrawal_cases w now (tbl ++ [t]) t)
    as (_ & Htbl & (Hi & _) & _).
  cbv zeta in *.
  set (p := processWithdrawal w now (tbl ++ [t]) t) in *.
  destruct Htbl as [(t1 & H1 & ->) | (t1 & t2 & H1 & H2 & ->)].
  - rewrite (save_created tbl t t1) by (auto; congruence).
    apply save_created; auto; congruence.
  - rewrite (save_created tbl t t1) by (auto; congruence).
    rewrite (save_created tbl t1 t2) by (auto; congruence).
    apply save_created; auto; congruence.
Qed.

End Withdrawal.

Section WithdrawalStore.

Ltac unfold_run_on :=
  cbv beta iota zeta delta
    [processWithdrawal_on processWithdrawal_try_on failure_on
     processWithdrawal processWithdrawal_try failure_of saveInstance_on bind
     assign saveInstance call compute instance ret run_table run_tx run_log
     app].

Ltac tx_simpl_on :=
  cbn [fst snd run_table run_tx run_log app Tx.id Tx.type Tx.chatId Tx.amount
       Tx.status Tx.adminNotes Tx.txHash Tx.completedAt Tx.confirmations
       Tx.set_status Tx.set_txHash Tx.set_completedAt Tx.set_confirmations
       Tx.set_adminNotes].

Ltac script_on :=
  repeat (match goal with
          | |- context [match ?o with Ok _ => _ | Throw _ => _ end] =>
              destruct o as [? | ?]
          end; cbv beta iota zeta);
  tx_simpl_on.

Ltac saved_on Hi Hid :=
  first [ exact Hi
        | eapply save_hit;
          [ saved_on Hi Hid | tx_simpl_on; first [reflexivity | exact Hid] ] ].

(** With a store whose saves all succeed the run is the one of
    [processWithdrawal]. *)
Lemma processWithdrawal_on_reliable w now tbl t :
  processWithdrawal_on reliable w now tbl t
  = (fst (processWithdrawal w now tbl t),
     Ok (snd (processWithdrawal w now tbl t))).
Proof.
  remember (processWithdrawal w now tbl t) as p eqn:Hp. revert Hp.
  unfold_run_on. cbn [reliable save_processing save_txHash save_completed
                      save_failed].
  destruct (parseTokenAmount w) as [amt | m1];
  [ destruct (getFeeData w) as [fees | m2];
    [ destruct (estimateGas w) as [gas | m3];
      [ destruct (gasLimit w gas) as [lim | m4];
        [ destruct (transfer w) as [hash | m5];
          [ destruct (wait w) as [[] | m6] | ] | ] | ] | ] | ];
  intros ->; reflexivity.
Qed.

(** When the save of the catch block succeeds, the run returns: the
    first step that throws, a chain request or a save, decides the
    message, and the row of the instance holds the instance. *)
Lemma processWithdrawal_on_cases st w now tbl t :
  save_failed st = Ok tt ->
  let p := processWithdrawal_on st w now tbl t in
  (forall (i : nat) r, tbl !! i = Some r -> Tx.id r = Tx.id t ->
     run_table (fst p) !! i = Some (run_tx (fst p)))
  /\ match failure_on st w with
     | Some msg =>
         snd p = Ok (WithdrawalError msg)
         /\ Tx.status (run_tx (fst p)) = failed
         /\ Tx.adminNotes (run_tx (fst p)) = Some ("Failed: " ++ msg)%string
     | None =>
         exists h, transfer w = Ok h
           /\ snd p = Ok (WithdrawalOk h)
           /\ Tx.status (run_tx (fst p)) = completed
           /\ Tx.txHash (run_tx (fst p)) = Some h
           /\ Tx.completedAt (run_tx (fst p)) = Some now
           /\ Tx.confirmations (run_tx (fst p)) = Some 1
     end.
Proof.
  intros Hf p. subst p.
  remember (processWithdrawal_on st w now tbl t) as p eqn:Hp.
  revert Hp. unfold_run_on. rewrite Hf. script_on; intros ->; tx_simpl_on.
  all: split; [intros i r Hi Hid; saved_on Hi Hid |].
  all: eauto 10.
Qed.

(** When the save of the catch block throws as well, the function throws
    what that save threw, and no save of the run has written the row as
    Failed: the rows written are Processing. *)
Lemma processWithdrawal_on_throws st w now tbl t msg thrown :
  failure_on st w = Some msg -> save_failed st = Throw thrown ->
  let p := processWithdrawal_on st w now tbl t in
  snd p = Throw thrown
  /\ Forall (fun e => forall r, e = Saved r -> Tx.status r = processing)
       (run_log (fst p)).
Proof.
  intros Hm Hf p. subst p. revert Hm.
  remember (processWithdrawal_on st w now tbl t) as p eqn:Hp.
  revert Hp. unfold_run_on. rewrite Hf. script_on; intros -> Hm;
    try discriminate Hm; tx_simpl_on.
  all: split; [reflexivity |].
  all: repeat constructor; intros r E; try discriminate E.
  all: injection E as <-; reflexivity.
Qed.

(** Without a failing step the run ends Completed, whatever the save of
    the catch block would do. *)
Lemma processWithdrawal_on_completes st w now tbl t :
  failure_on st w = None ->
  let p := processWithdrawal_on st w now tbl t in
  (forall (i : nat) r, tbl !! i = Some r -> Tx.id r = Tx.id t ->
     run_table (fst p) !! i = Some (run_tx (fst p)))
  /\ exists h, transfer w = Ok h
       /\ snd p = Ok (WithdrawalOk h)
       /\ Tx.status (run_tx (fst p)) = completed
       /\ Tx.txHash (run_tx (fst p)) = Some h
       /\ Tx.completedAt (run_tx (fst p)) = Some now
       /\ Tx.confirmations (run_tx (fst p)) = Some 1.
Proof.
  intros Hm p. subst p. revert Hm.
  remember (processWithdrawal_on st w now tbl t) as p eqn:Hp.
  revert Hp. unfold_run_on. script_on; intros -> Hm; try discriminate Hm;
    tx_simpl_on.
  all: split; [intros i r Hi Hid; saved_on Hi Hid | eauto 10].
Qed.

End WithdrawalStore.

(** C9 (as amended).  [processWithdrawal] with the store written out:
    each of its four saves may throw, as each request to the chain may.
    When no step of the try block throws, the result is the success
    carrying the hash of the submitted transfer and the row is Completed
    with that hash.  When a step throws, a request to the chain or a save
    of the record (the first such step decides), and the save of the catch
    block succeeds, the result is the failure carrying the message of the
    error, the instance is Failed with "Failed: " and that message as its
    admin notes, and the row of the instance in the table holds this
    instance.  When the save of the catch block throws as well, the
    function throws what that save threw, it returns no result, and no row
    has been written as Failed. *)
Theorem processWithdrawal_never_silent (st : Store) (w : Wallet) (now : Z)
    (tbl : Table) (t : Tx.t) :
  let p := processWithdrawal_on st w now tbl t in
  match failure_on st w with
  | None =>
      (forall (i : nat) r, tbl !! i = Some r -> Tx.id r = Tx.id t ->
         run_table (fst p) !! i = Some (run_tx (fst p)))
      /\ exists h, transfer w = Ok h
           /\ snd p = Ok (WithdrawalOk h)
           /\ Tx.status (run_tx (fst p)) = completed
           /\ Tx.txHash (run_tx (fst p)) = Some h
           /\ Tx.completedAt (run_tx (fst p)) = Some now
           /\ Tx.confirmations (run_tx (fst p)) = Some 1
  | Some msg =>
      match save_failed st with
      | Ok _ =>
          (forall (i : nat) r, tbl !! i = Some r -> Tx.id r = Tx.id t ->
             run_table (fst p) !! i = Some (run_tx (fst p)))
          /\ snd p = Ok (WithdrawalError msg)
          /\ Tx.status (run_tx (fst p)) = failed
          /\ Tx.adminNotes (run_tx (fst p))
             = Some ("Failed: " ++ msg)%string
      | Throw thrown =>
          snd p = Throw thrown
          /\ Forall (fun e => forall r, e = Saved r ->
                                        Tx.status r = processing)
               (run_log (fst p))
      end
  end.
Proof.
  intros p. destruct (failure_on st w) as [msg |] eqn:Hm.
  - destruct (save_failed st) as [[] | thrown] eqn:Hf.
    + destruct (processWithdrawal_on_cases st w now tbl t Hf) as [H1 H2].
      rewrite Hm in H2. split; [exact H1 | exact H2].
    + exact (processWithdrawal_on_throws st w now tbl t msg thrown Hm Hf).
  - exact (processWithdrawal_on_completes st w now tbl t Hm).
Qed.

Lemma processWithdrawal_never_silent_witness :
  let p := processWithdrawal_on store_flaky wallet_ok 1700000000000
             [pending_withdrawal] pending_withdrawal in
  snd p = Ok (WithdrawalError "Connection terminated unexpectedly")
  /\ (exists r, run_table (fst p) !! 0%nat = Some r
        /\ Tx.status r = failed
        /\ Tx.adminNotes r
           = Some "Failed: Connection terminated unexpectedly"%string).
Proof.
  intros p.
  pose proof (processWithdrawal_never_silent store_flaky wallet_ok
                1700000000000 [pending_withdrawal] pending_withdrawal) as H.
  fold p in H. cbn in H. destruct H as (H1 & Hr & Hs & Hn).
  split; [exact Hr |].
  exists (run_tx (fst p)). split; [| split; [exact Hs | exact Hn]].
  apply (H1 0%nat pending_withdrawal); reflexivity.
Defined.

(** C9, counterexample: the store is lost after the first save of the
    run.  The transfer is submitted, the save of its hash throws, and so
    does the save of the catch block: the function throws and returns no
    result, and the row stays Processing, without the hash of the transfer
    that was sent and without a note. *)
Lemma processWithdrawal_store_lost :
  let p := processWithdrawal_on store_lost wallet_ok 1700000000000
             [pending_withdrawal] pending_withdrawal in
  snd p = Throw "Connection terminated unexpectedly"
  /\ run_table (fst p) = [Tx.set_status processing pending_withdrawal]
  /\ In (Called
           (CallTransfer (Some "0x3333333333333333333333333333333333333333")
              50000000000000000000 60000
              {| maxFeePerGas := Some 3; maxPriorityFeePerGas := Some 1 |}))
        (run_log (fst p))
  /\ ~ (exists result, snd p = Ok result)
  /\ ~ (exists r, In r (run_table (fst p)) /\ Tx.status r = failed).
Proof.
  vm_compute.
  split; [reflexivity |]. split; [reflexivity |]. split; [intuition |].
  split.
  - intros [result H]. discriminate H.
  - intros (r & [<- | []] & H). discriminate H.
Qed.

(** C3 (as amended).  A run of [processWithdrawal] begins by writing the
    row as Processing, before any request to the chain, whatever the
    status of the record: nothing checks that it is Pending.  The /withdraw
    handler hands it the Pending row it has just created, so that there the
    first transition is Pending to Processing. *)
Theorem processWithdrawal_first_transition (isAddress : string -> bool)
    (cfg : Config) (w : Wallet) (now : Z) (tbl : Table) (t : Tx.t)
    (chatId command : string) :
  (exists rest,
      run_log (fst (processWithdrawal w now tbl t))
      = Saved (Tx.set_status processing t) :: rest)
  /\ (snd (on_withdraw isAddress cfg w now tbl chatId command) <> []
      -> exists t0 rest,
           snd (on_withdraw isAddress cfg w now tbl chatId command)
           = Saved (Tx.set_status processing t0) :: rest
           /\ Tx.status t0 = pending /\ Tx.type t0 = withdrawal
           /\ Tx.chatId t0 = chatId /\ Tx.id t0 = next_id tbl).
Proof.
  split; [apply processWithdrawal_log_head |].
  unfold on_withdraw.
  destruct (parseWithdrawCommand isAddress command) as [[amount address] |];
    [| intros H; now elim H].
  destruct (Dec.parse amount) as [a |]; [| intros H; now elim H].
  destruct (Dec.parse (getUserBalance tbl chatId)) as [b |];
    [| intros H; now elim H].
  destruct (Dec.lessThan b (Dec.plus a (withdrawalFee cfg)));
    [intros H; now elim H |].
  destruct (numeric_of 6 a) as [amt |]; [| intros H; now elim H].
  destruct (numeric_of 6 (withdrawalFee cfg)) as [fee |];
    [| intros H; now elim H].
  unfold createWithdrawal, create.
  set (t0 := Tx.mk (next_id tbl) withdrawal chatId amt None None
                   (Some address) None pending None (Some fee) None None).
  intros _. exists t0.
  destruct (processWithdrawal_log_head w now (tbl ++ [t0]) t0) as [rest Hlog].
  exists rest.
  destruct (processWithdrawal w now (tbl ++ [t0]) t0) as [s res].
  cbn [fst] in Hlog. destruct res; cbn [snd]; auto.
Qed.

Lemma processWithdrawal_first_transition_witness :
  exists t0 rest,
    snd (on_withdraw (fun _ => true) sample_cfg wallet_ok 1700000000000
           (funded 50400000) "alice"
           "50,0x3333333333333333333333333333333333333333")
    = Saved (Tx.set_status processing t0) :: rest
    /\ Tx.status t0 = pending /\ Tx.id t0 = 2.
Proof.
  destruct (processWithdrawal_first_transition (fun _ => true) sample_cfg
              wallet_ok 1700000000000 (funded 50400000) settled_withdrawal
              "alice" "50,0x3333333333333333333333333333333333333333")
    as [_ H].
  destruct H as (t0 & rest & E & Hs & _ & _ & Hi); [vm_compute; discriminate |].
  exists t0, rest. auto.
Defined.

(** C3, counterexample: a withdrawal that is already Completed is processed
    again.  With the node down the result is the error of the node, not a
    rejection of the state, a request has reached the chain client, and the
    Completed row has become Failed; with every step succeeding the
    transfer is submitted a second time. *)
Lemma processWithdrawal_reprocesses_completed :
  let down := processWithdrawal wallet_down 1700000000001
                [settled_withdrawal] settled_withdrawal in
  let again := processWithdrawal wallet_ok 1700000000001
                 [settled_withdrawal] settled_withdrawal in
  Tx.status settled_withdrawal = completed
  /\ snd down = WithdrawalError "could not detect network"
  /\ run_log (fst down)
     = [ Saved (Tx.set_status processing settled_withdrawal);
         Called (CallParseTokenAmount 50000000);
         Saved (Tx.set_adminNotes "Failed: could not detect network"
                  (Tx.set_status failed settled_withdrawal)) ]
  /\ Tx.status <$> run_table (fst down) = [failed]
  /\ snd again
     = WithdrawalOk
         "0xbbbbbbbbbbbbbbbbbbbbbbbbbbbbbbbbbbbbbbbbbbbbbbbbbbbbbbbbbbbbbbbb"
  /\ In (Called
           (CallTransfer (Some "0x3333333333333333333333333333333333333333")
              50000000000000000000 60000
              {| maxFeePerGas := Some 3; maxPriorityFeePerGas := Some 1 |}))
        (run_log (fst again)).
Proof. vm_compute. intuition. Qed.

(* ================================================================== *)
(** * The /withdraw handler *)
(* ================================================================== *)

Section WithdrawHandler.

Lemma on_withdraw_passed isAddress cfg w now tbl c command amount address a amt fee :
  parseWithdrawCommand isAddress command = Some (amount, address) ->
  Dec.parse amount = Some a ->
  table_ok tbl -> volume tbl c < 10 ^ 20 ->
  Dec.lessThan (Dec.of_micro (Z.max 0 (rawBalance tbl c)))
               (Dec.plus a (withdrawalFee cfg)) = false ->
  numeric_of 6 a = Some amt ->
  numeric_of 6 (withdrawalFee cfg) = Some fee ->
  exists t,
    fst (fst (on_withdraw isAddress cfg w now tbl c command)) = tbl ++ [t]
    /\ Tx.id t = next_id tbl /\ Tx.type t = withdrawal /\ Tx.chatId t = c
    /\ Tx.amount t = amt
    /\ match failure_of w with
       | Some msg =>
           snd (fst (on_withdraw isAddress cfg w now tbl c command))
           = WithdrawalFailed msg
           /\ Tx.status t = failed
       | None =>
           exists h,
             snd (fst (on_withdraw isAddress cfg w now tbl c command))
             = WithdrawalSuccessful h (getUserBalance (tbl ++ [t]) c)
             /\ Tx.status t = completed
       end.
Proof.
  intros Hcmd Ha Hok Hv Hlt Hamt Hfee.
  unfold on_withdraw. rewrite Hcmd, Ha.
  rewrite (getUserBalance_parse tbl c Hv), Hlt, Hamt, Hfee.
  unfold createWithdrawal, create.
  set (t0 := Tx.mk (next_id tbl) withdrawal c amt None None (Some address)
                   None pending None (Some fee) None None).
  pose proof (processWithdrawal_created w now tbl t0 Hok eq_refl) as Htbl.
  destruct (processWithdrawal_cases w now (tbl ++ [t0]) t0)
    as (_ & _ & (Hi & Hty & Hc & Hamount) & Hres).
  cbv zeta in *.
  destruct (processWithdrawal w now (tbl ++ [t0]) t0) as [s res].
  cbn [fst snd] in *.
  exists (run_tx s). rewrite <- Htbl.
  destruct (failure_of w) as [msg |].
  - destruct Hres as (-> & Hs & _). cbn [fst snd]. auto 10.
  - destruct Hres as (h & _ & -> & Hs & _). cbn [fst snd].
    repeat split; auto. exists h. auto.
Qed.

Lemma funded_ok m : table_ok (funded m).
Proof.
  intros i r H. destruct i as [| i]; cbn in H; [| discriminate].
  injection H as <-. reflexivity.
Qed.

End WithdrawHandler.

(** C4.  With a fee of 0.4, a withdrawal of 50 against a balance of 50.3 is
    refused for insufficient balance (50.4 needed) and nothing is written.
    Against a balance of 50.4 it passes the check; when the run succeeds
    the balance computed afterwards is 0.400000, not 0: the row reserves
    the amount and the fee is never subtracted.  When the run fails the
    balance is 50.400000 again. *)
Theorem withdraw_fee_scenario (isAddress : string -> bool) (cfg : Config)
    (w : Wallet) (now : Z) (tbl : Table) (c : string) :
  let command := "50,0x3333333333333333333333333333333333333333"%string in
  let r := on_withdraw isAddress cfg w now tbl c command in
  isAddress "0x3333333333333333333333333333333333333333" = true ->
  withdrawalFee cfg = Dec.mk 4 1 ->
  table_ok tbl -> volume tbl c < 10 ^ 19 ->
  (getUserBalance tbl c = "50.300000"%string ->
   r = (tbl, InsufficientBalance (Dec.mk 504 1) "50.300000", []))
  /\ (getUserBalance tbl c = "50.400000"%string ->
      match failure_of w with
      | None =>
          exists h, snd (fst r) = WithdrawalSuccessful h "0.400000"
                    /\ getUserBalance (fst (fst r)) c = "0.400000"%string
      | Some msg =>
          snd (fst r) = WithdrawalFailed msg
          /\ getUserBalance (fst (fst r)) c = "50.400000"%string
      end).
Proof.
  intros command r Haddr Hfee Hok Hv.
  assert (Hv20 : volume tbl c < 10 ^ 20) by lia.
  assert (Hcmd : parseWithdrawCommand isAddress command
                 = Some ("50", "0x3333333333333333333333333333333333333333")%string).
  { unfold parseWithdrawCommand, command.
    change (split_on _ _) with
      [list_ascii_of_string "50";
       list_ascii_of_string "0x3333333333333333333333333333333333333333"].
    cbv iota beta.
    change (trim (list_ascii_of_string "50")) with (list_ascii_of_string "50").
    change (trim (list_ascii_of_string "0x3333333333333333333333333333333333333333"))
      with (list_ascii_of_string "0x3333333333333333333333333333333333333333").
    cbn [list_ascii_of_string string_of_list_ascii]. rewrite Haddr.
    reflexivity. }
  split; intros Hbal.
  - subst r. unfold on_withdraw. rewrite Hcmd, Hbal, Hfee. reflexivity.
  - pose proof (getUserBalance_value tbl c 50400000 Hv20 Hbal) as Hraw.
    destruct (on_withdraw_passed isAddress cfg w now tbl c command "50"
                "0x3333333333333333333333333333333333333333" (Dec.mk 50 0)
                50000000 400000 Hcmd eq_refl Hok Hv20)
      as (t & Htbl & Hid & Hty & Hc & Hamt & Hres).
    { rewrite Hraw, Hfee. reflexivity. }
    { reflexivity. }
    { rewrite Hfee. reflexivity. }
    fold r in Htbl, Hres. rewrite Htbl.
    assert (Heff : effect t c = match Tx.status t with failed => 0 | _ => -50000000 end).
    { unfold effect. rewrite Hty, Hc, Hamt.
      rewrite bool_decide_eq_true_2 by reflexivity. reflexivity. }
    assert (Hnew : getUserBalance (tbl ++ [t]) c
                   = Dec.toFixed 6 (Dec.of_micro (Z.max 0 (rawBalance tbl c + effect t c)))).
    { rewrite getUserBalance_micro, rawBalance_snoc; [reflexivity |].
      rewrite volume_snoc, Heff. destruct (Tx.status t); cbn; lia. }
    assert (Hraw' : rawBalance tbl c = 50400000) by lia.
    rewrite Hnew, Heff, Hraw'.
    destruct (failure_of w) as [msg |].
    + destruct Hres as [-> ->]. split; reflexivity.
    + destruct Hres as (h & Hr & Hs). rewrite Hs. exists h.
      split; [| reflexivity]. rewrite Hr, Hnew, Heff, Hraw', Hs. reflexivity.
Qed.


Lemma withdraw_fee_scenario_witness :
  exists h,
    snd (fst (on_withdraw (fun _ => true) sample_cfg wallet_ok 1700000000000
                (funded 50400000) "alice"
                "50,0x3333333333333333333333333333333333333333"))
    = WithdrawalSuccessful h "0.400000".
Proof.
  destruct (withdraw_fee_scenario (fun _ => true) sample_cfg wallet_ok
              1700000000000 (funded 50400000) "alice" eq_refl eq_refl
              (funded_ok 50400000) eq_refl) as [_ H].
  destruct (H eq_refl) as (h & Hr & _). exists h. exact Hr.
Defined.

(* ================================================================== *)
(** * The administrative decisions on exchanges *)
(* ================================================================== *)

Section Decisions.

Variable int_of_text : string -> option Z.

Lemma complete_acts now tbl transactionId adminNotes t :
  decidable_exchange int_of_text tbl transactionId t ->
  completeExchangeTransaction int_of_text now tbl transactionId adminNotes
  = (let t' := Tx.set_completedAt now (Tx.set_status completed t) in
     let t' := if String.eqb adminNotes "" then t'
               else Tx.set_adminNotes adminNotes t' in
     (save tbl t', DecisionOk t')).
Proof.
  intros (Hf & Hty & Hst). unfold completeExchangeTransaction.
  rewrite Hf, Hty, Hst. reflexivity.
Qed.

Lemma complete_refuses now tbl transactionId adminNotes :
  (forall t, ~ decidable_exchange int_of_text tbl transactionId t) ->
  exists e,
    completeExchangeTransaction int_of_text now tbl transactionId adminNotes
    = (tbl, DecisionError e).
Proof.
  intros Hno. unfold completeExchangeTransaction.
  destruct (findByPk int_of_text tbl transactionId) as [t | | m] eqn:Hf;
    [| eexists; reflexivity | eexists; reflexivity].
  destruct (decide (Tx.type t = exchange)) as [Hty | Hty].
  - destruct (decide (Tx.status t = pending)) as [Hst | Hst].
    + elim (Hno t). repeat split; assumption.
    + rewrite (bool_decide_eq_true_2 _ Hty), (bool_decide_eq_false_2 _ Hst).
      eexists; reflexivity.
  - rewrite (bool_decide_eq_false_2 _ Hty). eexists; reflexivity.
Qed.

Lemma reject_acts adminChatId userFound tbl transactionId words t :
  decidable_exchange int_of_text tbl transactionId t ->
  on_reject_exchange int_of_text adminChatId userFound tbl adminChatId
    transactionId words
  = (let reason :=
       default "Exchange request was rejected by the administrator."%string
               words in
     let t' := Tx.set_adminNotes reason (Tx.set_status failed t) in
     (save tbl t',
      if userFound then ExchangeRejected t' reason else RejectError)).
Proof.
  intros (Hf & Hty & Hst). unfold on_reject_exchange.
  rewrite String.eqb_refl, Hf, Hty, Hst. reflexivity.
Qed.

Lemma reject_refuses adminChatId userFound tbl chatId transactionId words :
  chatId <> adminChatId
  \/ (forall t, ~ decidable_exchange int_of_text tbl transactionId t) ->
  fst (on_reject_exchange int_of_text adminChatId userFound tbl chatId
         transactionId words)
  = tbl
  /\ match snd (on_reject_exchange int_of_text adminChatId userFound tbl
                  chatId transactionId words) with
     | ExchangeRejected _ _ => False
     | _ => True
     end.
Proof.
  intros Hno. unfold on_reject_exchange.
  destruct (String.eqb_spec chatId adminChatId) as [-> | Hne]; cbn [negb];
    [| split; exact I || reflexivity].
  destruct Hno as [Hne | Hno]; [congruence |].
  destruct (findByPk int_of_text tbl transactionId) as [t | | m] eqn:Hf;
    [| split; exact I || reflexivity | split; exact I || reflexivity].
  destruct (decide (Tx.type t = exchange)) as [Hty | Hty].
  - destruct (decide (Tx.status t = pending)) as [Hst | Hst].
    + elim (Hno t). repeat split; assumption.
    + rewrite (bool_decide_eq_true_2 _ Hty), (bool_decide_eq_false_2 _ Hst).
      split; exact I || reflexivity.
  - rewrite (bool_decide_eq_false_2 _ Hty). split; exact I || reflexivity.
Qed.

(** C10.  completeExchangeTransaction and the /reject_exchange handler
    write to the table only when the key finds a row that is an exchange
    and Pending.  Then completion saves the row once with status Completed
    and completedAt set together (and the admin notes replaced when notes
    are given), and rejection saves it once with status Failed and the
    rejection reason as its admin notes; rows under other keys are left as
    they are.  In every other case the table is returned unchanged with an
    error. *)
Theorem exchange_decisions_guarded (now : Z) (tbl : Table)
    (adminChatId chatId transactionId adminNotes : string)
    (words : option string) (userFound : bool) :
  let done :=
    completeExchangeTransaction int_of_text now tbl transactionId adminNotes in
  let rejected :=
    on_reject_exchange int_of_text adminChatId userFound tbl chatId
      transactionId words in
  (forall t, decidable_exchange int_of_text tbl transactionId t ->
     (exists t', done = (save tbl t', DecisionOk t')
        /\ Tx.status t' = completed /\ Tx.completedAt t' = Some now
        /\ Tx.adminNotes t'
           = (if String.eqb adminNotes "" then Tx.adminNotes t
              else Some adminNotes)
        /\ Tx.id t' = Tx.id t /\ Tx.type t' = exchange
        /\ Tx.chatId t' = Tx.chatId t /\ Tx.amount t' = Tx.amount t
        /\ Tx.fiatAmount t' = Tx.fiatAmount t)
     /\ (chatId = adminChatId ->
         exists t', rejected
                    = (save tbl t',
                       if userFound then
                         ExchangeRejected t'
                           (default
                              "Exchange request was rejected by the administrator."%string
                              words)
                       else RejectError)
           /\ Tx.status t' = failed
           /\ Tx.adminNotes t'
              = Some (default
                        "Exchange request was rejected by the administrator."%string
                        words)
           /\ Tx.id t' = Tx.id t /\ Tx.type t' = exchange
           /\ Tx.chatId t' = Tx.chatId t /\ Tx.amount t' = Tx.amount t
           /\ Tx.completedAt t' = Tx.completedAt t)
     /\ (forall (i : nat) r t', tbl !! i = Some r -> Tx.id r <> Tx.id t' ->
           save tbl t' !! i = Some r))
  /\ ((forall t, ~ decidable_exchange int_of_text tbl transactionId t) ->
      (exists e, done = (tbl, DecisionError e))
      /\ fst rejected = tbl
      /\ match snd rejected with ExchangeRejected _ _ => False | _ => True end)
  /\ (chatId <> adminChatId -> rejected = (tbl, NotAuthorized)).
Proof.
  intros done rejected. split; [| split].
  - intros t Ht. split; [| split].
    + subst done. rewrite (complete_acts now tbl transactionId adminNotes t Ht).
      cbv zeta. destruct Ht as (_ & Hty & _).
      eexists. split; [reflexivity |].
      destruct (String.eqb adminNotes ""); cbn; auto 10.
    + intros ->. subst rejected.
      rewrite (reject_acts adminChatId userFound tbl transactionId words t Ht).
      cbv zeta. destruct Ht as (_ & Hty & _).
      eexists. split; [reflexivity |]. cbn. auto 10.
    + intros i r t' Hi Hne. now apply save_miss.
  - intros Hno. split; [now apply complete_refuses |].
    apply reject_refuses. now right.
  - intros Hne. subst rejected. unfold on_reject_exchange.
    destruct (String.eqb_spec chatId adminChatId); [contradiction | reflexivity].
Qed.

End Decisions.

Lemma exchange_decisions_guarded_witness :
  (exists t',
      completeExchangeTransaction decimal_key 1700000000000 ledger_example
        "4" "paid in cash"
      = (save ledger_example t', DecisionOk t')
      /\ Tx.status t' = completed /\ Tx.completedAt t' = Some 1700000000000)
  /\ (exists e,
        completeExchangeTransaction decimal_key 1700000000000 ledger_example
          "3" "paid in cash"
        = (ledger_example, DecisionError e)).
Proof.
  split.
  - destruct (exchange_decisions_guarded decimal_key 1700000000000
                ledger_example "admin" "admin" "4" "paid in cash" None true)
      as (H & _ & _).
    destruct (H (Tx.mk 4 exchange "alice" 5000000 (Some 500) (Some "USD"%string)
                       None None pending None None None None))
      as ((t' & E & Hs & Hc & _) & _ & _).
    { repeat split. }
    exists t'. auto.
  - destruct (exchange_decisions_guarded decimal_key 1700000000000
                ledger_example "admin" "admin" "3" "paid in cash" None true)
      as (_ & H & _).
    apply H. intros t (Hf & Hty & _).
    vm_compute in Hf. injection Hf as <-. discriminate Hty.
Defined.

(* ================================================================== *)
(** * Deposit intents and the /confirm handler *)
(* ================================================================== *)

Section Confirm.
Import Dec DecFacts.

(** [equals] is equality of the two numbers. *)
Lemma equals_exact a b :
  equals a b = true <-> coef a * pow10 (scale b) = coef b * pow10 (scale a).
Proof.
  unfold equals, cmp, align.
  set (s := Nat.max (scale a) (scale b)).
  pose proof (pow10_pos (scale a)) as Ha. pose proof (pow10_pos (scale b)) as Hb.
  pose proof (pow10_pos (s - scale a)) as Ha'.
  pose proof (pow10_pos (s - scale b)) as Hb'.
  assert (Ea : pow10 s = pow10 (s - scale a) * pow10 (scale a))
    by (apply pow10_split; subst s; lia).
  assert (Eb : pow10 s = pow10 (s - scale b) * pow10 (scale b))
    by (apply pow10_split; subst s; lia).
  set (x := coef a * pow10 (s - scale a)). set (y := coef b * pow10 (s - scale b)).
  assert (Hx : x * pow10 (scale a) * pow10 (scale b) = coef a * pow10 (scale b) * pow10 s)
    by (subst x; rewrite Ea; ring).
  assert (Hy : y * pow10 (scale a) * pow10 (scale b) = coef b * pow10 (scale a) * pow10 s)
    by (subst y; rewrite Eb; ring).
  pose proof (pow10_pos s) as Hs.
  destruct (Z.compare_spec x y) as [E | E | E]; split; intros H; try discriminate;
    try reflexivity.
  - apply (Z.mul_reg_r _ _ (pow10 s)); [lia |]. rewrite <- Hx, <- Hy, E. ring.
  - exfalso. rewrite H, <- Hy in Hx.
    apply Z.mul_reg_r in Hx; [| lia]. apply Z.mul_reg_r in Hx; lia.
  - exfalso. rewrite H, <- Hy in Hx.
    apply Z.mul_reg_r in Hx; [| lia]. apply Z.mul_reg_r in Hx; lia.
Qed.

Lemma verify_shows cfg chain h expected e value dec confs :
  chain_shows cfg chain h value dec confs ->
  parse expected = Some e ->
  verifyDepositTransaction cfg chain h expected
  = if confs <? minConfirmations cfg then
      NotVerified (InsufficientConfirmations confs (minConfirmations cfg))
    else if equals (mk value dec) e then Verified (mk value dec) confs
    else NotVerified (AmountMismatch expected (mk value dec)).
Proof.
  intros (receipt & cur & ev & rest & Hr & Hb & -> & Hev & Hto & <- & Hd) He.
  unfold verifyDepositTransaction. rewrite Hr, Hb.
  destruct (cur - blockNumber receipt <? minConfirmations cfg); [reflexivity |].
  rewrite Hev, Hto, String.eqb_refl. cbn [negb]. rewrite Hd, He.
  destruct (equals _ e); reflexivity.
Qed.

Lemma numeric_toFixed x :
  Z.abs (round_at 6 x) < 10 ^ 24 ->
  numeric 6 (toFixed 6 x) = Some (round_at 6 x).
Proof.
  intros H. unfold numeric. rewrite parse_toFixed. cbn [mbind option_bind].
  unfold numeric_of.
  rewrite (round_at_micro (mk (round_at 6 x) 6) (round_at 6 x))
    by apply (is_micro_of_micro (round_at 6 x)).
  destruct (Z.ltb_spec (Z.abs (round_at 6 x)) (10 ^ 24)); [reflexivity | lia].
Qed.

Lemma on_confirm_checked cfg chain now st c h req :
  isValidTxHash h = true ->
  depositRequests st !! c = Some req ->
  now - timestamp req <= 24 * 60 * 60 * 1000 ->
  on_confirm cfg chain now st c h
  = match verifyDepositTransaction cfg chain h (amount req) with
    | NotVerified reason => (st, VerificationFailed reason)
    | Verified _ confirmations =>
        match numeric 6 (amount req) with
        | None => (st, ConfirmError)
        | Some a =>
            let '(tbl, transaction) := createDeposit (table st) c a in
            let transaction :=
              Tx.set_confirmations confirmations
                (Tx.set_completedAt now
                   (Tx.set_status completed (Tx.set_txHash h transaction))) in
            let tbl := save tbl transaction in
            (Build_State (delete c (depositRequests st)) tbl,
             DepositVerified transaction (getUserBalance tbl c))
        end
    end.
Proof.
  intros Hh Hreq Ht. unfold on_confirm. rewrite Hh, Hreq. cbn [negb].
  destruct (Z.ltb_spec (24 * 60 * 60 * 1000) (now - timestamp req)); [lia |].
  reflexivity.
Qed.

Lemma on_confirm_expired cfg chain now st c h req :
  isValidTxHash h = true ->
  depositRequests st !! c = Some req ->
  timestamp req + 24 * 60 * 60 * 1000 < now ->
  on_confirm cfg chain now st c h
  = (Build_State (delete c (depositRequests st)) (table st), RequestExpired).
Proof.
  intros Hh Hreq Ht. unfold on_confirm. rewrite Hh, Hreq. cbn [negb].
  destruct (Z.ltb_spec (24 * 60 * 60 * 1000) (now - timestamp req)); [| lia].
  reflexivity.
Qed.

Lemma on_deposit_opens now k st c text st' a :
  on_deposit now k st c text = (st', DepositInstructions a) ->
  depositRequests st' !! c = Some (Build_DepositRequest a now)
  /\ table st' = table st
  /\ exists x, a = toFixed 6 x.
Proof.
  unfold on_deposit.
  destruct (Double.toFixed 4 _) as [ra |]; [| discriminate].
  destruct (parse (depositBase text)) as [base |]; [| discriminate].
  destruct (parse ra) as [rnd |]; [| discriminate].
  intros H. injection H as <- <-. cbn [depositRequests table].
  rewrite lookup_insert_eq. eauto.
Qed.

(** A successful /confirm leaves no request for the account. *)
Lemma on_confirm_clears cfg chain now st c h st' t bal :
  on_confirm cfg chain now st c h = (st', DepositVerified t bal) ->
  depositRequests st' !! c = None.
Proof.
  unfold on_confirm.
  destruct (isValidTxHash h); cbn [negb]; [| discriminate].
  destruct (depositRequests st !! c) as [req |]; [| discriminate].
  destruct (_ <? _); [discriminate |].
  destruct (verifyDepositTransaction _ _ _ _); [| discriminate].
  destruct (numeric 6 _); [| discriminate].
  destruct (createDeposit _ _ _). intros H. injection H as <- _ _.
  apply lookup_delete_eq.
Qed.

(** Without a request, /confirm changes nothing. *)
Lemma on_confirm_no_request cfg chain now st c h :
  depositRequests st !! c = None ->
  on_confirm cfg chain now st c h = (st, InvalidHashFormat)
  \/ on_confirm cfg chain now st c h = (st, NoActiveRequest).
Proof.
  intros H. unfold on_confirm. rewrite H.
  destruct (isValidTxHash h); cbn [negb]; auto.
Qed.

End Confirm.

Section Reverification.

Variable isAddress : string -> bool.
Variable int_of_text : string -> option Z.
Variable cfg : Config.
Variable adminChatId : string.

Lemma on_deposit_requests now k st c text c' :
  c' <> c ->
  depositRequests (fst (on_deposit now k st c' text)) !! c
  = depositRequests st !! c.
Proof.
  intros Hne. unfold on_deposit.
  destruct (Double.toFixed 4 _) as [ra |]; [| reflexivity].
  destruct (Dec.parse (depositBase text)) as [base |]; [| reflexivity].
  destruct (Dec.parse ra) as [rnd |]; [| reflexivity].
  cbn [fst depositRequests]. now apply lookup_insert_ne.
Qed.

Lemma on_confirm_requests chain now st c c' h :
  depositRequests st !! c = None ->
  depositRequests (fst (on_confirm cfg chain now st c' h)) !! c = None.
Proof.
  intros Hc. unfold on_confirm.
  destruct (isValidTxHash h); cbn [negb]; [| exact Hc].
  destruct (depositRequests st !! c') as [req |]; [| exact Hc].
  destruct (_ <? _).
  { cbn [fst depositRequests]. rewrite lookup_delete_None. now right. }
  destruct (verifyDepositTransaction _ _ _ _); [| exact Hc].
  destruct (numeric 6 _); [| exact Hc].
  destruct (createDeposit _ _ _). cbn [fst depositRequests].
  rewrite lookup_delete_None. now right.
Qed.

(** No request appears for [c] unless [c] sends /deposit. *)
Lemma step_keeps_none st a c :
  depositRequests st !! c = None -> ~ opens_for c a ->
  depositRequests (step isAddress int_of_text cfg adminChatId st a) !! c = None.
Proof.
  intros Hc Ha. destruct a; cbn [step depositRequests]; try exact Hc.
  - rewrite on_deposit_requests; [exact Hc |]. exact Ha.
  - now apply on_confirm_requests.
Qed.

Lemma run_keeps_none actions : forall st c,
  depositRequests st !! c = None ->
  Forall (fun a => ~ opens_for c a) actions ->
  depositRequests (run isAddress int_of_text cfg adminChatId st actions) !! c
  = None.
Proof.
  induction actions as [| a actions IH]; intros st c Hc Hall; [exact Hc |].
  inversion Hall; subst. cbn [run fold_left]. apply IH; [| assumption].
  now apply step_keeps_none.
Qed.

End Reverification.

(* ================================================================== *)
(** * An invariant of the table *)
(* ================================================================== *)

Section Reachable.

Variable isAddress : string -> bool.
Variable int_of_text : string -> option Z.
Variable cfg : Config.
Variable adminChatId : string.

Lemma table_ok_nil : table_ok [].
Proof. intros i r H. destruct i; discriminate H. Qed.

Lemma save_table_ok tbl r : table_ok tbl -> table_ok (save tbl r).
Proof.
  intros Hok i y Hy. unfold save in Hy. rewrite list_lookup_fmap in Hy.
  destruct (tbl !! i) as [x |] eqn:Hx; [| discriminate].
  cbn in Hy. injection Hy as <-.
  destruct (Z.eqb_spec (Tx.id x) (Tx.id r)) as [E | _]; [rewrite <- E |];
    now apply Hok.
Qed.

Lemma on_deposit_table now k st c text :
  table (fst (on_deposit now k st c text)) = table st.
Proof.
  unfold on_deposit.
  destruct (Double.toFixed 4 _) as [ra |]; [| reflexivity].
  destruct (Dec.parse (depositBase text)) as [base |]; [| reflexivity].
  destruct (Dec.parse ra) as [rnd |]; reflexivity.
Qed.

Lemma on_confirm_table_ok chain now st c h :
  table_ok (table st) ->
  table_ok (table (fst (on_confirm cfg chain now st c h))).
Proof.
  intros Hok. unfold on_confirm.
  destruct (isValidTxHash h); cbn [negb]; [| exact Hok].
  destruct (depositRequests st !! c) as [req |]; [| exact Hok].
  destruct (_ <? _); [exact Hok |].
  destruct (verifyDepositTransaction _ _ _ _); [| exact Hok].
  destruct (numeric 6 _); [| exact Hok].
  unfold createDeposit, create. cbn [fst table].
  apply save_table_ok, table_ok_snoc; [exact Hok | reflexivity].
Qed.

Lemma on_withdraw_table_ok w now tbl c command :
  table_ok tbl ->
  table_ok (fst (fst (on_withdraw isAddress cfg w now tbl c command))).
Proof.
  intros Hok. unfold on_withdraw.
  destruct (parseWithdrawCommand isAddress command) as [[amount address] |];
    [| exact Hok].
  destruct (Dec.parse amount) as [a |]; [| exact Hok].
  destruct (Dec.parse (getUserBalance tbl c)) as [b |]; [| exact Hok].
  destruct (Dec.lessThan b _); [exact Hok |].
  destruct (numeric_of 6 a) as [amt |]; [| exact Hok].
  destruct (numeric_of 6 (withdrawalFee cfg)) as [fee |]; [| exact Hok].
  unfold createWithdrawal, create.
  set (t0 := Tx.mk _ _ _ _ _ _ _ _ _ _ _ _ _).
  pose proof (processWithdrawal_created w now tbl t0 Hok eq_refl) as Htbl.
  destruct (processWithdrawal_cases w now (tbl ++ [t0]) t0)
    as (_ & _ & (Hi & _) & _).
  cbv zeta in Hi.
  destruct (processWithdrawal w now (tbl ++ [t0]) t0) as [s res].
  cbn [fst] in *.
  assert (table_ok (run_table s))
    by (rewrite Htbl; apply table_ok_snoc; [exact Hok | exact Hi]).
  destruct res; exact H.
Qed.

Lemma processExchangeRequest_table_ok rates userFound tbl c amount fiatType :
  table_ok tbl ->
  table_ok (fst (processExchangeRequest rates userFound tbl c amount fiatType)).
Proof.
  intros Hok. unfold processExchangeRequest.
  destruct userFound; cbn [negb]; [| exact Hok].
  destruct (Dec.parse amount) as [a |]; [| exact Hok].
  destruct (Dec.parse (getUserBalance tbl c)) as [b |]; [| exact Hok].
  destruct (Dec.greaterThan a b); [exact Hok |].
  destruct (numeric_of 6 a) as [amt |]; [| exact Hok].
  destruct (numeric 2 _) as [fiat |]; [| exact Hok].
  unfold createExchange, create. cbn [fst].
  apply table_ok_snoc; [exact Hok | reflexivity].
Qed.

Lemma complete_table_ok now tbl transactionId adminNotes :
  table_ok tbl ->
  table_ok (fst (completeExchangeTransaction int_of_text now tbl transactionId
                   adminNotes)).
Proof.
  intros Hok. unfold completeExchangeTransaction.
  destruct (findByPk int_of_text tbl transactionId); try exact Hok.
  destruct (negb _); [exact Hok |]. destruct (negb _); [exact Hok |].
  cbn [fst]. now apply save_table_ok.
Qed.

Lemma reject_table_ok userFound tbl chatId transactionId words :
  table_ok tbl ->
  table_ok (fst (on_reject_exchange int_of_text adminChatId userFound tbl
                   chatId transactionId words)).
Proof.
  intros Hok. unfold on_reject_exchange.
  destruct (negb _); [exact Hok |].
  destruct (findByPk int_of_text tbl transactionId); try exact Hok.
  destruct (negb _); [exact Hok |]. destruct (negb _); [exact Hok |].
  cbn [fst]. now apply save_table_ok.
Qed.

(** Every command leaves each row at the position of its key. *)
Lemma step_table_ok st a :
  table_ok (table st) ->
  table_ok (table (step isAddress int_of_text cfg adminChatId st a)).
Proof.
  intros Hok. destruct a; cbn [step table].
  - now rewrite on_deposit_table.
  - now apply on_confirm_table_ok.
  - now apply on_withdraw_table_ok.
  - now apply processExchangeRequest_table_ok.
  - now apply complete_table_ok.
  - now apply reject_table_ok.
Qed.

Lemma run_table_ok actions : forall st,
  table_ok (table st) ->
  table_ok (table (run isAddress int_of_text cfg adminChatId st actions)).
Proof.
  induction actions as [| a actions IH]; intros st Hok; [exact Hok |].
  cbn [run fold_left]. apply IH. now apply step_table_ok.
Qed.

End Reachable.

(* ================================================================== *)
(** * The properties of deposits *)
(* ================================================================== *)

(** C5.  On a well-formed reference, with an open intent whose amount is
    the six-digit rendering of [x], and a chain that shows the transfer
    with at least the minimum of confirmations: when the transferred
    amount and the expected amount are not the same number the reply is
    the amount mismatch and the state (table and intent) is unchanged; when
    they are the same number the table gains exactly one Completed deposit
    of the expected amount carrying the reference, the intent is cleared,
    and the balance of the account grows by the expected amount (read as
    numbers, for a balance that was not clamped and stays within the
    precision). *)
Theorem confirm_amount_check (cfg : Config) (chain : Chain) (now : Z)
    (st : State) (c h : string) (req : DepositRequest) (x : Dec.Decimal)
    (value : Z) (dec : nat) (confirmations : Z) :
  let expected := Dec.round_at 6 x in
  let got := Dec.mk value dec in
  let r := on_confirm cfg chain now st c h in
  isValidTxHash h = true ->
  depositRequests st !! c = Some req ->
  amount req = Dec.toFixed 6 x ->
  now - timestamp req <= 24 * 60 * 60 * 1000 ->
  chain_shows cfg chain h value dec confirmations ->
  minConfirmations cfg <= confirmations ->
  (value * 10 ^ 6 <> expected * 10 ^ Z.of_nat dec ->
   r = (st, VerificationFailed (AmountMismatch (amount req) got)))
  /\ (value * 10 ^ 6 = expected * 10 ^ Z.of_nat dec ->
      Z.abs expected < 10 ^ 24 -> table_ok (table st) ->
      let t := Tx.mk (next_id (table st)) deposit c expected None None None
                     (Some h) completed (Some now) None (Some confirmations)
                     None in
      r = (Build_State (delete c (depositRequests st)) (table st ++ [t]),
           DepositVerified t (getUserBalance (table st ++ [t]) c))
      /\ rawBalance (table st ++ [t]) c = rawBalance (table st) c + expected
      /\ (0 <= value -> 0 <= rawBalance (table st) c ->
          volume (table st) c + Z.abs expected < 10 ^ 20 ->
          Dec.parse (getUserBalance (table st) c)
          = Some (Dec.of_micro (rawBalance (table st) c))
          /\ Dec.parse (getUserBalance (table st ++ [t]) c)
             = Some (Dec.of_micro (rawBalance (table st) c + expected)))).
Proof.
  intros expected got r Hh Hreq Hamt Hnow Hshow Hconf.
  assert (Hparse : Dec.parse (amount req) = Some (Dec.of_micro expected))
    by (rewrite Hamt; apply DecFacts.parse_toFixed).
  assert (Hr : r = match verifyDepositTransaction cfg chain h (amount req) with
                   | NotVerified reason => (st, VerificationFailed reason)
                   | Verified _ confirmations =>
                       match numeric 6 (amount req) with
                       | None => (st, ConfirmError)
                       | Some a =>
                           let '(tbl, transaction) := createDeposit (table st) c a in
                           let transaction :=
                             Tx.set_confirmations confirmations
                               (Tx.set_completedAt now
                                  (Tx.set_status completed (Tx.set_txHash h transaction))) in
                           let tbl := save tbl transaction in
                           (Build_State (delete c (depositRequests st)) tbl,
                            DepositVerified transaction (getUserBalance tbl c))
                       end
                   end)
    by (now apply on_confirm_checked).
  rewrite (verify_shows cfg chain h (amount req) _ value dec confirmations
             Hshow Hparse) in Hr.
  destruct (Z.ltb_spec confirmations (minConfirmations cfg)); [lia |].
  pose proof (equals_exact got (Dec.of_micro expected)) as Heq.
  cbn [Dec.coef Dec.scale got Dec.of_micro] in Heq.
  change (Dec.pow10 6) with (10 ^ 6) in Heq.
  change (Dec.pow10 dec) with (10 ^ Z.of_nat dec) in Heq.
  fold got in Hr. split.
  - intros Hne. destruct (Dec.equals got (Dec.of_micro expected)) eqn:E.
    + elim Hne. now apply Heq.
    + exact Hr.
  - intros Heqv Hfit Hok t.
    rewrite (proj2 Heq Heqv) in Hr.
    rewrite Hamt, (numeric_toFixed x Hfit) in Hr. fold expected in Hr.
    unfold createDeposit, create in Hr. cbv zeta in Hr.
    unfold Tx.set_confirmations, Tx.set_completedAt, Tx.set_status,
      Tx.set_txHash in Hr.
    cbn [Tx.id Tx.type Tx.chatId Tx.amount Tx.fiatAmount Tx.fiatType
         Tx.walletAddress Tx.txHash Tx.status Tx.completedAt Tx.fee
         Tx.confirmations Tx.adminNotes] in Hr.
    fold t in Hr.
    rewrite save_created in Hr by (exact Hok || reflexivity).
    assert (Heff : effect t c = expected).
    { unfold effect, t. cbn [Tx.chatId Tx.type Tx.status Tx.amount].
      now rewrite bool_decide_eq_true_2. }
    split; [exact Hr |]. split; [rewrite rawBalance_snoc, Heff; reflexivity |].
    intros Hval Hraw Hvol.
    assert (0 <= expected).
    { pose proof (Z.pow_pos_nonneg 10 (Z.of_nat dec)). nia. }
    rewrite !getUserBalance_parse, rawBalance_snoc, Heff.
    + split; do 2 f_equal; lia.
    + rewrite volume_snoc, Heff. lia.
    + lia.
Qed.

Lemma confirm_amount_check_witness :
  on_confirm sample_cfg (sample_chain 10123500000000000000 6) 1700000001000
    intent_state "alice" sample_hash
  = (intent_state,
     VerificationFailed
       (AmountMismatch "10.123400" (Dec.mk 10123500000000000000 18)))
  /\ (exists t,
        on_confirm sample_cfg (sample_chain 10123400000000000000 6)
          1700000001000 intent_state "alice" sample_hash
        = (Build_State (delete "alice" (depositRequests intent_state)) [t],
           DepositVerified t "10.123400")
        /\ Tx.status t = completed /\ Tx.amount t = 10123400).
Proof.
  assert (Hreq : depositRequests intent_state !! "alice"
                 = Some (Build_DepositRequest "10.123400" 1700000000000))
    by (vm_compute; reflexivity).
  assert (Hshow : forall v,
             chain_shows sample_cfg (sample_chain v 6) sample_hash v 18 6).
  { intros v. unfold chain_shows. do 4 eexists.
    split; [reflexivity |]. split; [reflexivity |].
    split; [reflexivity |]. split; [reflexivity |].
    split; [reflexivity |]. split; reflexivity. }
  split.
  - refine (proj1 (confirm_amount_check sample_cfg
                     (sample_chain 10123500000000000000 6) 1700000001000
                     intent_state "alice" sample_hash _ (Dec.mk 101234 4)
                     10123500000000000000 18 6 eq_refl Hreq eq_refl _
                     (Hshow _) _) _); vm_compute; congruence.
  - destruct (proj2 (confirm_amount_check sample_cfg
                       (sample_chain 10123400000000000000 6) 1700000001000
                       intent_state "alice" sample_hash _ (Dec.mk 101234 4)
                       10123400000000000000 18 6 eq_refl Hreq eq_refl
                       ltac:(vm_compute; congruence) (Hshow _)
                       ltac:(vm_compute; congruence)))
      as (Hr & _ & _).
    + reflexivity.
    + reflexivity.
    + intros i r H. vm_compute in H. discriminate H.
    + vm_compute in Hr. vm_compute.
      eexists. split; [exact Hr |]. split; reflexivity.
Defined.

(** C7.  While the intent an account opened at time [T] is the stored one,
    a /confirm with a well-formed reference at any time after [T] plus 24
    hours replies that the request has expired, whatever the chain shows,
    removes the intent on that read, and writes nothing to the table.
    ([on_deposit_opens]: /deposit at time [T] stores the intent with
    timestamp [T].) *)
Theorem expired_intent_unusable (cfg : Config) (chain : Chain) (now : Z)
    (st : State) (c h : string) (req : DepositRequest) :
  isValidTxHash h = true ->
  depositRequests st !! c = Some req ->
  timestamp req + 24 * 60 * 60 * 1000 < now ->
  on_confirm cfg chain now st c h
  = (Build_State (delete c (depositRequests st)) (table st), RequestExpired)
  /\ depositRequests (fst (on_confirm cfg chain now st c h)) !! c = None
  /\ table (fst (on_confirm cfg chain now st c h)) = table st.
Proof.
  intros Hh Hreq Ht.
  rewrite (on_confirm_expired cfg chain now st c h req Hh Hreq Ht).
  cbn [fst depositRequests table]. rewrite lookup_delete_eq. auto.
Qed.

Lemma expired_intent_unusable_witness :
  on_confirm sample_cfg (sample_chain 10123400000000000000 6)
    (1700000000000 + 24 * 60 * 60 * 1000 + 1) intent_state "alice" sample_hash
  = (Build_State (delete "alice" (depositRequests intent_state))
       (table intent_state),
     RequestExpired).
Proof.
  refine (proj1 (expired_intent_unusable sample_cfg
                   (sample_chain 10123400000000000000 6) _ intent_state
                   "alice" sample_hash
                   (Build_DepositRequest "10.123400" 1700000000000)
                   eq_refl _ _)).
  - vm_compute. reflexivity.
  - vm_compute. reflexivity.
Defined.

(** C2 (as amended).  After a successful /confirm of an account, and until
    that account sends /deposit again, every further /confirm of the
    account, for any reference and whatever the chain shows, is refused
    (no active request, or a malformed reference) and leaves the state as
    it is: it adds no record.  (Nothing in the table is checked for an
    earlier record with the same reference.) *)
Theorem reverification_same_account (isAddress : string -> bool)
    (int_of_text : string -> option Z) (cfg : Config) (adminChatId : string)
    (chain chain' : Chain) (now now' : Z) (st st1 : State) (c h h' : string)
    (t : Tx.t) (bal : string) (actions : list Action) :
  on_confirm cfg chain now st c h = (st1, DepositVerified t bal) ->
  Forall (fun a => ~ opens_for c a) actions ->
  let st2 := run isAddress int_of_text cfg adminChatId st1 actions in
  (on_confirm cfg chain' now' st2 c h' = (st2, NoActiveRequest)
   \/ on_confirm cfg chain' now' st2 c h' = (st2, InvalidHashFormat))
  /\ table (fst (on_confirm cfg chain' now' st2 c h')) = table st2.
Proof.
  intros Hok Hall st2.
  assert (Hnone : depositRequests st2 !! c = None).
  { apply run_keeps_none; [| exact Hall].
    exact (on_confirm_clears cfg chain now st c h st1 t bal Hok). }
  destruct (on_confirm_no_request cfg chain' now' st2 c h' Hnone) as [E | E];
    rewrite E; auto.
Qed.

Lemma reverification_same_account_witness :
  let chain := sample_chain 10123400000000000000 6 in
  let st1 :=
    fst (on_confirm sample_cfg chain 1700000001000 intent_state "alice"
           sample_hash) in
  let st2 :=
    run (fun _ => true) decimal_key sample_cfg "admin" st1
      [ ADeposit "bob" "/deposit 25" 1700000001500 77;
        AConfirm chain "bob" sample_hash 1700000001800 ] in
  on_confirm sample_cfg chain 1700000002000 st2 "alice" sample_hash
  = (st2, NoActiveRequest).
Proof.
  intros chain st1 st2.
  destruct (reverification_same_account (fun _ => true) decimal_key
              sample_cfg "admin" chain chain 1700000001000 1700000002000
              intent_state st1 "alice" sample_hash sample_hash
              (Tx.mk 1 deposit "alice" 10123400 None None None
                     (Some sample_hash) completed (Some 1700000001000) None
                     (Some 6) None)
              "10.123400"
              [ ADeposit "bob" "/deposit 25" 1700000001500 77;
                AConfirm chain "bob" sample_hash 1700000001800 ])
    as [[E | E] _].
  - vm_compute. reflexivity.
  - repeat constructor; cbn; [discriminate | tauto].
  - exact E.
  - exfalso. revert E. vm_compute. discriminate.
Defined.

(** C2, counterexample: two accounts hold intents for the same amount
    (each /deposit drew 0.1234) and both confirm the one transfer: both are
    credited, and the table holds two Completed deposits with the same
    reference.  The same happens to one account that opens a second intent
    for that amount. *)
Lemma double_credit :
  let chain := sample_chain 10123400000000000000 6 in
  let s0 := Build_State ∅ [] in
  let s1 := fst (on_deposit 1700000000000 1234 s0 "alice" "/deposit") in
  let s2 := fst (on_deposit 1700000000500 1234 s1 "bob" "/deposit") in
  let s3 := fst (on_confirm sample_cfg chain 1700000001000 s2 "alice" sample_hash) in
  let s4 := fst (on_confirm sample_cfg chain 1700000002000 s3 "bob" sample_hash) in
  let s5 := fst (on_deposit 1700000003000 1234 s4 "alice" "/deposit") in
  let s6 := fst (on_confirm sample_cfg chain 1700000004000 s5 "alice" sample_hash) in
  List.map (fun r => (Tx.chatId r, Tx.status r, Tx.txHash r, Tx.amount r))
           (table s4)
  = [ ("alice", completed, Some sample_hash, 10123400);
      ("bob", completed, Some sample_hash, 10123400) ]%string
  /\ getUserBalance (table s4) "alice" = "10.123400"%string
  /\ getUserBalance (table s4) "bob" = "10.123400"%string
  /\ getUserBalance (table s6) "alice" = "20.246800"%string.
Proof. vm_compute. repeat split. Qed.

(* ================================================================== *)
(** * Conversion to fiat *)
(* ================================================================== *)

(** Within the precision, [times] is the exact product, so the fiat amount
    of an exchange request is the exact product rounded half up. *)
Lemma exchangeFiatAmount_exact rates a fiatType :
  Z.abs (Dec.coef a * rate_for rates fiatType) < 10 ^ 20 ->
  exchangeFiatAmount rates a fiatType
  = Dec.toFixed 2
      (Dec.mk (Dec.coef a * rate_for rates fiatType) (Dec.scale a + 6)).
Proof.
  intros H. unfold exchangeFiatAmount, Dec.times, Dec.finalise, Dec.of_micro.
  cbn [Dec.coef Dec.scale]. now rewrite DecFacts.round_sd_small.
Qed.

(** The rounding of [Double] agrees with the IEEE 754 division and
    multiplication of the Standard Library on the values used below. *)
Lemma double_agrees_with_ieee :
  let sf (m : positive) := S754_finite false m 0 in
  Double.to_spec (Double.parseFloat "1.005")
  = SFdiv 53 1024 (sf 1005%positive) (sf 1000%positive)
  /\ Double.to_spec (Double.of_decimal (Dec.of_micro 39500000))
     = SFdiv 53 1024 (sf 395%positive) (sf 10%positive)
  /\ Double.to_spec
       (Double.mul (Double.parseFloat "1.005")
                   (Double.of_decimal (Dec.of_micro 39500000)))
     = SFmul 53 1024
         (SFdiv 53 1024 (sf 1005%positive) (sf 1000%positive))
         (SFdiv 53 1024 (sf 395%positive) (sf 10%positive)).
Proof. vm_compute. repeat split. Qed.

(** C6.  ExchangeRate.convertToFiat multiplies two binary64 numbers: of
    1.005 at the rate 1.000000 it makes 1.00, because the number nearest
    to 1.005 lies below it; the decimal product rounded half up to two
    digits is 1.01, which is what the Decimal computation of
    processExchangeRequest returns. *)
Theorem convertToFiat_uses_binary_floating_point :
  let rates := {| rateUSD := 1000000; rateUAH := 39500000 |} in
  Double.parseFloat "1.005" = Double.Finite 4526117625507348 (-52)
  /\ 4526117625507348 * 1000 < 1005 * 2 ^ 52
  /\ convertToFiat rates "1.005" "USD" = Some "1.00"%string
  /\ Dec.parse "1.005" = Some (Dec.mk 1005 3)
  /\ Dec.round_at 2 (Dec.mk (1005 * 1000000) (3 + 6)) = 101
  /\ exchangeFiatAmount rates (Dec.mk 1005 3) "USD" = "1.01"%string.
Proof. vm_compute. repeat split. Qed.
(* ================================================================== *)
(** * Comparisons and rounding of Decimal values *)
(* ================================================================== *)

Section Order.
Import Dec DecFacts.


(** The comparison of a value with a number of millionths bounds its
    rounding to six digits. *)
Lemma round_at_le_micro a m :
  cmp a (of_micro m) <> Gt -> round_at 6 a <= m.
Proof.
  unfold cmp, align, of_micro, round_at. cbn [coef scale].
  destruct (Nat.leb_spec (scale a) 6) as [Hs | Hs].
  - rewrite Nat.max_r by lia. rewrite Nat.sub_diag, pow10_0.
    intros H. destruct (Z.compare_spec (coef a * pow10 (6 - scale a)) (m * 1));
      try lia. now elim H.
  - rewrite Nat.max_l by lia. rewrite Nat.sub_diag, pow10_0.
    set (u := pow10 (scale a - 6)). pose proof (pow10_pos (scale a - 6)) as Hu.
    fold u in Hu. intros H.
    assert (Hc : coef a * 1 <= m * u)
      by (destruct (Z.compare_spec (coef a * 1) (m * u)); try lia; now elim H).
    pose proof (half_up_div_spec (Z.abs (coef a)) u (Z.abs_nonneg _) Hu) as Hq.
    pose proof (half_up_div_nonneg (Z.abs (coef a)) u (Z.abs_nonneg _) Hu) as Hq0.
    set (q := half_up_div (Z.abs (coef a)) u) in *.
    destruct (Z.sgn_spec (coef a)) as [[? ->] | [[? ->] | [? ->]]]; nia.
Qed.

Lemma round_at_ge_micro a m :
  cmp a (of_micro m) <> Lt -> m <= round_at 6 a.
Proof.
  unfold cmp, align, of_micro, round_at. cbn [coef scale].
  destruct (Nat.leb_spec (scale a) 6) as [Hs | Hs].
  - rewrite Nat.max_r by lia. rewrite Nat.sub_diag, pow10_0.
    intros H. destruct (Z.compare_spec (coef a * pow10 (6 - scale a)) (m * 1));
      try lia. now elim H.
  - rewrite Nat.max_l by lia. rewrite Nat.sub_diag, pow10_0.
    set (u := pow10 (scale a - 6)). pose proof (pow10_pos (scale a - 6)) as Hu.
    fold u in Hu. intros H.
    assert (Hc : m * u <= coef a * 1)
      by (destruct (Z.compare_spec (coef a * 1) (m * u)); try lia; now elim H).
    pose proof (half_up_div_spec (Z.abs (coef a)) u (Z.abs_nonneg _) Hu) as Hq.
    pose proof (half_up_div_nonneg (Z.abs (coef a)) u (Z.abs_nonneg _) Hu) as Hq0.
    set (q := half_up_div (Z.abs (coef a)) u) in *.
    destruct (Z.sgn_spec (coef a)) as [[? ->] | [[? ->] | [? ->]]]; nia.
Qed.

Lemma greaterThan_zero a : greaterThan a zero = (0 <? coef a).
Proof.
  unfold greaterThan, cmp, align, zero. cbn [coef scale].
  rewrite Nat.max_0_r, Nat.sub_diag, pow10_0, Z.mul_1_r, Z.mul_0_l.
  destruct (Z.compare_spec (coef a) 0), (Z.ltb_spec 0 (coef a)); try reflexivity; lia.
Qed.

Lemma lessThan_zero a : lessThan a zero = (coef a <? 0).
Proof.
  unfold lessThan, cmp, align, zero. cbn [coef scale].
  rewrite Nat.max_0_r, Nat.sub_diag, pow10_0, Z.mul_1_r, Z.mul_0_l.
  destruct (Z.compare_spec (coef a) 0), (Z.ltb_spec (coef a) 0); try reflexivity; lia.
Qed.


Lemma pow10_le_mono a b : (a <= b)%nat -> pow10 a <= pow10 b.
Proof.
  intros H. rewrite (pow10_split b a H).
  pose proof (pow10_pos (b - a)). pose proof (pow10_pos a). nia.
Qed.

Lemma pow10_ge_10 k : (1 <= k)%nat -> 10 <= pow10 k.
Proof. intros H. apply (pow10_le_mono 1 k H). Qed.

(** A coefficient beyond the precision keeps its leading digits. *)
Lemma round_sd_large T :
  pow10 precision <= T ->
  exists q k, round_sd T = q * pow10 k /\ (1 <= k)%nat /\ pow10 19 <= q
              /\ 2 * q * pow10 k - pow10 k <= 2 * T < 2 * q * pow10 k + pow10 k.
Proof.
  intros HT. pose proof (pow10_pos precision) as HP.
  unfold round_sd. rewrite Z.abs_eq by lia.
  destruct (Z.ltb_spec T (pow10 precision)); [lia |].
  rewrite Z.sgn_pos by lia.
  destruct (ndigits_spec T ltac:(lia)) as [Hlo Hhi].
  assert (Hnd : (precision < ndigits T)%nat).
  { destruct (Nat.le_gt_cases (ndigits T) precision) as [Hle | Hgt]; [| exact Hgt].
    pose proof (pow10_le_mono _ _ Hle). lia. }
  set (k := (ndigits T - precision)%nat).
  exists (half_up_div T (pow10 k)), k.
  pose proof (pow10_pos k) as Hk.
  pose proof (half_up_div_spec T (pow10 k) ltac:(lia) Hk) as Hq.
  split; [lia |]. split; [subst k; lia |]. split; [| exact Hq].
  assert (E : pow10 (ndigits T - 1) = pow10 19 * pow10 k).
  { rewrite <- pow10_add. f_equal. subst k. unfold precision in *. lia. }
  rewrite E in Hlo. pose proof (pow10_pos 19).
  set (q := half_up_div T (pow10 k)) in *. nia.
Qed.

(** Rounding to six digits, from the coefficient at a finer scale. *)
Lemma round_at_fine a s x m :
  (scale a <= s)%nat -> (6 <= s)%nat ->
  x = coef a * pow10 (s - scale a) -> 0 <= x ->
  2 * x < 2 * pow10 (s - 6) * m + pow10 (s - 6) ->
  round_at 6 a <= m.
Proof.
  intros Hs H6 -> Hx Hlt. unfold round_at.
  pose proof (pow10_pos (s - scale a)) as Hz.
  pose proof (pow10_pos (s - 6)) as Hu.
  destruct (Nat.leb_spec (scale a) 6) as [Hle | Hgt].
  - assert (E : pow10 (s - scale a) = pow10 (6 - scale a) * pow10 (s - 6)).
    { rewrite <- pow10_add. f_equal. lia. }
    rewrite E in Hlt. pose proof (pow10_pos (6 - scale a)).
    set (r := coef a * pow10 (6 - scale a)).
    assert (2 * (r * pow10 (s - 6)) < 2 * pow10 (s - 6) * m + pow10 (s - 6))
      by (subst r; lia).
    nia.
  - assert (E : pow10 (s - 6) = pow10 (scale a - 6) * pow10 (s - scale a)).
    { rewrite <- pow10_add. f_equal. lia. }
    rewrite E in Hlt. pose proof (pow10_pos (scale a - 6)) as Hw.
    set (w := pow10 (scale a - 6)) in *. set (z := pow10 (s - scale a)) in *.
    assert (Hc : 0 <= coef a) by nia.
    assert (Hlt' : 2 * coef a < 2 * w * m + w) by nia.
    rewrite Z.abs_eq by lia.
    pose proof (half_up_div_spec (coef a) w Hc Hw) as Hq.
    pose proof (half_up_div_nonneg (coef a) w Hc Hw) as Hq0.
    set (q := half_up_div (coef a) w) in *.
    destruct (Z.sgn_spec (coef a)) as [[? ->] | [[? ->] | [? ->]]]; nia.
Qed.

Lemma cmp_cross a b :
  cmp a b = (coef a * pow10 (scale b) ?= coef b * pow10 (scale a)).
Proof.
  unfold cmp, align.
  set (s := Nat.max (scale a) (scale b)).
  pose proof (pow10_pos (scale a)) as Ha. pose proof (pow10_pos (scale b)) as Hb.
  pose proof (pow10_pos (s - scale a)) as Ha'.
  pose proof (pow10_pos (s - scale b)) as Hb'.
  assert (Ea : pow10 s = pow10 (s - scale a) * pow10 (scale a))
    by (apply pow10_split; subst s; lia).
  assert (Eb : pow10 s = pow10 (s - scale b) * pow10 (scale b))
    by (apply pow10_split; subst s; lia).
  set (x := coef a * pow10 (s - scale a)). set (y := coef b * pow10 (s - scale b)).
  assert (Hx : x * pow10 (scale a) * pow10 (scale b) = coef a * pow10 (scale b) * pow10 s)
    by (subst x; rewrite Ea; ring).
  assert (Hy : y * pow10 (scale a) * pow10 (scale b) = coef b * pow10 (scale a) * pow10 s)
    by (subst y; rewrite Eb; ring).
  pose proof (pow10_pos s) as Hs.
  rewrite <- !Z.mul_assoc in Hx, Hy.
  assert (HW : 0 < pow10 (scale a) * pow10 (scale b)) by nia.
  set (W := pow10 (scale a) * pow10 (scale b)) in *.
  rewrite (Z.mul_assoc (coef a)) in Hx. rewrite (Z.mul_assoc (coef b)) in Hy.
  set (P := coef a * pow10 (scale b)) in *.
  set (Q := coef b * pow10 (scale a)) in *.
  clearbody x y W P Q. clear Ea Eb.
  destruct (Z.compare_spec x y) as [E | E | E];
    destruct (Z.compare_spec P Q) as [F | F | F]; try reflexivity; exfalso; nia.
Qed.

(** The check of /withdraw: when the balance is not less than the amount
    plus the fee, the amount as it is stored does not exceed the
    balance, also where the sum was rounded to the precision. *)
Lemma check_covers_amount a fee m :
  0 < coef a -> 0 <= coef fee -> 0 <= m < pow10 precision ->
  lessThan (of_micro m) (plus a fee) = false ->
  round_at 6 a <= m.
Proof.
  intros Ha Hfee Hm. unfold plus, align.
  set (s := Nat.max (scale a) (scale fee)).
  set (x := coef a * pow10 (s - scale a)).
  set (y := coef fee * pow10 (s - scale fee)).
  pose proof (pow10_pos (s - scale a)) as Hza.
  pose proof (pow10_pos (s - scale fee)) as Hzf.
  assert (Hx : 0 < x) by (subst x; nia).
  assert (Hy : 0 <= y) by (subst y; nia).
  unfold finalise. cbn [coef scale].
  unfold lessThan. rewrite cmp_cross. cbn [coef scale of_micro].
  pose proof (pow10_pos s) as Hs. pose proof (pow10_pos 6) as H6.
  intros Hcmp.
  assert (Hle : round_sd (x + y) * pow10 6 <= m * pow10 s).
  { destruct (Z.compare_spec (m * pow10 s) (round_sd (x + y) * pow10 6));
      try lia; discriminate Hcmp. }
  clear Hcmp.
  destruct (Z.lt_ge_cases (x + y) (pow10 precision)) as [Hsmall | Hbig].
  - rewrite round_sd_small in Hle by lia.
    apply round_at_le_micro. rewrite cmp_cross. cbn [coef scale of_micro].
    assert (Es : pow10 s = pow10 (s - scale a) * pow10 (scale a))
      by (apply pow10_split; subst s; lia).
    pose proof (pow10_pos (scale a)).
    destruct (Z.compare_spec (coef a * pow10 6) (m * pow10 (scale a)));
      try discriminate. exfalso. subst x. rewrite Es in Hle. nia.
  - destruct (round_sd_large (x + y) Hbig) as (q & k & ER & Hk & Hq & Hspec).
    rewrite ER in Hle. clear ER.
    pose proof (pow10_pos k) as Hpk. pose proof (pow10_ge_10 k Hk) as Hk10.
    change (pow10 precision) with (10 * pow10 19) in Hm.
    pose proof (pow10_pos 19) as H19.
    destruct (Nat.le_gt_cases s 6) as [Hs6 | Hs6].
    { exfalso. pose proof (pow10_le_mono s 6 Hs6) as Hmono.
      assert (H1 : 10 * pow10 19 <= q * pow10 k) by nia.
      assert (H2 : m * pow10 s <= m * pow10 6) by nia.
      assert (H3 : m * pow10 6 < q * pow10 k * pow10 6) by nia.
      lia. }
    assert (Es : pow10 s = pow10 (s - 6) * pow10 6)
      by (apply pow10_split; lia).
    pose proof (pow10_pos (s - 6)) as Hu.
    rewrite Es in Hle.
    assert (Hle' : q * pow10 k <= m * pow10 (s - 6)).
    { rewrite (Z.mul_assoc m) in Hle.
      apply (Z.mul_le_mono_pos_r _ _ (pow10 6)); [exact H6 | exact Hle]. }
    destruct (Nat.le_gt_cases k (s - 6)) as [Hks | Hks].
    2:{ exfalso.
        assert (E : pow10 k = pow10 (k - (s - 6)) * pow10 (s - 6))
          by (apply pow10_split; lia).
        pose proof (pow10_ge_10 (k - (s - 6)) ltac:(lia)) as Hten.
        rewrite E in Hle'.
        set (u := pow10 (s - 6)) in *. set (t := pow10 (k - (s - 6))) in *.
        assert (H1 : 10 * pow10 19 * u <= q * (t * u)) by nia.
        assert (H2 : m * u < 10 * pow10 19 * u) by nia.
        lia. }
    assert (Eu : pow10 (s - 6) = pow10 (s - 6 - k) * pow10 k)
      by (apply pow10_split; lia).
    pose proof (pow10_pos (s - 6 - k)) as Hv.
    apply (round_at_fine a s x m); [subst s; lia | lia | reflexivity | lia |].
    rewrite Eu in Hle' |- *. set (v := pow10 (s - 6 - k)) in *.
    set (p := pow10 k) in *.
    destruct (Z.lt_ge_cases (2 * x) (2 * (v * p) * m + v * p)) as [Hgoal | Hcontra];
      [exact Hgoal | exfalso].
    assert (H1 : p * (2 * v * m + v) < p * (2 * q + 1)) by nia.
    assert (H2 : 2 * v * m + v < 2 * q + 1)
      by (apply (Z.mul_lt_mono_pos_l p); [exact Hpk | exact H1]).
    assert (H3 : v * m + 1 <= q) by lia.
    assert (H4 : (v * m + 1) * p <= q * p) by nia.
    nia.
Qed.

End Order.

(* ================================================================== *)
(** * Rows, keys and the balance *)
(* ================================================================== *)

Section Rows.

Lemma rawBalance_nil c : rawBalance [] c = 0.
Proof. reflexivity. Qed.

Lemma rawBalance_app tbl1 tbl2 c :
  rawBalance (tbl1 ++ tbl2) c = rawBalance tbl1 c + rawBalance tbl2 c.
Proof.
  unfold rawBalance, completedDeposits, reservedWithdrawals, reservedExchanges.
  rewrite !findAll_app, !sum_amounts_app. lia.
Qed.

Lemma rawBalance_single r c : rawBalance [r] c = effect r c.
Proof.
  change [r] with ([] ++ [r]). rewrite rawBalance_snoc, rawBalance_nil. lia.
Qed.

Lemma volume_nil c : volume [] c = 0.
Proof. reflexivity. Qed.

Lemma effect_abs r c : Z.abs (effect r c) <= Z.abs (Tx.amount r).
Proof.
  unfold effect. destruct (bool_decide _); [| lia].
  destruct (Tx.type r), (Tx.status r); lia.
Qed.

(** The amounts that make up the balance of one account are among the
    amounts of the table. *)
Lemma volume_le_sum_abs tbl c : volume tbl c <= sum_abs tbl.
Proof.
  induction tbl as [| r tbl IH] using rev_ind; [rewrite volume_nil; cbn; lia |].
  rewrite volume_snoc, sum_abs_app. pose proof (effect_abs r c). cbn. lia.
Qed.

Lemma rawBalance_abs tbl c : Z.abs (rawBalance tbl c) <= volume tbl c.
Proof.
  induction tbl as [| r tbl IH] using rev_ind;
    [rewrite rawBalance_nil, volume_nil; lia |].
  rewrite rawBalance_snoc, volume_snoc. lia.
Qed.

(** Under the key invariant the key of a row tells its position. *)
Lemma table_ok_inj tbl (i j : nat) x y :
  table_ok tbl -> tbl !! i = Some x -> tbl !! j = Some y ->
  Tx.id x = Tx.id y -> i = j.
Proof.
  intros Hok Hi Hj E. rewrite (Hok i x Hi), (Hok j y Hj) in E. lia.
Qed.

(** [save] on a table with distinct keys rewrites the one row. *)
Lemma save_insert tbl (i : nat) t t' :
  table_ok tbl -> tbl !! i = Some t -> Tx.id t' = Tx.id t ->
  save tbl t' = <[i := t']> tbl.
Proof.
  intros Hok Hi Hid. apply list_eq. intros j.
  destruct (tbl !! j) as [x |] eqn:Hj.
  - rewrite (save_lookup _ _ _ _ Hj).
    destruct (decide (i = j)) as [<- | Hne].
    + rewrite list_lookup_insert_eq by (eapply lookup_lt_Some; eauto).
      assert (x = t) by congruence. subst x.
      now rewrite Hid, Z.eqb_refl.
    + rewrite list_lookup_insert_ne by exact Hne. rewrite Hj.
      destruct (Z.eqb_spec (Tx.id x) (Tx.id t')) as [E | _]; [| reflexivity].
      elim Hne. symmetry. apply (table_ok_inj tbl j i x t Hok Hj Hi). congruence.
  - rewrite list_lookup_insert_ne.
    + rewrite Hj. unfold save. now rewrite list_lookup_fmap, Hj.
    + intros <-. congruence.
Qed.

Lemma insert_middle (tbl : Table) (i : nat) t t' :
  tbl !! i = Some t ->
  tbl = take i tbl ++ t :: drop (S i) tbl
  /\ <[i := t']> tbl = take i tbl ++ t' :: drop (S i) tbl.
Proof.
  intros Hi. split.
  - symmetry. now apply take_drop_middle.
  - apply insert_take_drop. eapply lookup_lt_Some; eauto.
Qed.

(** Rewriting one row moves the balance by the difference of the two
    contributions. *)
Lemma rawBalance_insert tbl (i : nat) t t' c :
  tbl !! i = Some t ->
  rawBalance (<[i := t']> tbl) c = rawBalance tbl c - effect t c + effect t' c.
Proof.
  intros Hi. destruct (insert_middle tbl i t t' Hi) as [E1 E2].
  rewrite E2. rewrite E1 at 3.
  change (?x :: ?l) with ([x] ++ l).
  rewrite !rawBalance_app, !rawBalance_single. lia.
Qed.

Lemma sum_abs_insert tbl (i : nat) t t' :
  tbl !! i = Some t -> Tx.amount t' = Tx.amount t ->
  sum_abs (<[i := t']> tbl) = sum_abs tbl.
Proof.
  intros Hi Ha. destruct (insert_middle tbl i t t' Hi) as [E1 E2].
  rewrite E2. rewrite E1 at 3. rewrite !sum_abs_app. cbn. now rewrite Ha.
Qed.

Lemma sum_abs_snoc tbl r : sum_abs (tbl ++ [r]) = sum_abs tbl + Z.abs (Tx.amount r).
Proof. rewrite sum_abs_app. cbn. lia. Qed.

(** A row of another account, a failed row or a deposit that is not
    completed is not read by the balance. *)
Lemma findAll_skip tbl1 r tbl2 c ty sts :
  bool_decide (Tx.chatId r = c) && bool_decide (Tx.type r = ty)
    && bool_decide (Tx.status r ∈ sts) = false ->
  findAll (tbl1 ++ r :: tbl2) c ty sts = findAll (tbl1 ++ tbl2) c ty sts.
Proof.
  intros H. change (r :: tbl2) with ([r] ++ tbl2).
  rewrite !findAll_app, findAll_single, H. reflexivity.
Qed.

End Rows.

(* ================================================================== *)
(** * What each command does to the table *)
(* ================================================================== *)

Section Effects.
Import Dec DecFacts.

Variable isAddress : string -> bool.
Variable int_of_text : string -> option Z.
Variable cfg : Config.
Variable adminChatId : string.

(** A verification succeeds only on a chain that shows the transfer. *)
Lemma verify_verified cfg' chain h expected a n :
  verifyDepositTransaction cfg' chain h expected = Verified a n ->
  exists value dec e,
    chain_shows cfg' chain h value dec n
    /\ minConfirmations cfg' <= n
    /\ parse expected = Some e
    /\ equals (mk value dec) e = true
    /\ a = mk value dec.
Proof.
  unfold verifyDepositTransaction.
  destruct (getTransactionReceipt chain h) as [[receipt |] | m] eqn:Hr;
    try discriminate.
  destruct (getBlockNumber chain) as [cur | m] eqn:Hb; try discriminate.
  destruct (Z.ltb_spec (cur - blockNumber receipt) (minConfirmations cfg'))
    as [Hlt | Hge]; try discriminate.
  destruct (transferEvents cfg' (logs receipt)) as [[| ev rest] | m] eqn:Hev;
    try discriminate.
  destruct (String.eqb_spec (toLowerCase (arg_to ev))
              (toLowerCase (depositAddress cfg'))) as [Hto | Hto];
    cbn [negb]; try discriminate.
  destruct (decimals chain) as [dec | m] eqn:Hd; try discriminate.
  destruct (parse expected) as [e |] eqn:He; try discriminate.
  destruct (equals (mk (arg_value ev) dec) e) eqn:Heq; cbn [negb];
    try discriminate.
  intros Hv. injection Hv as <- <-.
  exists (arg_value ev), dec, e. repeat split; auto.
  exists receipt, cur, ev, rest. repeat split; auto.
Qed.

(** /confirm leaves the table as it is or appends one Completed deposit
    of the account, for the amount of the intent, which the chain showed. *)
Lemma on_confirm_effect chain now st c h :
  table_ok (table st) ->
  table (fst (on_confirm cfg chain now st c h)) = table st
  \/ exists req a n e,
       depositRequests st !! c = Some req
       /\ verifyDepositTransaction cfg chain h (amount req) = Verified a n
       /\ parse (amount req) = Some e
       /\ equals a e = true
       /\ table (fst (on_confirm cfg chain now st c h))
          = table st
            ++ [Tx.mk (next_id (table st)) deposit c (round_at 6 e) None None
                      None (Some h) completed (Some now) None (Some n) None].
Proof.
  intros Hok. unfold on_confirm.
  destruct (isValidTxHash h); cbn [negb]; [| now left].
  destruct (depositRequests st !! c) as [req |] eqn:Hreq; [| now left].
  destruct (_ <? _); [now left |].
  destruct (verifyDepositTransaction cfg chain h (amount req)) as [a n | reason]
    eqn:Hv; [| now left].
  destruct (verify_verified _ _ _ _ _ _ Hv) as (value & dec & e & _ & _ & He & Heq & ->).
  destruct (numeric 6 (amount req)) as [amt |] eqn:Hamt; [| now left].
  assert (amt = round_at 6 e) as ->.
  { unfold numeric in Hamt. rewrite He in Hamt. cbn [mbind option_bind] in Hamt.
    unfold numeric_of in Hamt. destruct (_ <? _); congruence. }
  right.
  exists req, (mk value dec), n, e. repeat split; auto.
  unfold createDeposit, create. cbn [fst table].
  unfold Tx.set_confirmations, Tx.set_completedAt, Tx.set_status, Tx.set_txHash.
  cbn [Tx.id Tx.type Tx.chatId Tx.amount Tx.fiatAmount Tx.fiatType
       Tx.walletAddress Tx.txHash Tx.status Tx.completedAt Tx.fee
       Tx.confirmations Tx.adminNotes].
  apply save_created; [exact Hok | reflexivity | reflexivity].
Qed.

(** /withdraw leaves the table as it is or appends one withdrawal of the
    account that passed the balance check and ended Completed or Failed. *)
Lemma on_withdraw_effect w now tbl c command :
  table_ok tbl ->
  fst (fst (on_withdraw isAddress cfg w now tbl c command)) = tbl
  \/ exists amount address a b t,
       parseWithdrawCommand isAddress command = Some (amount, address)
       /\ parse amount = Some a
       /\ parse (getUserBalance tbl c) = Some b
       /\ lessThan b (plus a (withdrawalFee cfg)) = false
       /\ fst (fst (on_withdraw isAddress cfg w now tbl c command)) = tbl ++ [t]
       /\ Tx.id t = next_id tbl /\ Tx.type t = withdrawal /\ Tx.chatId t = c
       /\ Tx.amount t = round_at 6 a
       /\ (Tx.status t = completed \/ Tx.status t = failed).
Proof.
  intros Hok. unfold on_withdraw.
  destruct (parseWithdrawCommand isAddress command) as [[amount address] |]
    eqn:Hcmd; [| now left].
  destruct (parse amount) as [a |] eqn:Ha; [| now left].
  destruct (parse (getUserBalance tbl c)) as [b |] eqn:Hb; [| now left].
  destruct (lessThan b _) eqn:Hlt; [now left |].
  destruct (numeric_of 6 a) as [amt |] eqn:Hamt; [| now left].
  assert (amt = round_at 6 a) as ->
    by (unfold numeric_of in Hamt; destruct (_ <? _); congruence).
  destruct (numeric_of 6 (withdrawalFee cfg)) as [fee |]; [| now left].
  unfold createWithdrawal, create.
  set (t0 := Tx.mk _ _ _ _ _ _ _ _ _ _ _ _ _).
  pose proof (processWithdrawal_created w now tbl t0 Hok eq_refl) as Htbl.
  destruct (processWithdrawal_cases w now (tbl ++ [t0]) t0)
    as (_ & _ & (Hi & Hty & Hc & Hamount) & Hres).
  cbv zeta in *.
  destruct (processWithdrawal w now (tbl ++ [t0]) t0) as [s res].
  cbn [fst snd] in *. right.
  exists amount, address, a, b, (run_tx s).
  assert (Hst : Tx.status (run_tx s) = completed \/ Tx.status (run_tx s) = failed).
  { destruct (failure_of w).
    - right. apply Hres.
    - left. destruct Hres as (h & _ & _ & Hs & _). exact Hs. }
  repeat split; auto; try (destruct res; exact Htbl).
Qed.

(** An exchange request leaves the table as it is or appends one Pending
    exchange of the account for an amount the balance covers. *)
Lemma processExchangeRequest_effect rates userFound tbl c amount fiatType :
  fst (processExchangeRequest rates userFound tbl c amount fiatType) = tbl
  \/ exists a b fiat,
       userFound = true
       /\ parse amount = Some a
       /\ parse (getUserBalance tbl c) = Some b
       /\ greaterThan a b = false
       /\ numeric 2 (exchangeFiatAmount rates a fiatType) = Some fiat
       /\ processExchangeRequest rates userFound tbl c amount fiatType
          = (let t := Tx.mk (next_id tbl) exchange c (round_at 6 a) (Some fiat)
                            (Some fiatType) None None pending None None None
                            None in
             (tbl ++ [t],
              ExchangeCreated t (exchangeFiatAmount rates a fiatType))).
Proof.
  unfold processExchangeRequest.
  destruct userFound; cbn [negb]; [| now left].
  destruct (parse amount) as [a |] eqn:Ha; [| now left].
  destruct (parse (getUserBalance tbl c)) as [b |] eqn:Hb; [| now left].
  destruct (greaterThan a b) eqn:Hgt; [now left |].
  destruct (numeric_of 6 a) as [amt |] eqn:Hamt; [| now left].
  assert (amt = round_at 6 a) as ->
    by (unfold numeric_of in Hamt; destruct (_ <? _); congruence).
  destruct (numeric 2 _) as [fiat |] eqn:Hfiat; [| now left].
  right. exists a, b, fiat. repeat split; auto.
Qed.

Lemma processExchangeRequest_created rates userFound tbl c amount fiatType
    t fiat :
  snd (processExchangeRequest rates userFound tbl c amount fiatType)
  = ExchangeCreated t fiat ->
  exists a b cents,
    userFound = true
    /\ parse amount = Some a
    /\ parse (getUserBalance tbl c) = Some b
    /\ greaterThan a b = false
    /\ numeric 2 fiat = Some cents
    /\ fiat = exchangeFiatAmount rates a fiatType
    /\ t = Tx.mk (next_id tbl) exchange c (round_at 6 a) (Some cents)
                 (Some fiatType) None None pending None None None None
    /\ fst (processExchangeRequest rates userFound tbl c amount fiatType)
       = tbl ++ [t].
Proof.
  unfold processExchangeRequest.
  destruct userFound; cbn [negb]; [| discriminate].
  destruct (parse amount) as [a |] eqn:Ha; [| discriminate].
  destruct (parse (getUserBalance tbl c)) as [b |] eqn:Hb; [| discriminate].
  destruct (greaterThan a b) eqn:Hgt; [discriminate |].
  destruct (numeric_of 6 a) as [amt |] eqn:Hamt; [| discriminate].
  assert (amt = round_at 6 a) as ->
    by (unfold numeric_of in Hamt; destruct (_ <? _); congruence).
  destruct (numeric 2 _) as [cents |] eqn:Hfiat; [| discriminate].
  unfold createExchange, create. cbn [fst snd].
  intros H. injection H as <- <-.
  exists a, b, cents. repeat split; auto.
Qed.

Lemma findByPk_row tbl transactionId t :
  findByPk int_of_text tbl transactionId = Row t ->
  exists i : nat, tbl !! i = Some t.
Proof.
  unfold findByPk. destruct (int_of_text transactionId) as [k |]; [| discriminate].
  destruct (List.find _ tbl) as [r |] eqn:Hf; [| discriminate].
  intros H. injection H as <-.
  apply List.find_some in Hf. destruct Hf as [Hin _].
  apply list_elem_of_In, list_elem_of_lookup in Hin. exact Hin.
Qed.

(** Under the key invariant a decision rewrites the row it found, at its
    place. *)
Lemma complete_effect now tbl transactionId adminNotes :
  table_ok tbl ->
  fst (completeExchangeTransaction int_of_text now tbl transactionId adminNotes)
  = tbl
  \/ exists (i : nat) t t',
       tbl !! i = Some t /\ Tx.type t = exchange /\ Tx.status t = pending
       /\ completeExchangeTransaction int_of_text now tbl transactionId
            adminNotes
          = (<[i := t']> tbl, DecisionOk t')
       /\ Tx.id t' = Tx.id t /\ Tx.type t' = Tx.type t
       /\ Tx.chatId t' = Tx.chatId t /\ Tx.amount t' = Tx.amount t
       /\ Tx.status t' = completed /\ Tx.completedAt t' = Some now
       /\ findByPk int_of_text tbl transactionId = Row t.
Proof.
  intros Hok.
  destruct (findByPk int_of_text tbl transactionId) as [t | | m] eqn:Hf.
  2, 3: left; unfold completeExchangeTransaction; now rewrite Hf.
  destruct (decide (Tx.type t = exchange)) as [Hty | Hty].
  2:{ left. unfold completeExchangeTransaction.
      now rewrite Hf, (bool_decide_eq_false_2 _ Hty). }
  destruct (decide (Tx.status t = pending)) as [Hst | Hst].
  2:{ left. unfold completeExchangeTransaction.
      now rewrite Hf, (bool_decide_eq_true_2 _ Hty), (bool_decide_eq_false_2 _ Hst). }
  right. destruct (findByPk_row _ _ _ Hf) as [i Hi].
  rewrite (complete_acts int_of_text now tbl transactionId adminNotes t)
    by (repeat split; assumption).
  cbv zeta.
  set (t' := if String.eqb adminNotes "" then _ else _).
  assert (Ht' : Tx.id t' = Tx.id t /\ Tx.type t' = Tx.type t
                /\ Tx.chatId t' = Tx.chatId t /\ Tx.amount t' = Tx.amount t
                /\ Tx.status t' = completed /\ Tx.completedAt t' = Some now)
    by (subst t'; destruct (String.eqb adminNotes ""); cbn; auto 10).
  exists i, t, t'. rewrite (save_insert tbl i t t' Hok Hi) by apply Ht'.
  repeat split; auto; apply Ht'.
Qed.

Lemma reject_effect userFound tbl chatId transactionId words :
  table_ok tbl ->
  fst (on_reject_exchange int_of_text adminChatId userFound tbl chatId
         transactionId words) = tbl
  \/ exists (i : nat) t t',
       tbl !! i = Some t /\ Tx.type t = exchange /\ Tx.status t = pending
       /\ chatId = adminChatId
       /\ fst (on_reject_exchange int_of_text adminChatId userFound tbl chatId
                 transactionId words) = <[i := t']> tbl
       /\ Tx.id t' = Tx.id t /\ Tx.type t' = Tx.type t
       /\ Tx.chatId t' = Tx.chatId t /\ Tx.amount t' = Tx.amount t
       /\ Tx.status t' = failed
       /\ findByPk int_of_text tbl transactionId = Row t.
Proof.
  intros Hok.
  destruct (String.eqb_spec chatId adminChatId) as [-> | Hne].
  2:{ left. apply reject_refuses. now left. }
  destruct (findByPk int_of_text tbl transactionId) as [t | | m] eqn:Hf.
  2, 3: left; apply reject_refuses; right; intros t (Hf' & _); congruence.
  destruct (decide (Tx.type t = exchange)) as [Hty | Hty].
  2:{ left. apply reject_refuses. right. intros t0 (Hf' & Hty' & _). congruence. }
  destruct (decide (Tx.status t = pending)) as [Hst | Hst].
  2:{ left. apply reject_refuses. right. intros t0 (Hf' & _ & Hst'). congruence. }
  right. destruct (findByPk_row _ _ _ Hf) as [i Hi].
  rewrite (reject_acts int_of_text adminChatId userFound tbl transactionId words t)
    by (repeat split; assumption).
  cbv zeta. cbn [fst].
  set (t' := Tx.set_adminNotes _ _).
  exists i, t, t'. rewrite (save_insert tbl i t t' Hok Hi) by reflexivity.
  repeat split; auto.
Qed.

(** Every command leaves the table as it is, appends one row under the
    next key, or rewrites one Pending exchange into a Completed or Failed
    one with the same key, kind, owner and amount. *)
Lemma step_effect st a :
  table_ok (table st) ->
  let tbl' := table (step isAddress int_of_text cfg adminChatId st a) in
  tbl' = table st
  \/ (exists t, tbl' = table st ++ [t] /\ Tx.id t = next_id (table st))
  \/ (exists (i : nat) t t',
        table st !! i = Some t /\ Tx.type t = exchange /\ Tx.status t = pending
        /\ tbl' = <[i := t']> (table st)
        /\ Tx.id t' = Tx.id t /\ Tx.type t' = Tx.type t
        /\ Tx.chatId t' = Tx.chatId t /\ Tx.amount t' = Tx.amount t
        /\ (Tx.status t' = completed \/ Tx.status t' = failed)).
Proof.
  intros Hok tbl'. subst tbl'.
  destruct a as
    [chatId text now k | chain chatId txHash now | w chatId command now
     | rates userFound chatId amountText fiatType
     | transactionId adminNotes now | userFound chatId transactionId words];
    cbn [step table].
  - left. apply on_deposit_table.
  - destruct (on_confirm_effect chain now st chatId txHash Hok)
      as [E | (req & a & n & e & _ & _ & _ & _ & E)]; [now left |].
    right; left. eexists. split; [exact E | reflexivity].
  - destruct (on_withdraw_effect w now (table st) chatId command Hok)
      as [E | (amount & address & a & b & t & _ & _ & _ & _ & E & Hid & _)];
      [now left |].
    right; left. exists t. auto.
  - destruct (processExchangeRequest_effect rates userFound (table st) chatId
                amountText fiatType)
      as [E | (a & b & fiat & _ & _ & _ & _ & _ & E)]; [now left |].
    right; left. rewrite E. cbv zeta. cbn [fst]. eexists. split; reflexivity.
  - destruct (complete_effect now (table st) transactionId adminNotes Hok)
      as [E | (i & t & t' & Hi & Hty & Hst & E & H1 & H2 & H3 & H4 & H5 & _)];
      [now left |].
    right; right. exists i, t, t'. rewrite E. cbn [fst]. auto 12.
  - destruct (reject_effect userFound (table st) chatId transactionId words Hok)
      as [E | (i & t & t' & Hi & Hty & Hst & _ & E & H1 & H2 & H3 & H4 & H5 & _)];
      [now left |].
    right; right. exists i, t, t'. auto 12.
Qed.

End Effects.

(* ================================================================== *)
(** * Solvency *)
(* ================================================================== *)

Section Solvency.
Import Dec DecFacts.

Variable isAddress : string -> bool.
Variable int_of_text : string -> option Z.
Variable cfg : Config.
Variable adminChatId : string.

Lemma parseWithdrawCommand_valid command amount address :
  parseWithdrawCommand isAddress command = Some (amount, address) ->
  isValidAmount amount = true /\ isAddress address = true.
Proof.
  unfold parseWithdrawCommand.
  destruct (split_on _ _) as [| p0 [| p1 [| p2 ps]]]; try discriminate.
  destruct (trim p0) as [| x0 a0]; [discriminate |].
  destruct (trim p1) as [| x1 a1]; [discriminate |].
  destruct (isValidAmount _ && isAddress _) eqn:E; [| discriminate].
  intros H. injection H as <- <-. now apply andb_true_iff in E.
Qed.

Lemma isValidAmount_pos amount a :
  isValidAmount amount = true -> parse amount = Some a -> 0 < coef a.
Proof.
  unfold isValidAmount. intros H Ha. rewrite Ha, greaterThan_zero in H.
  now apply Z.ltb_lt in H.
Qed.

(** The events the verification reads are decoded logs of the receipt. *)
Lemma transferEvents_parsed cfg' ls : forall evs ev,
  transferEvents cfg' ls = Ok evs -> In ev evs ->
  exists l, In l ls /\ parseLog l = Parsed ev.
Proof.
  induction ls as [| l ls IH]; intros evs ev H Hin; cbn in H.
  - injection H as <-. destruct Hin.
  - destruct (parseLog l) as [| | d] eqn:Hp; [| discriminate |].
    + destruct (IH evs ev H Hin) as (l' & Hl' & Hp'). exists l'. split; auto.
      now right.
    + destruct (transferEvents cfg' ls) as [rest | m]; [| discriminate].
      destruct (_ && _).
      * injection H as <-. destruct Hin as [<- | Hin].
        -- exists l. split; auto. now left.
        -- destruct (IH rest ev eq_refl Hin) as (l' & Hl' & Hp').
           exists l'. split; auto. now right.
      * injection H as <-.
        destruct (IH rest ev eq_refl Hin) as (l' & Hl' & Hp').
        exists l'. split; auto. now right.
Qed.

Lemma verified_nonneg chain h expected a n e :
  unsigned_values chain ->
  verifyDepositTransaction cfg chain h expected = Verified a n ->
  parse expected = Some e ->
  0 <= round_at 6 e.
Proof.
  intros Hu Hv He.
  destruct (verify_verified _ _ _ _ _ _ Hv)
    as (value & dec & e' & Hshow & _ & He' & Heq & _).
  assert (e' = e) by congruence. subst e'.
  destruct Hshow as (receipt & cur & ev & rest & Hr & _ & _ & Hev & _ & Hval & _).
  destruct (transferEvents_parsed cfg (logs receipt) (ev :: rest) ev Hev
              (or_introl eq_refl)) as (l & Hl & Hp).
  pose proof (Hu h receipt Hr) as Hall. rewrite Forall_forall in Hall.
  apply list_elem_of_In in Hl.
  pose proof (Hall l Hl ev Hp) as Hnn. rewrite Hval in Hnn.
  apply equals_exact in Heq. cbn [coef scale] in Heq.
  pose proof (pow10_pos (scale e)). pose proof (pow10_pos dec).
  apply round_at_sign. nia.
Qed.

Lemma solvent_snoc tbl t :
  solvent tbl -> 0 <= Tx.amount t ->
  (forall c, 0 <= rawBalance tbl c + effect t c) ->
  solvent (tbl ++ [t]).
Proof.
  intros [Ha Hb] Ht Hc. split.
  - apply Forall_app. split; [exact Ha | now constructor].
  - intros c. rewrite rawBalance_snoc. apply Hc.
Qed.

Lemma solvent_insert tbl (i : nat) t t' :
  solvent tbl -> tbl !! i = Some t -> Tx.amount t' = Tx.amount t ->
  (forall c, effect t c <= effect t' c) ->
  solvent (<[i := t']> tbl).
Proof.
  intros [Ha Hb] Hi Hamt He. split.
  - apply Forall_insert; [exact Ha |]. rewrite Hamt.
    rewrite Forall_lookup in Ha. exact (Ha i t Hi).
  - intros c. rewrite (rawBalance_insert tbl i t t' c Hi).
    specialize (Hb c). specialize (He c). lia.
Qed.

Lemma effect_of r c :
  effect r c
  = if bool_decide (Tx.chatId r = c) then
      match Tx.type r, Tx.status r with
      | deposit, completed => Tx.amount r
      | deposit, _ => 0
      | _, failed => 0
      | _, _ => - Tx.amount r
      end
    else 0.
Proof. reflexivity. Qed.

(** One command keeps the ledger solvent. *)
Lemma step_solvent st a :
  table_ok (table st) -> solvent (table st) ->
  0 <= coef (withdrawalFee cfg) -> well_formed a ->
  sum_abs (table st) < 10 ^ 20 ->
  solvent (table (step isAddress int_of_text cfg adminChatId st a)).
Proof.
  intros Hok Hsol Hfee Hwf Hsum.
  assert (Hvol : forall c, volume (table st) c < 10 ^ 20)
    by (intros c; pose proof (volume_le_sum_abs (table st) c); lia).
  destruct a as
    [chatId text now k | chain chatId txHash now | w chatId command now
     | rates userFound chatId amountText fiatType
     | transactionId adminNotes now | userFound chatId transactionId words];
    cbn [step table well_formed] in *.
  - now rewrite on_deposit_table.
  - destruct (on_confirm_effect cfg chain now st chatId txHash Hok)
      as [-> | (req & a & n & e & _ & Hv & He & _ & ->)]; [exact Hsol |].
    pose proof (verified_nonneg chain txHash (amount req) a n e Hwf Hv He) as Hnn.
    apply solvent_snoc; [exact Hsol | exact Hnn |].
    intros c. rewrite effect_of. cbn [Tx.chatId Tx.type Tx.status Tx.amount].
    destruct Hsol as [_ Hb]. specialize (Hb c). destruct (bool_decide _); lia.
  - destruct (on_withdraw_effect isAddress cfg w now (table st) chatId command Hok)
      as [-> | (amount & address & a & b & t & Hcmd & Ha & Hb & Hlt & -> & Hid
                & Hty & Hc & Hamt & Hst)]; [exact Hsol |].
    destruct (parseWithdrawCommand_valid _ _ _ Hcmd) as [Hvalid _].
    pose proof (isValidAmount_pos _ _ Hvalid Ha) as Hpos.
    rewrite (getUserBalance_parse _ _ (Hvol chatId)) in Hb. injection Hb as <-.
    destruct Hsol as [Hrows Hbal].
    pose proof (Hbal chatId) as Hraw.
    pose proof (rawBalance_abs (table st) chatId) as Habs.
    specialize (Hvol chatId).
    rewrite Z.max_r in Hlt by exact Hraw.
    pose proof (check_covers_amount a (withdrawalFee cfg)
                  (rawBalance (table st) chatId) Hpos Hfee
                  ltac:(change (pow10 precision) with (10 ^ 20); lia) Hlt) as Hle.
    destruct (round_at_sign 6 a) as [_ Hnn]. specialize (Hnn ltac:(lia)).
    apply solvent_snoc; [split; assumption | lia |].
    intros c. rewrite effect_of, Hty, Hc, Hamt. specialize (Hbal c).
    destruct (bool_decide_reflect (chatId = c)) as [<- | _]; [| lia].
    destruct Hst as [-> | ->]; lia.
  - destruct (processExchangeRequest_effect rates userFound (table st) chatId
                amountText fiatType)
      as [-> | (a & b & fiat & _ & Ha & Hb & Hgt & _ & ->)]; [exact Hsol |].
    cbv zeta. cbn [fst].
    pose proof (isValidAmount_pos _ _ Hwf Ha) as Hpos.
    rewrite (getUserBalance_parse _ _ (Hvol chatId)) in Hb. injection Hb as <-.
    destruct Hsol as [Hrows Hbal].
    pose proof (Hbal chatId) as Hraw.
    rewrite Z.max_r in Hgt by exact Hraw.
    assert (Hle : round_at 6 a <= rawBalance (table st) chatId).
    { apply round_at_le_micro. unfold greaterThan in Hgt.
      destruct (cmp a _); congruence. }
    destruct (round_at_sign 6 a) as [_ Hnn]. specialize (Hnn ltac:(lia)).
    apply solvent_snoc; [split; assumption | exact Hnn |].
    intros c. rewrite effect_of. cbn [Tx.chatId Tx.type Tx.status Tx.amount].
    specialize (Hbal c).
    destruct (bool_decide_reflect (chatId = c)) as [<- | _]; lia.
  - destruct (complete_effect int_of_text now (table st) transactionId adminNotes Hok)
      as [-> | (i & t & t' & Hi & Hty & Hst & -> & H1 & H2 & H3 & H4 & H5 & _)];
      [exact Hsol |].
    cbn [fst]. apply (solvent_insert _ i t t' Hsol Hi H4).
    intros c. rewrite !effect_of, H2, H3, H4, H5, Hty, Hst.
    destruct (bool_decide _); lia.
  - destruct (reject_effect int_of_text adminChatId userFound (table st) chatId
                transactionId words Hok)
      as [-> | (i & t & t' & Hi & Hty & Hst & _ & -> & H1 & H2 & H3 & H4 & H5 & _)];
      [exact Hsol |].
    apply (solvent_insert _ i t t' Hsol Hi H4).
    intros c. rewrite !effect_of, H2, H3, H4, H5, Hty, Hst.
    destruct Hsol as [Hrows _]. rewrite Forall_lookup in Hrows.
    pose proof (Hrows i t Hi). destruct (bool_decide _); lia.
Qed.

(** The amounts of the table only accumulate. *)
Lemma step_sum_abs st a :
  table_ok (table st) ->
  sum_abs (table st)
  <= sum_abs (table (step isAddress int_of_text cfg adminChatId st a)).
Proof.
  intros Hok.
  destruct (step_effect isAddress int_of_text cfg adminChatId st a Hok)
    as [-> | [(t & -> & _) | (i & t & t' & Hi & _ & _ & -> & _ & _ & _ & Ha & _)]].
  - lia.
  - rewrite sum_abs_snoc. lia.
  - rewrite (sum_abs_insert _ i t t' Hi Ha). lia.
Qed.

Lemma run_sum_abs actions : forall st,
  table_ok (table st) ->
  sum_abs (table st)
  <= sum_abs (table (run isAddress int_of_text cfg adminChatId st actions)).
Proof.
  induction actions as [| a actions IH]; intros st Hok; [cbn; lia |].
  cbn [run fold_left].
  pose proof (step_sum_abs st a Hok).
  pose proof (IH _ (step_table_ok isAddress int_of_text cfg adminChatId st a Hok)).
  unfold run in *. lia.
Qed.

Lemma run_solvent actions : forall st,
  table_ok (table st) -> solvent (table st) ->
  0 <= coef (withdrawalFee cfg) -> Forall well_formed actions ->
  sum_abs (table (run isAddress int_of_text cfg adminChatId st actions)) < 10 ^ 20 ->
  solvent (table (run isAddress int_of_text cfg adminChatId st actions)).
Proof.
  induction actions as [| a actions IH]; intros st Hok Hsol Hfee Hwf Hsum;
    [exact Hsol |].
  inversion Hwf as [| ? ? Ha Hrest]; subst.
  cbn [run fold_left] in *.
  pose proof (step_table_ok isAddress int_of_text cfg adminChatId st a Hok) as Hok'.
  pose proof (run_sum_abs actions _ Hok') as Hmono.
  pose proof (step_sum_abs st a Hok) as Hstep.
  unfold run in *.
  apply IH; auto. apply step_solvent; auto. lia.
Qed.

End Solvency.

(* ================================================================== *)
(** * Records are permanent, accounts are separate *)
(* ================================================================== *)

Section Permanence.

Variable isAddress : string -> bool.
Variable int_of_text : string -> option Z.
Variable cfg : Config.
Variable adminChatId : string.

Lemma step_keeps_row st a (i : nat) r :
  table_ok (table st) -> table st !! i = Some r ->
  exists r',
    table (step isAddress int_of_text cfg adminChatId st a) !! i = Some r'
    /\ Tx.id r' = Tx.id r /\ Tx.type r' = Tx.type r
    /\ Tx.chatId r' = Tx.chatId r /\ Tx.amount r' = Tx.amount r
    /\ (Tx.type r <> exchange \/ Tx.status r <> pending -> r' = r).
Proof.
  intros Hok Hi.
  destruct (step_effect isAddress int_of_text cfg adminChatId st a Hok)
    as [-> | [(t & -> & _)
             | (j & t & t' & Hj & Hty & Hst & -> & H1 & H2 & H3 & H4 & _)]].
  - exists r. auto 10.
  - exists r. rewrite lookup_app_l by (eapply lookup_lt_Some; eauto). auto 10.
  - destruct (decide (j = i)) as [-> | Hne].
    + assert (t = r) by congruence. subst t. exists t'.
      rewrite list_lookup_insert_eq by (eapply lookup_lt_Some; eauto).
      repeat split; auto. intros [H | H]; contradiction.
    + exists r. rewrite list_lookup_insert_ne by exact Hne. auto 10.
Qed.

Lemma run_keeps_row actions : forall st (i : nat) r,
  table_ok (table st) -> table st !! i = Some r ->
  exists r',
    table (run isAddress int_of_text cfg adminChatId st actions) !! i = Some r'
    /\ Tx.id r' = Tx.id r /\ Tx.type r' = Tx.type r
    /\ Tx.chatId r' = Tx.chatId r /\ Tx.amount r' = Tx.amount r
    /\ (Tx.type r <> exchange \/ Tx.status r <> pending -> r' = r).
Proof.
  induction actions as [| a actions IH]; intros st i r Hok Hi.
  - exists r. auto 10.
  - cbn [run fold_left].
    destruct (step_keeps_row st a i r Hok Hi)
      as (r1 & Hi1 & E1 & E2 & E3 & E4 & E5).
    destruct (IH _ i r1 (step_table_ok isAddress int_of_text cfg adminChatId
                           st a Hok) Hi1)
      as (r2 & Hi2 & F1 & F2 & F3 & F4 & F5).
    exists r2. unfold run in *. split; [exact Hi2 |].
    repeat split; try congruence.
    intros H. assert (r1 = r) by auto. subst r1. apply F5. exact H.
Qed.

Lemma getUserBalance_other tbl t c :
  Tx.chatId t <> c -> getUserBalance (tbl ++ [t]) c = getUserBalance tbl c.
Proof.
  intros Hne. unfold getUserBalance.
  rewrite !findAll_app, !findAll_single.
  rewrite (bool_decide_eq_false_2 _ Hne). cbn [andb].
  now rewrite !app_nil_r.
Qed.

Lemma on_confirm_requests_other chain now st c c' h :
  c' <> c ->
  depositRequests (fst (on_confirm cfg chain now st c' h)) !! c
  = depositRequests st !! c.
Proof.
  intros Hne. unfold on_confirm.
  destruct (isValidTxHash h); cbn [negb]; [| reflexivity].
  destruct (depositRequests st !! c') as [req |]; [| reflexivity].
  destruct (_ <? _).
  { cbn [fst depositRequests]. now apply lookup_delete_ne. }
  destruct (verifyDepositTransaction _ _ _ _); [| reflexivity].
  destruct (numeric 6 _); [| reflexivity].
  destruct (createDeposit _ _ _). cbn [fst depositRequests].
  now apply lookup_delete_ne.
Qed.

(** A command of one account changes neither the balance nor the deposit
    intent of another. *)
Lemma step_other_account st a c c' :
  table_ok (table st) -> sent_by c' a -> c' <> c ->
  let st' := step isAddress int_of_text cfg adminChatId st a in
  getUserBalance (table st') c = getUserBalance (table st) c
  /\ depositRequests st' !! c = depositRequests st !! c.
Proof.
  intros Hok Hby Hne st'. subst st'.
  destruct a as
    [chatId text now k | chain chatId txHash now | w chatId command now
     | rates userFound chatId amountText fiatType
     | transactionId adminNotes now | userFound chatId transactionId words];
    cbn [sent_by] in Hby; try contradiction; subst chatId;
    cbn [step table depositRequests].
  - rewrite on_deposit_table. split; [reflexivity |].
    now apply on_deposit_requests.
  - split; [| now apply on_confirm_requests_other].
    destruct (on_confirm_effect cfg chain now st c' txHash Hok)
      as [-> | (req & a & n & e & _ & _ & _ & _ & ->)]; [reflexivity |].
    now apply getUserBalance_other.
  - split; [| reflexivity].
    destruct (on_withdraw_effect isAddress cfg w now (table st) c' command Hok)
      as [-> | (amount & address & a & b & t & _ & _ & _ & _ & -> & _ & _ & Hc & _)];
      [reflexivity |].
    apply getUserBalance_other. congruence.
  - split; [| reflexivity].
    destruct (processExchangeRequest_effect rates userFound (table st) c'
                amountText fiatType)
      as [-> | (a & b & fiat & _ & _ & _ & _ & _ & ->)]; [reflexivity |].
    cbv zeta. cbn [fst]. now apply getUserBalance_other.
Qed.

Lemma run_other_accounts actions : forall st c,
  table_ok (table st) ->
  Forall (fun a => exists c', sent_by c' a /\ c' <> c) actions ->
  let st' := run isAddress int_of_text cfg adminChatId st actions in
  getUserBalance (table st') c = getUserBalance (table st) c
  /\ depositRequests st' !! c = depositRequests st !! c.
Proof.
  induction actions as [| a actions IH]; intros st c Hok Hall; [split; reflexivity |].
  inversion Hall as [| ? ? (c' & Hby & Hne) Hrest]; subst.
  cbn [run fold_left].
  destruct (step_other_account st a c c' Hok Hby Hne) as [E1 E2].
  destruct (IH _ c (step_table_ok isAddress int_of_text cfg adminChatId st a Hok)
              Hrest) as [F1 F2].
  unfold run in *. cbv zeta in *. split; congruence.
Qed.

End Permanence.

(* ================================================================== *)
(** * The reported balance *)
(* ================================================================== *)

Section Reported.
Import Dec DecFacts.

Lemma toFixed_round_nonneg d :
  0 <= coef d -> toFixed 6 d = toFixed 6 (of_micro (round_at 6 d)).
Proof.
  intros Hc. destruct (round_at_sign 6 d) as [_ Hnn]. specialize (Hnn Hc).
  unfold toFixed, toFixed_chars, of_micro. cbn [coef].
  rewrite (round_at_micro (mk (round_at 6 d) 6) (round_at 6 d))
    by apply (is_micro_of_micro (round_at 6 d)).
  destruct (Z.ltb_spec (coef d) 0); [lia |].
  destruct (Z.ltb_spec (round_at 6 d) 0); [lia |]. reflexivity.
Qed.

Lemma getUserBalance_shape tbl c :
  exists m, 0 <= m
    /\ getUserBalance tbl c = toFixed 6 (of_micro m)
    /\ parse (getUserBalance tbl c) = Some (of_micro m).
Proof.
  unfold getUserBalance.
  set (balance := minus _ _). rewrite lessThan_zero.
  destruct (Z.ltb_spec (coef balance) 0) as [Hneg | Hpos].
  - exists 0. split; [lia |]. split; reflexivity.
  - exists (round_at 6 balance).
    destruct (round_at_sign 6 balance) as [_ Hnn].
    split; [auto |]. rewrite (toFixed_round_nonneg balance Hpos).
    split; [reflexivity | apply parse_toFixed_micro].
Qed.

End Reported.

(* ================================================================== *)
(** * Verification of deposits *)
(* ================================================================== *)

Section Verification.
Import Dec DecFacts.

Lemma transferEvents_null cfg ls l :
  In l ls -> parseLog l = ParseNull ->
  transferEvents cfg ls
  = Throw "Cannot read properties of null (reading 'name')".
Proof.
  induction ls as [| x ls IH]; intros Hin Hnull; [destruct Hin |].
  cbn [transferEvents]. destruct Hin as [-> | Hin].
  - now rewrite Hnull.
  - rewrite (IH Hin Hnull). destruct (parseLog x); reflexivity.
Qed.

End Verification.

(* ================================================================== *)
(** * The draws of /deposit *)
(* ================================================================== *)

Section Draws.
Import Dec DecFacts.

Lemma rne_div_spec n d :
  0 <= n -> 0 < d -> - d <= 2 * (d * Double.rne_div n d - n) <= d.
Proof.
  intros Hn Hd. unfold Double.rne_div.
  pose proof (Z_div_mod_eq_full n d). pose proof (Z.mod_pos_bound n d Hd).
  destruct (Z.compare_spec (2 * (n mod d)) d); [destruct (Z.even _) | |]; nia.
Qed.

Lemma log2_ratio_draw k :
  1 <= k < 10000 -> -14 <= Double.log2_ratio k 10000 <= -1.
Proof.
  intros Hk. unfold Double.log2_ratio, Double.ge_pow2.
  change (Z.log2 10000) with 13.
  assert (Hl : 0 <= Z.log2 k < 14).
  { split; [apply Z.log2_nonneg |].
    apply (proj1 (Z.log2_lt_pow2 k 14 ltac:(lia))).
    change (2 ^ 14) with 16384. lia. }
  destruct (Z.leb_spec (10000 * 2 ^ Z.max 0 (Z.log2 k - 13))
              (k * 2 ^ Z.max 0 (- (Z.log2 k - 13)))) as [H | H]; [| lia].
  destruct (Z.eq_dec (Z.log2 k) 13) as [E | E]; [| lia].
  exfalso. rewrite E in H. change (13 - 13) with 0 in H.
  change (Z.max 0 (- 0)) with 0 in H. change (Z.max 0 0) with 0 in H.
  change (2 ^ 0) with 1 in H. lia.
Qed.

(** The float detour of /deposit is exact: for every draw [k] below
    10000, [(k / 10000).toFixed(4)] is the four-digit rendering of
    [k / 10000]. *)
Lemma draw_renders k :
  0 <= k < 10000 ->
  Double.toFixed 4 (Double.round_to_double k 10000)
  = Some (toFixed 4 (mk k 4)).
Proof.
  intros Hk. destruct (Z.eq_dec k 0) as [-> | Hne]; [reflexivity |].
  unfold Double.round_to_double.
  destruct (Z.eqb_spec k 0) as [| _]; [lia |].
  rewrite (Z.abs_eq k) by lia.
  pose proof (log2_ratio_draw k ltac:(lia)) as Hl.
  set (l := Double.log2_ratio k 10000) in *.
  rewrite (Z.max_l (l - 52) (-1074)) by lia.
  rewrite (Z.max_r 0 (- (l - 52))) by lia. rewrite (Z.max_l 0 (l - 52)) by lia.
  change (2 ^ 0) with 1. rewrite Z.mul_1_r.
  set (E := - (l - 52)).
  assert (HE : 53 <= E <= 66) by (subst E; lia).
  assert (HD : 2 ^ 53 <= 2 ^ E) by (apply Z.pow_le_mono_r; lia).
  assert (HD' : 2 ^ 52 <= 2 ^ (E - 1)) by (apply Z.pow_le_mono_r; lia).
  assert (HDD : 2 ^ E = 2 * 2 ^ (E - 1)).
  { replace E with (Z.succ (E - 1)) at 1 by lia. apply Z.pow_succ_r. lia. }
  change (2 ^ 53) with 9007199254740992 in *.
  change (2 ^ 52) with 4503599627370496 in *.
  pose proof (rne_div_spec (k * 2 ^ E) 10000 ltac:(nia) ltac:(lia)) as Hm.
  set (m := Double.rne_div (k * 2 ^ E) 10000) in *.
  rewrite Z.sgn_pos by lia.
  assert (Hgoal : forall M F,
            0 < M -> F < 0 -> 52 <= - F ->
            - 10000 <= 2 * (10000 * M - k * 2 ^ (- F)) <= 10000 ->
            Double.toFixed 4 (Double.Finite M F) = Some (toFixed 4 (mk k 4))).
  { intros M F HM HF HF' HMk.
    assert (HP : 4503599627370496 <= 2 ^ (- F))
      by (change 4503599627370496 with (2 ^ 52); apply Z.pow_le_mono_r; lia).
    unfold Double.toFixed.
    rewrite (Z.abs_eq M) by lia.
    rewrite (Z.max_r 0 (- F)) by lia. rewrite (Z.max_l 0 F) by lia.
    change (2 ^ 0) with 1. rewrite !Z.mul_1_r.
    set (D := 2 ^ (- F)) in *.
    destruct (Z.leb_spec (10 ^ 21 * D) M) as [Hbig | _].
    { exfalso. change (10 ^ 21) with 1000000000000000000000 in Hbig. nia. }
    change (pow10 4) with 10000.
    pose proof (half_up_div_spec (M * 10000) D ltac:(lia) ltac:(lia)) as Hn.
    set (n := half_up_div (M * 10000) D) in *.
    assert (n = k) as -> by nia.
    destruct (Z.ltb_spec M 0); [lia |].
    unfold toFixed, toFixed_chars, round_at. cbn [coef scale].
    change (4 <=? 4)%nat with true. cbv iota.
    change (pow10 (4 - 4)) with 1. rewrite Z.mul_1_r, (Z.abs_eq k) by lia.
    destruct (Z.ltb_spec k 0); [lia |]. reflexivity. }
  destruct (Z.eqb_spec m 9007199254740992) as [Hm53 | Hm53].
  - destruct (Z.ltb_spec 971 (l - 52 + 1)); [lia |].
    rewrite Z.mul_1_l.
    apply Hgoal; [lia | lia | lia |].
    replace (- (l - 52 + 1)) with (E - 1) by (subst E; lia). lia.
  - destruct (Z.ltb_spec 971 (l - 52)); [lia |].
    rewrite Z.mul_1_l.
    apply Hgoal; [nia | lia | lia |].
    replace (- (l - 52)) with E by (subst E; lia). lia.
Qed.

End Draws.

(* ================================================================== *)
(** * The requests of a withdrawal *)
(* ================================================================== *)

Section Requests.

Ltac run_open :=
  cbv beta iota zeta delta
    [processWithdrawal processWithdrawal_try failure_of bind assign
     saveInstance call compute instance ret run_table run_tx run_log app
     transfer_request].

Ltac row_simpl :=
  cbn [fst snd run_table run_tx run_log app Tx.id Tx.type Tx.chatId Tx.amount
       Tx.status Tx.adminNotes Tx.txHash Tx.completedAt Tx.confirmations
       Tx.walletAddress Tx.set_status Tx.set_txHash Tx.set_completedAt
       Tx.set_confirmations Tx.set_adminNotes List.filter is_transfer].

Ltac answers w :=
  destruct (parseTokenAmount w) as [amt | m1];
  [ destruct (getFeeData w) as [fees | m2];
    [ destruct (estimateGas w) as [gas | m3];
      [ destruct (gasLimit w gas) as [lim | m4];
        [ destruct (transfer w) as [hash | m5];
          [ destruct (wait w) as [[] | m6] | ] | ] | ] | ] | ];
  row_simpl.

(** The requests for a transfer in the events of a run, and what the row
    records of it. *)
Lemma processWithdrawal_requests w now tbl t :
  let p := processWithdrawal w now tbl t in
  match transfer_request w t with
  | None =>
      List.filter is_transfer (run_log (fst p)) = []
      /\ Tx.status (run_tx (fst p)) = failed
      /\ Tx.txHash (run_tx (fst p)) = Tx.txHash t
  | Some c =>
      List.filter is_transfer (run_log (fst p)) = [Called c]
      /\ match transfer w with
         | Throw m =>
             snd p = WithdrawalError m
             /\ Tx.txHash (run_tx (fst p)) = Tx.txHash t
         | Ok h =>
             Tx.txHash (run_tx (fst p)) = Some h
             /\ exists pre post,
                  run_log (fst p)
                  = pre
                    ++ [Called c;
                        Saved (Tx.set_txHash h (Tx.set_status processing t));
                        Called (CallWait h)]
                    ++ post
         end
  end.
Proof.
  intros p. subst p.
  remember (processWithdrawal w now tbl t) as p eqn:Hp.
  revert Hp. run_open. answers w; intros ->; row_simpl; auto.
  all: split; [reflexivity |]; split; [reflexivity |].
  all: eexists [_; _; _; _], [_]; reflexivity.
Qed.

End Requests.

(* ================================================================== *)
(** * Deposit intents *)
(* ================================================================== *)

Section Intents.
Import Dec DecFacts.

Lemma parse_draw k : 0 <= k < 10000 -> parse (toFixed 4 (mk k 4)) = Some (mk k 4).
Proof.
  intros Hk. rewrite (parse_toFixed 3). unfold round_at. cbn [coef scale].
  change (4 <=? 4)%nat with true. cbv iota.
  change (pow10 (4 - 4)) with 1. now rewrite Z.mul_1_r.
Qed.

Lemma on_deposit_drawn now k st c text base :
  0 <= k < 10000 -> parse (depositBase text) = Some base ->
  on_deposit now k st c text
  = (let depositAmount := toFixed 6 (plus base (mk k 4)) in
     (Build_State
        (<[c := Build_DepositRequest depositAmount now]> (depositRequests st))
        (table st),
      DepositInstructions depositAmount)).
Proof.
  intros Hk Hb. unfold on_deposit.
  rewrite (draw_renders k Hk), Hb, (parse_draw k Hk). reflexivity.
Qed.

Lemma is_micro_draw k : is_micro (mk k 4) (100 * k).
Proof. split; [cbn; lia |]. cbn [coef scale]. change (pow10 (6 - 4)) with 100. lia. Qed.

End Intents.

(* ================================================================== *)
(** * Decisions on exchanges *)
(* ================================================================== *)

Section Decided.
Import Dec DecFacts.

Variable int_of_text : string -> option Z.
Variable adminChatId : string.

Lemma findByPk_key tbl transactionId t :
  findByPk int_of_text tbl transactionId = Row t ->
  int_of_text transactionId = Some (Tx.id t).
Proof.
  unfold findByPk. destruct (int_of_text transactionId) as [k |]; [| discriminate].
  destruct (List.find _ tbl) as [r |] eqn:Hf; [| discriminate].
  intros H. injection H as <-.
  apply List.find_some in Hf. destruct Hf as [_ Hk].
  apply Z.eqb_eq in Hk. now rewrite Hk.
Qed.

(** A row that is no longer Pending cannot be decided on, whatever text
    names its key. *)
Lemma settled_not_decidable tbl (i : nat) t' transactionId :
  table_ok tbl -> tbl !! i = Some t' -> Tx.status t' <> pending ->
  int_of_text transactionId = Some (Tx.id t') ->
  forall r, ~ decidable_exchange int_of_text tbl transactionId r.
Proof.
  intros Hok Hi Hst Hk r (Hf & _ & Hpend).
  pose proof (findByPk_key _ _ _ Hf) as Hk'.
  destruct (findByPk_row int_of_text _ _ _ Hf) as [j Hj].
  assert (j = i)
    by (apply (table_ok_inj tbl j i r t' Hok Hj Hi); congruence).
  subst j. congruence.
Qed.

Lemma complete_at now tbl transactionId adminNotes t :
  table_ok tbl ->
  decidable_exchange int_of_text tbl transactionId t ->
  exists (i : nat) t',
    tbl !! i = Some t
    /\ completeExchangeTransaction int_of_text now tbl transactionId adminNotes
       = (<[i := t']> tbl, DecisionOk t')
    /\ Tx.id t' = Tx.id t /\ Tx.chatId t' = Tx.chatId t
    /\ Tx.type t' = Tx.type t /\ Tx.amount t' = Tx.amount t
    /\ Tx.status t' = completed.
Proof.
  intros Hok Hdec.
  destruct (findByPk_row int_of_text _ _ _ (proj1 Hdec)) as [i Hi].
  rewrite (complete_acts int_of_text now tbl transactionId adminNotes t Hdec).
  cbv zeta.
  set (t' := if String.eqb adminNotes "" then _ else _).
  assert (Ht' : Tx.id t' = Tx.id t /\ Tx.chatId t' = Tx.chatId t
                /\ Tx.type t' = Tx.type t /\ Tx.amount t' = Tx.amount t
                /\ Tx.status t' = completed)
    by (subst t'; destruct (String.eqb adminNotes ""); cbn; auto 10).
  exists i, t'. rewrite (save_insert tbl i t t' Hok Hi) by apply Ht'.
  destruct Ht' as (? & ? & ? & ? & ?). auto 10.
Qed.

Lemma reject_at userFound tbl transactionId words t :
  table_ok tbl ->
  decidable_exchange int_of_text tbl transactionId t ->
  exists (i : nat) t',
    tbl !! i = Some t
    /\ fst (on_reject_exchange int_of_text adminChatId userFound tbl
              adminChatId transactionId words) = <[i := t']> tbl
    /\ Tx.id t' = Tx.id t /\ Tx.chatId t' = Tx.chatId t
    /\ Tx.type t' = Tx.type t /\ Tx.amount t' = Tx.amount t
    /\ Tx.status t' = failed.
Proof.
  intros Hok Hdec.
  destruct (findByPk_row int_of_text _ _ _ (proj1 Hdec)) as [i Hi].
  rewrite (reject_acts int_of_text adminChatId userFound tbl transactionId
             words t Hdec).
  cbv zeta. cbn [fst]. set (t' := Tx.set_adminNotes _ _).
  exists i, t'. rewrite (save_insert tbl i t t' Hok Hi) by reflexivity.
  repeat split; auto.
Qed.

Lemma total_amounts rows1 rows2 :
  List.map Tx.amount rows1 = List.map Tx.amount rows2 ->
  total rows1 = total rows2.
Proof.
  unfold total. generalize zero.
  revert rows2. induction rows1 as [| r rows1 IH]; intros [| r' rows2] acc H;
    try discriminate; [reflexivity |].
  cbn in H. injection H as Ha Hrest. cbn [fold_left]. rewrite Ha.
  now apply IH.
Qed.

(** Completing a Pending exchange changes no computed balance. *)
Lemma getUserBalance_completed tbl (i : nat) t t' c :
  tbl !! i = Some t -> Tx.type t = exchange -> Tx.status t = pending ->
  Tx.type t' = exchange -> Tx.status t' = completed ->
  Tx.chatId t' = Tx.chatId t -> Tx.amount t' = Tx.amount t ->
  getUserBalance (<[i := t']> tbl) c = getUserBalance tbl c.
Proof.
  intros Hi Hty Hst Hty' Hst' Hc Ha.
  destruct (insert_middle tbl i t t' Hi) as [E1 E2].
  transitivity (getUserBalance (take i tbl ++ t :: drop (S i) tbl) c);
    [| now rewrite <- E1].
  rewrite E2. clear E1 E2. unfold getUserBalance.
  change (t' :: drop (S i) tbl) with ([t'] ++ drop (S i) tbl).
  change (t :: drop (S i) tbl) with ([t] ++ drop (S i) tbl).
  rewrite !findAll_app, !findAll_single.
  rewrite Hty, Hst, Hty', Hst', Hc.
  destruct (bool_decide (Tx.chatId t = c)); cbn [andb]; [| reflexivity].
  assert (D1 : bool_decide (exchange = deposit) = false) by reflexivity.
  assert (D2 : bool_decide (exchange = withdrawal) = false) by reflexivity.
  assert (D3 : bool_decide (exchange = exchange) = true) by reflexivity.
  assert (D4 : bool_decide (completed ∈ [completed; pending; processing]) = true)
    by (vm_compute; reflexivity).
  assert (D5 : bool_decide (pending ∈ [completed; pending; processing]) = true)
    by (vm_compute; reflexivity).
  rewrite D1, D2, D3, D4, D5. cbn [andb app].
  match goal with
  | |- context [total (?A ++ t' :: ?B)] =>
      rewrite (total_amounts (A ++ t' :: B) (A ++ t :: B))
        by (rewrite !map_app; cbn [List.map]; now rewrite Ha)
  end.
  reflexivity.
Qed.

End Decided.

(* ================================================================== *)
(** * The replies of /withdraw *)
(* ================================================================== *)

Section WithdrawReplies.
Import Dec DecFacts.

Variable isAddress : string -> bool.
Variable cfg : Config.

Lemma getUserBalance_failed tbl t c :
  Tx.status t = failed -> getUserBalance (tbl ++ [t]) c = getUserBalance tbl c.
Proof.
  intros Hst. unfold getUserBalance.
  rewrite !findAll_app, !findAll_single, Hst.
  assert (D1 : bool_decide (failed ∈ [completed]) = false)
    by (vm_compute; reflexivity).
  assert (D2 : bool_decide (failed ∈ [completed; pending; processing]) = false)
    by (vm_compute; reflexivity).
  rewrite D1, D2, !andb_false_r. now rewrite !app_nil_r.
Qed.

(** A reply that tells of a run comes from the run on the row the handler
    created. *)
Lemma on_withdraw_ran w now tbl c command :
  let r := on_withdraw isAddress cfg w now tbl c command in
  (exists e, snd (fst r) = WithdrawalFailed e)
  \/ (exists h bal, snd (fst r) = WithdrawalSuccessful h bal) ->
  exists amount address a fee,
    parseWithdrawCommand isAddress command = Some (amount, address)
    /\ parse amount = Some a
    /\ numeric_of 6 (withdrawalFee cfg) = Some fee
    /\ let t0 := Tx.mk (next_id tbl) withdrawal c (round_at 6 a) None None
                       (Some address) None pending None (Some fee) None None in
       let p := processWithdrawal w now (tbl ++ [t0]) t0 in
       fst (fst r) = run_table (fst p)
       /\ snd r = run_log (fst p)
       /\ snd (fst r)
          = match snd p with
            | WithdrawalError error => WithdrawalFailed error
            | WithdrawalOk txHash =>
                WithdrawalSuccessful txHash
                  (getUserBalance (run_table (fst p)) c)
            end.
Proof.
  intros r. subst r. unfold on_withdraw.
  destruct (parseWithdrawCommand isAddress command) as [[amount address] |]
    eqn:Hcmd; [| intros [[e H] | (h & bal & H)]; discriminate H].
  destruct (parse amount) as [a |] eqn:Ha;
    [| intros [[e H] | (h & bal & H)]; discriminate H].
  destruct (parse (getUserBalance tbl c)) as [b |] eqn:Hb;
    [| intros [[e H] | (h & bal & H)]; discriminate H].
  destruct (lessThan b _) eqn:Hlt;
    [intros [[e H] | (h & bal & H)]; discriminate H |].
  destruct (numeric_of 6 a) as [amt |] eqn:Hamt;
    [| intros [[e H] | (h & bal & H)]; discriminate H].
  assert (amt = round_at 6 a) as ->
    by (unfold numeric_of in Hamt; destruct (_ <? _); congruence).
  destruct (numeric_of 6 (withdrawalFee cfg)) as [fee |] eqn:Hfee;
    [| intros [[e H] | (h & bal & H)]; discriminate H].
  intros _. exists amount, address, a, fee.
  split; [first [reflexivity | assumption] |].
  split; [first [reflexivity | assumption] |].
  split; [first [reflexivity | assumption] |].
  unfold createWithdrawal, create. cbv zeta.
  destruct (processWithdrawal w now _ _) as [s res].
  destruct res; cbn [fst snd]; auto.
Qed.

End WithdrawReplies.

(* ================================================================== *)
(** * Properties of the ledger *)
(* ================================================================== *)

Lemma ledger_example_ok : table_ok ledger_example.
Proof.
  intros i r H.
  do 6 (destruct i as [| i]; [cbn in H; injection H as <-; reflexivity |]).
  destruct i; discriminate H.
Qed.

Lemma sample_chain_unsigned value confirmations :
  0 <= value -> unsigned_values (sample_chain value confirmations).
Proof.
  intros Hv h receipt H. cbn in H. injection H as <-. cbn [logs].
  constructor; [| constructor]. intros d Hd. cbn in Hd. injection Hd as <-.
  exact Hv.
Qed.

Section InFlight.
Import Dec DecFacts.

Variable isAddress : string -> bool.
Variable int_of_text : string -> option Z.
Variable cfg : Config.
Variable adminChatId : string.

(** The handler is its check followed at once by what comes after it. *)
Lemma on_withdraw_in_two w now tbl c command :
  on_withdraw isAddress cfg w now tbl c command
  = match withdraw_check isAddress cfg tbl c command with
    | CheckAnswered reply => (tbl, reply, [])
    | CheckPassed a address => withdraw_settle cfg w now tbl c a address
    end.
Proof.
  unfold on_withdraw, withdraw_check, withdraw_settle.
  destruct (parseWithdrawCommand isAddress command) as [[amount address] |];
    [| reflexivity].
  cbv zeta.
  destruct (parse amount) as [a |]; [| reflexivity].
  destruct (parse (getUserBalance tbl c)) as [b |]; [| reflexivity].
  destruct (lessThan b _); reflexivity.
Qed.

Lemma processExchangeRequest_in_two rates userFound tbl c amount fiatType :
  processExchangeRequest rates userFound tbl c amount fiatType
  = match exchange_check userFound tbl c amount with
    | ExchangeAnswered result => (tbl, result)
    | ExchangePassed a => exchange_settle rates tbl c a fiatType
    end.
Proof.
  unfold processExchangeRequest, exchange_check, exchange_settle.
  destruct userFound; cbn [negb]; [| reflexivity].
  cbv zeta.
  destruct (parse amount) as [a |]; [| reflexivity].
  destruct (parse (getUserBalance tbl c)) as [b |]; [| reflexivity].
  destruct (greaterThan a b); reflexivity.
Qed.

(** A handler that goes on right after its check does what the whole
    handler does. *)
Lemma check_settle st a f :
  check isAddress cfg st a = Some f ->
  settle cfg st f = step isAddress int_of_text cfg adminChatId st a.
Proof.
  destruct a as
    [chatId text now k | chain chatId txHash now | w chatId command now
     | rates userFound chatId amountText fiatType
     | transactionId adminNotes now | userFound chatId transactionId words];
    cbn [check step]; try discriminate.
  - rewrite on_withdraw_in_two.
    destruct (withdraw_check _ _ _ _ _) as [reply | a address];
      [discriminate |].
    intros H. injection H as <-. reflexivity.
  - rewrite processExchangeRequest_in_two.
    destruct (exchange_check _ _ _ _) as [result | a]; [discriminate |].
    intros H. injection H as <-. reflexivity.
Qed.

(** Moves made one at a time are a sequence of whole commands. *)
Lemma play_one_at_a_time moves : forall p,
  (in_flight p = []
   \/ exists a f, in_flight p = [f] /\ well_formed a
        /\ settle cfg (play_state p) f
           = step isAddress int_of_text cfg adminChatId (play_state p) a) ->
  Forall well_formed (commands moves) ->
  one_at_a_time isAddress int_of_text cfg adminChatId p moves ->
  exists actions,
    Forall well_formed actions
    /\ play_state (play isAddress int_of_text cfg adminChatId p moves)
       = run isAddress int_of_text cfg adminChatId (play_state p) actions.
Proof.
  induction moves as [| m moves IH]; intros p Hinv Hwf Hone.
  - exists []. split; [constructor | reflexivity].
  - cbn [one_at_a_time] in Hone. destruct Hone as [Hm Hone].
    change (play isAddress int_of_text cfg adminChatId p (m :: moves))
      with (play isAddress int_of_text cfg adminChatId
              (move isAddress int_of_text cfg adminChatId p m) moves).
    destruct m as [a | a | n].
    + (* a whole handler *)
      destruct Hm as [Hnone | Hm]; [| discriminate Hm].
      cbn [commands flat_map app] in Hwf. inversion Hwf as [| ? ? Ha Hrest]; subst.
      destruct (IH (move isAddress int_of_text cfg adminChatId p (Handle a)))
        as (actions & Hact & E); [left; exact Hnone | exact Hrest | exact Hone |].
      exists (a :: actions). split; [now constructor | exact E].
    + (* a check *)
      destruct Hm as [Hnone | Hm]; [| discriminate Hm].
      cbn [commands flat_map app] in Hwf. inversion Hwf as [| ? ? Ha Hrest]; subst.
      assert (Hwhole :
        in_flight (move isAddress int_of_text cfg adminChatId p (Check a)) = []
        -> play_state (move isAddress int_of_text cfg adminChatId p (Check a))
           = step isAddress int_of_text cfg adminChatId (play_state p) a
        -> exists actions,
             Forall well_formed actions
             /\ play_state (play isAddress int_of_text cfg adminChatId
                              (move isAddress int_of_text cfg adminChatId p
                                 (Check a)) moves)
                = run isAddress int_of_text cfg adminChatId (play_state p)
                    actions).
      { intros Hfl Hst.
        destruct (IH (move isAddress int_of_text cfg adminChatId p (Check a)))
          as (actions & Hact & E); [left; exact Hfl | exact Hrest | exact Hone |].
        exists (a :: actions). split; [now constructor |].
        rewrite E, Hst. reflexivity. }
      assert (Hsplit :
        play_state (move isAddress int_of_text cfg adminChatId p (Check a))
          = play_state p ->
        in_flight (move isAddress int_of_text cfg adminChatId p (Check a))
          = match check isAddress cfg (play_state p) a with
            | Some f => [f]
            | None => []
            end ->
        exists actions,
          Forall well_formed actions
          /\ play_state (play isAddress int_of_text cfg adminChatId
                           (move isAddress int_of_text cfg adminChatId p
                              (Check a)) moves)
             = run isAddress int_of_text cfg adminChatId (play_state p)
                 actions).
      { intros Hst Hfl.
        destruct (IH (move isAddress int_of_text cfg adminChatId p (Check a)))
          as (actions & Hact & E); [| exact Hrest | exact Hone |].
        - rewrite Hfl, Hst.
          destruct (check isAddress cfg (play_state p) a) as [f |] eqn:Hc;
            [| now left].
          right. exists a, f. split; [reflexivity |]. split; [exact Ha |].
          now apply check_settle.
        - exists actions. split; [exact Hact |]. rewrite E, Hst. reflexivity. }
      destruct a; cbn [move play_state in_flight] in *;
        first [ apply Hwhole; [exact Hnone | reflexivity]
              | apply Hsplit; [reflexivity | now rewrite Hnone] ].
    + (* a handler in flight goes on *)
      cbn [commands flat_map app] in Hwf.
      destruct Hinv as [Hnone | (a & f & Hfl & Ha & Hs)].
      * destruct (IH (move isAddress int_of_text cfg adminChatId p (Settle n)))
          as (actions & Hact & E); [| exact Hwf | exact Hone |].
        -- left. cbn [move]. rewrite Hnone. now destruct n.
        -- exists actions. split; [exact Hact |]. rewrite E. cbn [move].
           rewrite Hnone. now destruct n.
      * destruct Hm as [Hnone | Hm]; [congruence |]. injection Hm as ->.
        destruct (IH (move isAddress int_of_text cfg adminChatId p (Settle 0)))
          as (actions & Hact & E); [| exact Hwf | exact Hone |].
        -- left. cbn [move]. rewrite Hfl. reflexivity.
        -- exists (a :: actions). split; [now constructor |].
           rewrite E. cbn [move]. rewrite Hfl. cbn [lookup list_lookup play_state].
           rewrite Hs. reflexivity.
Qed.

(** What follows a passed check of the exchange service: one Pending
    exchange of the account is appended, for the amount as rounded into
    its column, whatever the balance has become. *)
Lemma exchange_settle_created rates tbl c a fiatType amt cents :
  numeric_of 6 a = Some amt ->
  numeric 2 (exchangeFiatAmount rates a fiatType) = Some cents ->
  fst (exchange_settle rates tbl c a fiatType)
  = tbl ++ [Tx.mk (next_id tbl) exchange c amt (Some cents) (Some fiatType)
                  None None pending None None None None].
Proof.
  intros Ha Hc. unfold exchange_settle. cbv zeta. rewrite Ha, Hc. reflexivity.
Qed.

End InFlight.

(** X1.  Solvency, for handlers that run one at a time.  Along every
    sequence of moves of the scheduler in which no handler starts or goes
    on while another is between its balance check and its end, with a fee
    that is not negative, chains that report unsigned values and exchange
    requests that passed the amount validator: as long as the amounts of
    the table total fewer than 10^20 millionths, no row carries a negative
    amount and no account is overdrawn, that is, for every account the sum
    of its completed deposits is at least the sum of its withdrawals and
    exchanges that are Completed, Processing or Pending.  The check of
    /withdraw and of the exchange service compares rounded Decimal values;
    the amount as it is stored never exceeds the balance all the same.
    The code has no lock and no transaction that would keep the handlers
    apart; X25 states what happens otherwise. *)
Theorem ledger_stays_solvent (isAddress : string -> bool)
    (int_of_text : string -> option Z) (cfg : Config) (adminChatId : string)
    (st : State) (moves : list Move) :
  table_ok (table st) -> solvent (table st) ->
  0 <= Dec.coef (withdrawalFee cfg) ->
  Forall well_formed (commands moves) ->
  one_at_a_time isAddress int_of_text cfg adminChatId (Build_Play st []) moves ->
  sum_abs
    (table (play_state (play isAddress int_of_text cfg adminChatId
                          (Build_Play st []) moves)))
  < 10 ^ 20 ->
  solvent
    (table (play_state (play isAddress int_of_text cfg adminChatId
                          (Build_Play st []) moves))).
Proof.
  intros Hok Hsol Hfee Hwf Hone.
  destruct (play_one_at_a_time isAddress int_of_text cfg adminChatId moves
              (Build_Play st []) (or_introl eq_refl) Hwf Hone)
    as (actions & Hact & ->).
  cbn [play_state]. intros Hsum. now apply run_solvent.
Qed.

Lemma ledger_stays_solvent_witness :
  solvent
    (table (play_state
              (play (fun _ => true) decimal_key sample_cfg "admin"
                 (Build_Play (Build_State ∅ (funded 50400000)) [])
                 one_after_the_other))).
Proof.
  apply ledger_stays_solvent.
  - intros i r H. destruct i as [| i]; [| destruct i; discriminate H].
    cbn in H. injection H as <-. reflexivity.
  - cbn [table]. split; [repeat constructor; cbn; lia |].
    intros c. unfold funded. rewrite rawBalance_single, effect_of.
    cbn [Tx.chatId Tx.type Tx.status Tx.amount].
    destruct (bool_decide _); lia.
  - cbn. lia.
  - repeat constructor; vm_compute; reflexivity.
  - vm_compute. repeat split; first [left; reflexivity | right; reflexivity].
  - vm_compute. reflexivity.
Defined.

(** X25.  Two requests in flight overdraw the account.  When the
    exchange service has checked the balance for two requests of an
    account before it has created the row of either, both requests are
    recorded as Pending exchanges, each for its amount as rounded into its
    column: the balance rule of the account ends lower by both amounts,
    whatever the balance was, so that two requests the balance covers one
    at a time but not together leave the account overdrawn. *)
Theorem requests_in_flight_overdraw (isAddress : string -> bool)
    (int_of_text : string -> option Z) (cfg : Config) (adminChatId : string)
    (st : State) (c : string) (rates1 rates2 : ExchangeRates)
    (amount1 amount2 fiatType1 fiatType2 : string) (a1 a2 : Dec.Decimal)
    (amt1 amt2 cents1 cents2 : Z) :
  exchange_check true (table st) c amount1 = ExchangePassed a1 ->
  exchange_check true (table st) c amount2 = ExchangePassed a2 ->
  numeric_of 6 a1 = Some amt1 -> numeric_of 6 a2 = Some amt2 ->
  numeric 2 (exchangeFiatAmount rates1 a1 fiatType1) = Some cents1 ->
  numeric 2 (exchangeFiatAmount rates2 a2 fiatType2) = Some cents2 ->
  let final :=
    play isAddress int_of_text cfg adminChatId (Build_Play st [])
      [ Check (AExchange rates1 true c amount1 fiatType1);
        Check (AExchange rates2 true c amount2 fiatType2);
        Settle 0; Settle 0 ] in
  in_flight final = []
  /\ table (play_state final)
     = table st
       ++ [ Tx.mk (next_id (table st)) exchange c amt1 (Some cents1)
                  (Some fiatType1) None None pending None None None None;
            Tx.mk (next_id (table st) + 1) exchange c amt2 (Some cents2)
                  (Some fiatType2) None None pending None None None None ]
  /\ rawBalance (table (play_state final)) c
     = rawBalance (table st) c - amt1 - amt2
  /\ (rawBalance (table st) c < amt1 + amt2 ->
      ~ solvent (table (play_state final))).
Proof.
  intros H1 H2 Ha1 Ha2 Hc1 Hc2 final.
  assert (E : final
              = Build_Play
                  (settle cfg
                     (settle cfg st (Exchanging rates1 c a1 fiatType1))
                     (Exchanging rates2 c a2 fiatType2)) []).
  { subst final. cbn [play fold_left move check play_state in_flight app].
    rewrite H1, H2. reflexivity. }
  rewrite E. cbn [in_flight play_state settle table].
  rewrite (exchange_settle_created rates1 (table st) c a1 fiatType1 amt1 cents1
             Ha1 Hc1).
  rewrite (exchange_settle_created rates2 _ c a2 fiatType2 amt2 cents2 Ha2 Hc2).
  assert (Hid : next_id (table st ++ [Tx.mk (next_id (table st)) exchange c amt1
                                        (Some cents1) (Some fiatType1) None
                                        None pending None None None None])
                = next_id (table st) + 1).
  { unfold next_id. rewrite length_app. cbn [length]. lia. }
  rewrite Hid, <- app_assoc. cbn [app].
  set (t1 := Tx.mk (next_id (table st)) _ _ _ _ _ _ _ _ _ _ _ _).
  set (t2 := Tx.mk (next_id (table st) + 1) _ _ _ _ _ _ _ _ _ _ _ _).
  assert (Hraw : rawBalance (table st ++ [t1; t2]) c
                 = rawBalance (table st) c - amt1 - amt2).
  { change [t1; t2] with ([t1] ++ [t2]). rewrite app_assoc, !rawBalance_snoc.
    rewrite !effect_of. subst t1 t2.
    cbn [Tx.chatId Tx.type Tx.status Tx.amount].
    rewrite bool_decide_eq_true_2 by reflexivity. lia. }
  split; [reflexivity |]. split; [reflexivity |]. split; [exact Hraw |].
  intros Hlt [_ Hbal]. specialize (Hbal c). lia.
Qed.

Lemma requests_in_flight_overdraw_witness :
  let st := Build_State ∅ (funded 50400000) in
  let final :=
    play (fun _ => true) decimal_key sample_cfg "admin" (Build_Play st [])
      both_in_flight in
  let apart :=
    play (fun _ => true) decimal_key sample_cfg "admin" (Build_Play st [])
      [Check exchange_30; Settle 0; Check exchange_30; Settle 0] in
  rawBalance (table st) "alice" = 50400000
  /\ rawBalance (table (play_state final)) "alice" = -9600000
  /\ ~ solvent (table (play_state final))
  /\ rawBalance (table (play_state apart)) "alice" = 20400000.
Proof.
  intros st final apart.
  destruct (requests_in_flight_overdraw (fun _ => true) decimal_key
              sample_cfg "admin" st "alice"
              {| rateUSD := 1000000; rateUAH := 39500000 |}
              {| rateUSD := 1000000; rateUAH := 39500000 |}
              "30" "30" "USD" "USD" (Dec.mk 30 0) (Dec.mk 30 0)
              30000000 30000000 3000 3000)
    as (_ & _ & Hraw & Hnot).
  - vm_compute. reflexivity.
  - vm_compute. reflexivity.
  - reflexivity.
  - reflexivity.
  - vm_compute. reflexivity.
  - vm_compute. reflexivity.
  - assert (H0 : rawBalance (table st) "alice" = 50400000)
      by (vm_compute; reflexivity).
    split; [exact H0 |].
    split; [etransitivity; [exact Hraw | rewrite H0; reflexivity] |].
    split; [apply Hnot; rewrite H0; lia |].
    vm_compute. reflexivity.
Defined.

Section Fields.

Variable isAddress : string -> bool.
Variable int_of_text : string -> option Z.
Variable cfg : Config.
Variable adminChatId : string.

Lemma same_record_refl r : same_record r r.
Proof. repeat split. Qed.

Lemma same_record_trans r1 r2 r3 :
  same_record r1 r2 -> same_record r2 r3 -> same_record r1 r3.
Proof. unfold same_record. intuition congruence. Qed.

(** A decision rewrites the row it found, at its place, and assigns only
    the status, the completion time and the notes. *)
Lemma complete_fields now tbl transactionId adminNotes :
  table_ok tbl ->
  fst (completeExchangeTransaction int_of_text now tbl transactionId adminNotes)
  = tbl
  \/ exists (i : nat) t t',
       tbl !! i = Some t /\ same_record t t'
       /\ fst (completeExchangeTransaction int_of_text now tbl transactionId
                 adminNotes)
          = <[i := t']> tbl.
Proof.
  intros Hok.
  destruct (findByPk int_of_text tbl transactionId) as [t | | m] eqn:Hf.
  2, 3: left; unfold completeExchangeTransaction; now rewrite Hf.
  destruct (decide (Tx.type t = exchange)) as [Hty | Hty].
  2:{ left. unfold completeExchangeTransaction.
      now rewrite Hf, (bool_decide_eq_false_2 _ Hty). }
  destruct (decide (Tx.status t = pending)) as [Hst | Hst].
  2:{ left. unfold completeExchangeTransaction.
      now rewrite Hf, (bool_decide_eq_true_2 _ Hty), (bool_decide_eq_false_2 _ Hst). }
  right. destruct (findByPk_row int_of_text tbl transactionId t Hf) as [i Hi].
  rewrite (complete_acts int_of_text now tbl transactionId adminNotes t)
    by (repeat split; assumption).
  cbv zeta. cbn [fst].
  set (t' := if String.eqb adminNotes "" then _ else _).
  assert (Ht' : same_record t t')
    by (subst t'; destruct (String.eqb adminNotes ""); repeat split).
  exists i, t, t'. rewrite (save_insert tbl i t t' Hok Hi) by apply Ht'.
  auto.
Qed.

Lemma reject_fields userFound tbl chatId transactionId words :
  table_ok tbl ->
  fst (on_reject_exchange int_of_text adminChatId userFound tbl chatId
         transactionId words) = tbl
  \/ exists (i : nat) t t',
       tbl !! i = Some t /\ same_record t t'
       /\ fst (on_reject_exchange int_of_text adminChatId userFound tbl chatId
                 transactionId words) = <[i := t']> tbl.
Proof.
  intros Hok.
  destruct (String.eqb_spec chatId adminChatId) as [-> | Hne].
  2:{ left. apply reject_refuses. now left. }
  destruct (findByPk int_of_text tbl transactionId) as [t | | m] eqn:Hf.
  2, 3: left; apply reject_refuses; right; intros t (Hf' & _); congruence.
  destruct (decide (Tx.type t = exchange)) as [Hty | Hty].
  2:{ left. apply reject_refuses. right. intros t0 (Hf' & Hty' & _). congruence. }
  destruct (decide (Tx.status t = pending)) as [Hst | Hst].
  2:{ left. apply reject_refuses. right. intros t0 (Hf' & _ & Hst'). congruence. }
  right. destruct (findByPk_row int_of_text tbl transactionId t Hf) as [i Hi].
  rewrite (reject_acts int_of_text adminChatId userFound tbl transactionId words t)
    by (repeat split; assumption).
  cbv zeta. cbn [fst].
  set (t' := Tx.set_adminNotes _ _).
  exists i, t, t'. rewrite (save_insert tbl i t t' Hok Hi) by reflexivity.
  split; [exact Hi | split; [repeat split | reflexivity]].
Qed.

(** Every command leaves each row at its place, with the fields it was
    created with. *)
Lemma step_keeps_fields st a (i : nat) r :
  table_ok (table st) -> table st !! i = Some r ->
  exists r',
    table (step isAddress int_of_text cfg adminChatId st a) !! i = Some r'
    /\ same_record r r'.
Proof.
  intros Hok Hi.
  assert (Hsame : forall tbl', tbl' = table st ->
            exists r', tbl' !! i = Some r' /\ same_record r r')
    by (intros tbl' ->; exists r; split; [exact Hi | apply same_record_refl]).
  assert (Hsnoc : forall tbl' t, tbl' = table st ++ [t] ->
            exists r', tbl' !! i = Some r' /\ same_record r r').
  { intros tbl' t ->. exists r.
    rewrite lookup_app_l by (eapply lookup_lt_Some; eauto).
    split; [exact Hi | apply same_record_refl]. }
  assert (Hins : forall tbl' (j : nat) t t',
            table st !! j = Some t -> same_record t t' ->
            tbl' = <[j := t']> (table st) ->
            exists r', tbl' !! i = Some r' /\ same_record r r').
  { intros tbl' j t t' Hj Hs ->. destruct (decide (j = i)) as [-> | Hne].
    - assert (t = r) by congruence. subst t. exists t'.
      rewrite list_lookup_insert_eq by (eapply lookup_lt_Some; eauto). auto.
    - exists r. rewrite list_lookup_insert_ne by exact Hne.
      split; [exact Hi | apply same_record_refl]. }
  destruct a as
    [chatId text now k | chain chatId txHash now | w chatId command now
     | rates userFound chatId amountText fiatType
     | transactionId adminNotes now | userFound chatId transactionId words];
    cbn [step table].
  - apply Hsame, on_deposit_table.
  - destruct (on_confirm_effect cfg chain now st chatId txHash Hok)
      as [E | (req & a & n & e & _ & _ & _ & _ & E)];
      [now apply Hsame | eapply Hsnoc; exact E].
  - destruct (on_withdraw_effect isAddress cfg w now (table st) chatId command
                Hok)
      as [E | (amount & address & a & b & t & _ & _ & _ & _ & E & _)];
      [now apply Hsame | eapply Hsnoc; exact E].
  - destruct (processExchangeRequest_effect rates userFound (table st) chatId
                amountText fiatType)
      as [E | (a & b & fiat & _ & _ & _ & _ & _ & E)]; [now apply Hsame |].
    rewrite E. cbv zeta. cbn [fst]. eapply Hsnoc. reflexivity.
  - destruct (complete_fields now (table st) transactionId adminNotes Hok)
      as [E | (j & t & t' & Hj & Hs & E)];
      [now apply Hsame | eapply Hins; eauto].
  - destruct (reject_fields userFound (table st) chatId transactionId words Hok)
      as [E | (j & t & t' & Hj & Hs & E)];
      [now apply Hsame | eapply Hins; eauto].
Qed.

Lemma run_keeps_fields actions : forall st (i : nat) r,
  table_ok (table st) -> table st !! i = Some r ->
  exists r',
    table (run isAddress int_of_text cfg adminChatId st actions) !! i = Some r'
    /\ same_record r r'.
Proof.
  induction actions as [| a actions IH]; intros st i r Hok Hi.
  - exists r. split; [exact Hi | apply same_record_refl].
  - cbn [run fold_left].
    destruct (step_keeps_fields st a i r Hok Hi) as (r1 & Hi1 & E1).
    destruct (IH _ i r1 (step_table_ok isAddress int_of_text cfg adminChatId
                           st a Hok) Hi1) as (r2 & Hi2 & E2).
    exists r2. unfold run in *. split; [exact Hi2 |].
    exact (same_record_trans r r1 r2 E1 E2).
Qed.

End Fields.

(** X2.  Records keep what they were created with.  Along every sequence
    of commands of one run of the process, a row stays at its place and
    keeps its key, kind, owner, amount, fiat amount and kind, wallet
    address and fee: no handler removes a row, and the handlers assign
    only the status, the hash, the completion time, the confirmations and
    the notes.  (The tables themselves are recreated at every start of
    the process, by syncModels.) *)
Theorem records_are_permanent (isAddress : string -> bool)
    (int_of_text : string -> option Z) (cfg : Config) (adminChatId : string)
    (st : State) (actions : list Action) (i : nat) (r : Tx.t) :
  table_ok (table st) -> table st !! i = Some r ->
  exists r',
    table (run isAddress int_of_text cfg adminChatId st actions) !! i = Some r'
    /\ Tx.id r' = Tx.id r /\ Tx.type r' = Tx.type r
    /\ Tx.chatId r' = Tx.chatId r /\ Tx.amount r' = Tx.amount r
    /\ Tx.fiatAmount r' = Tx.fiatAmount r /\ Tx.fiatType r' = Tx.fiatType r
    /\ Tx.walletAddress r' = Tx.walletAddress r /\ Tx.fee r' = Tx.fee r.
Proof. intros. now apply run_keeps_fields. Qed.

Lemma records_are_permanent_witness :
  exists r',
    table (run (fun _ => true) decimal_key sample_cfg "admin"
             (Build_State ∅ ledger_example) admin_session) !! 3%nat = Some r'
    /\ Tx.id r' = 4 /\ Tx.type r' = exchange /\ Tx.chatId r' = "alice"%string
    /\ Tx.amount r' = 5000000 /\ Tx.fiatAmount r' = Some 500
    /\ Tx.fiatType r' = Some "USD"%string.
Proof.
  destruct (records_are_permanent (fun _ => true) decimal_key sample_cfg
              "admin" (Build_State ∅ ledger_example) admin_session 3%nat
              (Tx.mk 4 exchange "alice" 5000000 (Some 500) (Some "USD"%string)
                     None None pending None None None None)
              ledger_example_ok eq_refl)
    as (r' & Hr & H1 & H2 & H3 & H4 & H5 & H6 & _).
  exists r'. auto 10.
Defined.

(** X3.  Accounts are separate.  The commands an account sends (/deposit,
    /confirm, /withdraw, /exchange) change neither the computed balance
    nor the deposit intent of any other account. *)
Theorem accounts_are_separate (isAddress : string -> bool)
    (int_of_text : string -> option Z) (cfg : Config) (adminChatId : string)
    (st : State) (actions : list Action) (c : string) :
  table_ok (table st) ->
  Forall (fun a => exists c', sent_by c' a /\ c' <> c) actions ->
  getUserBalance
    (table (run isAddress int_of_text cfg adminChatId st actions)) c
  = getUserBalance (table st) c
  /\ depositRequests (run isAddress int_of_text cfg adminChatId st actions) !! c
     = depositRequests st !! c.
Proof. intros Hok Hall. now apply run_other_accounts. Qed.

Lemma accounts_are_separate_witness :
  getUserBalance
    (table (run (fun _ => true) decimal_key sample_cfg "admin" intent_state
              bob_session)) "alice"
  = getUserBalance (table intent_state) "alice"
  /\ depositRequests
       (run (fun _ => true) decimal_key sample_cfg "admin" intent_state
          bob_session) !! "alice"
     = depositRequests intent_state !! "alice".
Proof.
  apply accounts_are_separate.
  - intros i r H. vm_compute in H. destruct i; discriminate H.
  - repeat constructor; exists "bob"%string; split;
      first [reflexivity | discriminate].
Defined.

(** X4.  The balance getUserBalance returns is always the six-digit
    rendering of a number of millionths that is not negative, it reads
    back as that number, and formatUSDT (which /balance applies to it)
    returns it unchanged. *)
Theorem getUserBalance_is_an_amount (tbl : Table) (c : string) :
  exists m,
    0 <= m
    /\ getUserBalance tbl c = Dec.toFixed 6 (Dec.of_micro m)
    /\ Dec.parse (getUserBalance tbl c) = Some (Dec.of_micro m)
    /\ formatUSDT (getUserBalance tbl c) = getUserBalance tbl c.
Proof.
  destruct (getUserBalance_shape tbl c) as (m & Hm & E & Hp).
  exists m. repeat split; auto. unfold formatUSDT. now rewrite Hp.
Qed.

(* ================================================================== *)
(** * Properties of the verification of deposits *)
(* ================================================================== *)

Section Receipts.

Lemma to_lower_char_again c : to_lower_char (to_lower_char c) = to_lower_char c.
Proof. destruct c as [[] [] [] [] [] [] [] []]; reflexivity. Qed.

Lemma toLowerCase_again s : toLowerCase (toLowerCase s) = toLowerCase s.
Proof.
  unfold toLowerCase. rewrite list_ascii_of_string_of_list_ascii, List.map_map.
  f_equal. apply List.map_ext. intros c. apply to_lower_char_again.
Qed.

(** The test of the filter, on a decoded log. *)
Lemma filter_test cfg l d :
  parseLog l = Parsed d ->
  String.eqb (name d) "Transfer"
  && String.eqb (toLowerCase (toLowerCase (address l)))
                (toLowerCase (usdtContractAddress cfg)) = true
  <-> token_transfer cfg l d.
Proof.
  intros Hp. unfold token_transfer.
  rewrite andb_true_iff, !String.eqb_eq, toLowerCase_again. tauto.
Qed.

Lemma transferEvents_decoded cfg ls :
  (exists evs, transferEvents cfg ls = Ok evs) <-> all_decoded ls.
Proof.
  induction ls as [| l ls IH]; cbn [transferEvents].
  - split; [constructor | eexists; reflexivity].
  - split.
    + intros [evs H]. destruct (parseLog l) as [| | d] eqn:Hp.
      * constructor; [congruence | apply IH; eauto].
      * discriminate H.
      * constructor; [congruence |]. apply IH.
        destruct (transferEvents cfg ls); [eauto | discriminate H].
    + intros H. inversion H as [| ? ? Hl Hls]; subst.
      apply IH in Hls. destruct Hls as [evs Hls]. rewrite Hls.
      destruct (parseLog l); [eauto | congruence |].
      destruct (_ && _); eauto.
Qed.

(** The head of the filtered list is the first Transfer of the token, and
    there is a filtered list when no log decodes to null. *)
Lemma transferEvents_first cfg ls ev :
  (exists rest, transferEvents cfg ls = Ok (ev :: rest))
  <-> all_decoded ls /\ first_token_transfer cfg ls ev.
Proof.
  split.
  - intros [rest H].
    split; [apply (transferEvents_decoded cfg); eauto |].
    revert rest H. induction ls as [| l ls IH]; intros rest H;
      [discriminate H |].
    cbn [transferEvents] in H. destruct (parseLog l) as [| | d] eqn:Hp.
    + destruct (IH rest H) as (before & l0 & after & -> & Ht & Hb).
      exists (l :: before), l0, after. split; [reflexivity |].
      split; [exact Ht |]. intros l' d' [<- | Hin]; [| now apply Hb].
      intros [Hp' _]. congruence.
    + discriminate H.
    + destruct (transferEvents cfg ls) as [rest0 | m] eqn:Hls;
        [| discriminate H].
      destruct (String.eqb (name d) "Transfer" && _) eqn:Ht.
      * injection H as -> ->. exists [], l, ls. split; [reflexivity |].
        split; [now apply filter_test | intros l' d' []].
      * destruct (IH rest H) as (before & l0 & after & -> & Ht0 & Hb).
        exists (l :: before), l0, after. split; [reflexivity |].
        split; [exact Ht0 |]. intros l' d' [<- | Hin]; [| now apply Hb].
        intros Htt. assert (d' = d) by (destruct Htt; congruence). subst d'.
        apply filter_test in Htt; [congruence | exact Hp].
  - intros (Hall & before & l & after & -> & Ht & Hb).
    induction before as [| b before IH].
    + cbn [app transferEvents]. destruct Ht as (Hp & Hn & Ha).
      inversion Hall as [| ? ? _ Hafter]; subst.
      apply (transferEvents_decoded cfg) in Hafter.
      destruct Hafter as [evs Hevs]. rewrite Hp, Hevs.
      assert (Htest : String.eqb (name ev) "Transfer"
                      && String.eqb (toLowerCase (toLowerCase (address l)))
                                    (toLowerCase (usdtContractAddress cfg))
                      = true)
        by (apply (filter_test cfg l ev Hp); repeat split; assumption).
      rewrite Htest. eauto.
    + cbn [app] in Hall |- *. inversion Hall as [| ? ? Hbn Hrest]; subst.
      destruct (IH Hrest) as [rest Hr];
        [intros l' d' Hin; apply Hb; now right |].
      cbn [transferEvents]. rewrite Hr.
      destruct (parseLog b) as [| | d] eqn:Hp; [eauto | congruence |].
      destruct (String.eqb (name d) "Transfer" && _) eqn:Htest; [| eauto].
      exfalso. apply (Hb b d); [now left |]. now apply filter_test.
Qed.

End Receipts.

(** X5.  verifyDepositTransaction reports a deposit as verified exactly
    when: the node has a receipt for the reference, mined at least the
    minimum of confirmations below the head; no log of the receipt
    decodes to null; the first log of the receipt, in its order, that the
    token contract emitted and that decodes to a Transfer goes to the
    deposit address and moves, at the decimals of the token, the same
    number as the expected amount denotes.  The amount and the
    confirmations it returns are those of that log and of the chain. *)
Theorem verification_exact (cfg : Config) (chain : Chain)
    (h expected : string) (a : Dec.Decimal) (n : Z) :
  verifyDepositTransaction cfg chain h expected = Verified a n
  <-> exists receipt currentBlock ev dec e,
        getTransactionReceipt chain h = Ok (Some receipt)
        /\ getBlockNumber chain = Ok currentBlock
        /\ n = currentBlock - blockNumber receipt
        /\ minConfirmations cfg <= n
        /\ all_decoded (logs receipt)
        /\ first_token_transfer cfg (logs receipt) ev
        /\ toLowerCase (arg_to ev) = toLowerCase (depositAddress cfg)
        /\ decimals chain = Ok dec
        /\ Dec.parse expected = Some e
        /\ arg_value ev * Dec.pow10 (Dec.scale e) = Dec.coef e * Dec.pow10 dec
        /\ a = Dec.mk (arg_value ev) dec.
Proof.
  split.
  - intros H.
    destruct (verify_verified _ _ _ _ _ _ H)
      as (value & dec & e & Hshow & Hmin & He & Heq & ->).
    destruct Hshow as (receipt & cur & ev & rest & Hr & Hb & Hn & Hev & Hto
                         & <- & Hd).
    destruct (proj1 (transferEvents_first cfg (logs receipt) ev))
      as [Hall Hfirst]; [eauto |].
    exists receipt, cur, ev, dec, e. repeat split; auto.
    now apply (equals_exact (Dec.mk (arg_value ev) dec) e).
  - intros (receipt & cur & ev & dec & e & Hr & Hb & Hn & Hmin & Hall & Hfirst
              & Hto & Hd & He & Heq & ->).
    destruct (proj2 (transferEvents_first cfg (logs receipt) ev)
                (conj Hall Hfirst)) as [rest Hev].
    assert (Hshow : chain_shows cfg chain h (arg_value ev) dec n)
      by (exists receipt, cur, ev, rest; repeat split; auto).
    rewrite (verify_shows cfg chain h expected e (arg_value ev) dec n Hshow He).
    destruct (Z.ltb_spec n (minConfirmations cfg)); [lia |].
    now rewrite (proj2 (equals_exact (Dec.mk (arg_value ev) dec) e) Heq).
Qed.

(** X6.  When the token interface decodes any log of the receipt to null
    (a log of another contract), the verification fails with the error of
    reading the name of null, whatever else the receipt holds, also a
    valid Transfer to the deposit address; /confirm then replies with that
    failure and leaves the intent and the table as they are. *)
Theorem undecoded_log_fails_verification (cfg : Config) (chain : Chain)
    (now : Z) (st : State) (c h : string) (req : DepositRequest)
    (receipt : Receipt) (currentBlock : Z) (l : Log) :
  getTransactionReceipt chain h = Ok (Some receipt) ->
  getBlockNumber chain = Ok currentBlock ->
  minConfirmations cfg <= currentBlock - blockNumber receipt ->
  In l (logs receipt) -> parseLog l = ParseNull ->
  let reason :=
    VerifyError "Cannot read properties of null (reading 'name')" in
  (forall expected,
     verifyDepositTransaction cfg chain h expected = NotVerified reason)
  /\ (isValidTxHash h = true -> depositRequests st !! c = Some req ->
      now - timestamp req <= 24 * 60 * 60 * 1000 ->
      on_confirm cfg chain now st c h = (st, VerificationFailed reason)).
Proof.
  intros Hr Hb Hmin Hin Hnull reason.
  assert (Hv : forall expected,
             verifyDepositTransaction cfg chain h expected = NotVerified reason).
  { intros expected. unfold verifyDepositTransaction. rewrite Hr, Hb.
    destruct (Z.ltb_spec (currentBlock - blockNumber receipt)
                (minConfirmations cfg)); [lia |].
    now rewrite (transferEvents_null cfg (logs receipt) l Hin Hnull). }
  split; [exact Hv |]. intros Hh Hreq Hfresh.
  rewrite (on_confirm_checked cfg chain now st c h req Hh Hreq Hfresh).
  now rewrite Hv.
Qed.

Lemma undecoded_log_fails_verification_witness :
  on_confirm sample_cfg (chain_with_foreign_log 10123400000000000000 6)
    1700000001000 intent_state "alice" sample_hash
  = (intent_state,
     VerificationFailed
       (VerifyError "Cannot read properties of null (reading 'name')")).
Proof.
  refine (proj2 (undecoded_log_fails_verification sample_cfg
                   (chain_with_foreign_log 10123400000000000000 6)
                   1700000001000 intent_state "alice" sample_hash
                   (Build_DepositRequest "10.123400" 1700000000000)
                   _ 106 _ eq_refl eq_refl _ (or_introl eq_refl) eq_refl)
            eq_refl _ _).
  - vm_compute. discriminate.
  - vm_compute. reflexivity.
  - vm_compute. discriminate.
Defined.

(* ================================================================== *)
(** * Properties of withdrawals *)
(* ================================================================== *)


(** X8.  When /withdraw replies that the withdrawal failed, the table has
    gained one Failed withdrawal of the account whose notes carry the
    error, and every computed balance is what it was before the command:
    the reservation is released.  This is so also when the failure came
    after the transfer was submitted (the wait threw): the events then
    hold the request for the transfer to the address of the command, and
    the Failed row carries the hash of the submitted transfer. *)
Theorem failed_withdrawal_refunds (isAddress : string -> bool) (cfg : Config)
    (w : Wallet) (now : Z) (tbl : Table) (c command e : string) :
  let r := on_withdraw isAddress cfg w now tbl c command in
  table_ok tbl ->
  snd (fst r) = WithdrawalFailed e ->
  exists amount address t,
    parseWithdrawCommand isAddress command = Some (amount, address)
    /\ fst (fst r) = tbl ++ [t]
    /\ Tx.id t = next_id tbl /\ Tx.type t = withdrawal /\ Tx.chatId t = c
    /\ Tx.status t = failed
    /\ Tx.adminNotes t = Some ("Failed: " ++ e)%string
    /\ (forall c', getUserBalance (fst (fst r)) c' = getUserBalance tbl c')
    /\ (forall amt fees gas lim h,
          parseTokenAmount w = Ok amt -> getFeeData w = Ok fees ->
          estimateGas w = Ok gas -> gasLimit w gas = Ok lim ->
          transfer w = Ok h ->
          In (Called (CallTransfer (Some address) amt lim fees)) (snd r)
          /\ Tx.txHash t = Some h).
Proof.
  intros r Hok Hreply.
  destruct (on_withdraw_ran isAddress cfg w now tbl c command
              (or_introl (ex_intro _ e Hreply)))
    as (amount & address & a & fee & Hcmd & Ha & Hfee & Hrun).
  cbv zeta in Hrun. fold r in Hrun.
  set (t0 := Tx.mk (next_id tbl) withdrawal c (Dec.round_at 6 a) None None
                   (Some address) None pending None (Some fee) None None) in *.
  destruct Hrun as (Htbl & Hlog & Hrep).
  pose proof (processWithdrawal_created w now tbl t0 Hok eq_refl) as Hcreated.
  destruct (processWithdrawal_cases w now (tbl ++ [t0]) t0)
    as (_ & _ & (Hi & Hty & Hc & _) & Hres).
  pose proof (processWithdrawal_requests w now (tbl ++ [t0]) t0) as Hreq.
  cbv zeta in *.
  set (p := processWithdrawal w now (tbl ++ [t0]) t0) in *.
  assert (Hfail : snd p = WithdrawalError e
                  /\ Tx.status (run_tx (fst p)) = failed
                  /\ Tx.adminNotes (run_tx (fst p)) = Some ("Failed: " ++ e)%string).
  { destruct (failure_of w) as [msg |].
    - destruct Hres as (Hs & Hst & Hn). rewrite Hs in Hrep.
      rewrite Hreply in Hrep. injection Hrep as ->. auto.
    - destruct Hres as (h & _ & Hs & _). rewrite Hs, Hreply in Hrep.
      discriminate Hrep. }
  destruct Hfail as (Hs & Hst & Hn).
  exists amount, address, (run_tx (fst p)).
  rewrite Htbl, Hcreated.
  split; [exact Hcmd |]. split; [reflexivity |]. split; [exact Hi |].
  split; [exact Hty |]. split; [exact Hc |]. split; [exact Hst |].
  split; [exact Hn |]. split.
  - intros c'. now apply getUserBalance_failed.
  - intros amt fees gas lim h E1 E2 E3 E4 E5.
    unfold transfer_request in Hreq. rewrite E1, E2, E3, E4, E5 in Hreq.
    destruct Hreq as [Hf [Hh _]]. split; [| exact Hh].
    rewrite Hlog. apply (List.filter_In is_transfer). rewrite Hf. now left.
Qed.

Lemma failed_withdrawal_refunds_witness :
  let r := on_withdraw (fun _ => true) sample_cfg wallet_timeout 1700000000000
             (funded 50400000) "alice"
             "50,0x3333333333333333333333333333333333333333" in
  exists t,
    fst (fst r) = funded 50400000 ++ [t]
    /\ Tx.status t = failed
    /\ Tx.txHash t
       = Some "0xbbbbbbbbbbbbbbbbbbbbbbbbbbbbbbbbbbbbbbbbbbbbbbbbbbbbbbbbbbbbbbbb"%string
    /\ getUserBalance (fst (fst r)) "alice"
       = getUserBalance (funded 50400000) "alice".
Proof.
  intros r.
  destruct (failed_withdrawal_refunds (fun _ => true) sample_cfg
              wallet_timeout 1700000000000 (funded 50400000) "alice"
              "50,0x3333333333333333333333333333333333333333" "timeout"
              (funded_ok 50400000) eq_refl)
    as (amount & address & t & _ & Htbl & _ & _ & _ & Hst & _ & Hbal & Hsent).
  exists t. split; [exact Htbl |]. split; [exact Hst |].
  split; [| apply Hbal].
  exact (proj2 (Hsent _ _ _ _ _ eq_refl eq_refl eq_refl eq_refl eq_refl)).
Defined.

(** X9.  The balance check of /withdraw covers the stored amount: when the
    handler writes a row (the balance was not less than the amount plus
    the fee, a comparison of Decimal values in which the sum may have been
    rounded to 20 digits), the amount of the row, as rounded into its
    column, is not negative and does not exceed the balance of the
    account. *)
Theorem withdrawal_within_balance (isAddress : string -> bool) (cfg : Config)
    (w : Wallet) (now : Z) (tbl : Table) (c command : string) (t : Tx.t) :
  table_ok tbl -> volume tbl c < 10 ^ 20 ->
  0 <= Dec.coef (withdrawalFee cfg) ->
  fst (fst (on_withdraw isAddress cfg w now tbl c command)) = tbl ++ [t] ->
  0 <= Tx.amount t <= Z.max 0 (rawBalance tbl c)
  /\ Tx.type t = withdrawal /\ Tx.chatId t = c
  /\ (Tx.status t = completed \/ Tx.status t = failed).
Proof.
  intros Hok Hvol Hfee Htbl.
  destruct (on_withdraw_effect isAddress cfg w now tbl c command Hok)
    as [E | (amount & address & a & b & t' & Hcmd & Ha & Hb & Hlt & E & Hid
             & Hty & Hc & Hamt & Hst)].
  { rewrite E in Htbl. apply (f_equal (@length _)) in Htbl.
    rewrite length_app in Htbl. cbn in Htbl. lia. }
  rewrite E in Htbl. apply app_inj_tail in Htbl. destruct Htbl as [_ ->].
  destruct (parseWithdrawCommand_valid isAddress _ _ _ Hcmd) as [Hvalid _].
  pose proof (isValidAmount_pos _ _ Hvalid Ha) as Hpos.
  rewrite (getUserBalance_parse _ _ Hvol) in Hb. injection Hb as <-.
  pose proof (rawBalance_abs tbl c) as Habs.
  pose proof (check_covers_amount a (withdrawalFee cfg)
                (Z.max 0 (rawBalance tbl c)) Hpos Hfee
                ltac:(change (Dec.pow10 Dec.precision) with (10 ^ 20); lia) Hlt)
    as Hle.
  destruct (DecFacts.round_at_sign 6 a) as [_ Hnn]. specialize (Hnn ltac:(lia)).
  rewrite Hamt. auto.
Qed.

Lemma withdrawal_within_balance_witness :
  exists t,
    fst (fst (on_withdraw (fun _ => true) sample_cfg wallet_ok 1700000000000
                (funded 50400000) "alice"
                "50,0x3333333333333333333333333333333333333333"))
    = funded 50400000 ++ [t]
    /\ 0 <= Tx.amount t <= 50400000.
Proof.
  eexists. split; [vm_compute; reflexivity |].
  refine (proj1 (withdrawal_within_balance (fun _ => true) sample_cfg
                   wallet_ok 1700000000000 (funded 50400000) "alice"
                   "50,0x3333333333333333333333333333333333333333" _
                   (funded_ok 50400000) _ _ _)).
  - vm_compute. reflexivity.
  - vm_compute. discriminate.
  - vm_compute. reflexivity.
Defined.

(* ================================================================== *)
(** * The replies of /confirm *)
(* ================================================================== *)

Section ConfirmReplies.

Variable cfg : Config.




End ConfirmReplies.

(* ================================================================== *)
(** * Properties of deposit intents *)
(* ================================================================== *)

(** X10.  /deposit with a base the text denotes as [x] millionths and the
    draw [k] (any of the 10000 values of the random draw) stores, for the
    account, the intent for exactly [base + k / 10000], rendered with six
    digits, stamped with the time of the command, replacing an earlier
    intent of the account and leaving the table alone: the detour of the
    draw through a binary number and toFixed(4) loses nothing.  The base
    is not checked to be positive. *)
Theorem deposit_intent_amount (now k : Z) (st : State) (c text : string)
    (base : Dec.Decimal) (x : Z) :
  0 <= k < 10000 ->
  Dec.parse (depositBase text) = Some base ->
  Dec.is_micro base x -> Z.abs x < 10 ^ 20 - 10 ^ 6 ->
  let depositAmount := Dec.toFixed 6 (Dec.of_micro (x + 100 * k)) in
  on_deposit now k st c text
  = (Build_State
       (<[c := Build_DepositRequest depositAmount now]> (depositRequests st))
       (table st),
     DepositInstructions depositAmount)
  /\ Dec.parse depositAmount = Some (Dec.of_micro (x + 100 * k)).
Proof.
  intros Hk Hb Hx Hfit depositAmount.
  split; [| apply DecFacts.parse_toFixed_micro].
  rewrite (on_deposit_drawn now k st c text base Hk Hb). cbv zeta.
  assert (E : Dec.toFixed 6 (Dec.plus base (Dec.mk k 4)) = depositAmount).
  { apply DecFacts.toFixed_micro.
    apply DecFacts.plus_micro; [exact Hx | apply is_micro_draw |].
    change (Dec.pow10 Dec.precision) with (10 ^ 20). lia. }
  now rewrite E.
Qed.

Lemma deposit_intent_amount_witness :
  on_deposit 1700000000000 1234 (Build_State ∅ []) "alice" "/deposit"
  = (Build_State
       (<["alice"%string := Build_DepositRequest "10.123400" 1700000000000]> ∅)
       [],
     DepositInstructions "10.123400").
Proof.
  exact (proj1 (deposit_intent_amount 1700000000000 1234 (Build_State ∅ [])
                  "alice" "/deposit" (Dec.mk 10 0) 10000000
                  ltac:(lia) eq_refl ltac:(split; [cbn; lia | reflexivity])
                  ltac:(vm_compute; reflexivity))).
Defined.



(* ================================================================== *)
(** * Properties of exchange requests and decisions *)
(* ================================================================== *)

(** X12.  processExchangeRequest, for a registered account whose counted
    amounts stay within the precision: a request for more than the
    balance is refused and nothing is written; a request that is accepted
    appends exactly one Pending exchange of the account for the amount as
    rounded into its column, which does not exceed the balance, with the
    fiat kind of the request and the fiat amount of the reply, and the
    balance of the account is lower by that amount from then on, while the
    request is still only Pending. *)
Theorem exchange_request_reserves (rates : ExchangeRates) (tbl : Table)
    (c amount fiatType : string) (a : Dec.Decimal) :
  volume tbl c < 10 ^ 20 ->
  Dec.parse amount = Some a ->
  let r := processExchangeRequest rates true tbl c amount fiatType in
  let bal := Z.max 0 (rawBalance tbl c) in
  (Dec.greaterThan a (Dec.of_micro bal) = true ->
   fst r = tbl /\ exists e, snd r = ExchangeRefused e)
  /\ (forall t fiat,
        snd r = ExchangeCreated t fiat ->
        fst r = tbl ++ [t]
        /\ Tx.id t = next_id tbl /\ Tx.type t = exchange
        /\ Tx.status t = pending /\ Tx.chatId t = c
        /\ Tx.fiatType t = Some fiatType
        /\ Tx.amount t = Dec.round_at 6 a /\ Tx.amount t <= bal
        /\ numeric 2 fiat = Tx.fiatAmount t
        /\ fiat = exchangeFiatAmount rates a fiatType
        /\ rawBalance (fst r) c = rawBalance tbl c - Tx.amount t).
Proof.
  intros Hvol Ha r bal. subst r. split.
  - intros Hgt. unfold processExchangeRequest. cbn [negb].
    rewrite Ha, (getUserBalance_parse tbl c Hvol). fold bal. rewrite Hgt.
    split; [reflexivity | eexists; reflexivity].
  - intros t fiat Hres.
    destruct (processExchangeRequest_created rates true tbl c amount fiatType
                t fiat Hres)
      as (a' & b & cents & _ & Ha' & Hb & Hgt & Hfiat & Hf & Ht & E).
    assert (a' = a) by congruence. subst a'.
    rewrite (getUserBalance_parse tbl c Hvol) in Hb. injection Hb as <-.
    fold bal in Hgt.
    assert (Hle : Dec.round_at 6 a <= bal).
    { apply round_at_le_micro. unfold Dec.greaterThan in Hgt.
      destruct (Dec.cmp a _); congruence. }
    rewrite E, Ht.
    cbn [Tx.id Tx.type Tx.status Tx.chatId Tx.fiatType Tx.amount
         Tx.fiatAmount].
    repeat split; auto.
    rewrite rawBalance_snoc. unfold effect.
    cbn [Tx.chatId Tx.type Tx.status Tx.amount].
    rewrite bool_decide_eq_true_2 by reflexivity. lia.
Qed.

Lemma exchange_request_reserves_witness :
  exists t,
    processExchangeRequest sample_rates true (funded 50400000) "alice" "20.5"
      "UAH"
    = (funded 50400000 ++ [t], ExchangeCreated t "809.75")
    /\ Tx.amount t = 20500000
    /\ rawBalance (funded 50400000 ++ [t]) "alice" = 29900000.
Proof.
  destruct (exchange_request_reserves sample_rates (funded 50400000) "alice"
              "20.5" "UAH" (Dec.mk 205 1) eq_refl eq_refl) as [_ H].
  assert (E : exists t,
             processExchangeRequest sample_rates true (funded 50400000)
               "alice" "20.5" "UAH"
             = (funded 50400000 ++ [t], ExchangeCreated t "809.75"))
    by (eexists; vm_compute; reflexivity).
  destruct E as [t E]. exists t. split; [exact E |].
  rewrite E in H. cbn [fst snd] in H.
  destruct (H t "809.75"%string eq_refl)
    as (_ & _ & _ & _ & _ & _ & Hamt & _ & _ & _ & Hraw).
  split; [exact Hamt |]. rewrite Hraw, Hamt. reflexivity.
Defined.

(** X13.  The fiat amount of an exchange request is the product of the
    amount and the rate rounded to the nearest cent, the upper one on a
    tie: for an amount and a rate that are not negative and whose product
    has fewer than 21 digits, Decimal.times is exact, and the text
    processExchangeRequest computes reads back, and is stored, as that
    number of cents. *)
Theorem exchange_fiat_is_rounded_product (rates : ExchangeRates)
    (a : Dec.Decimal) (fiatType : string) :
  0 <= Dec.coef a -> 0 <= rate_for rates fiatType ->
  Dec.coef a * rate_for rates fiatType < 10 ^ 20 ->
  let product := Dec.coef a * rate_for rates fiatType in
  let u := Dec.pow10 (Dec.scale a + 4) in
  let cents := Dec.half_up_div product u in
  Dec.parse (exchangeFiatAmount rates a fiatType) = Some (Dec.mk cents 2)
  /\ numeric 2 (exchangeFiatAmount rates a fiatType) = Some cents
  /\ 2 * cents * u - u <= 2 * product < 2 * cents * u + u.
Proof.
  intros Ha Hr Hfit product u cents.
  assert (Hp : 0 <= product) by (subst product; nia).
  pose proof (DecFacts.pow10_pos (Dec.scale a + 4)) as Hu. fold u in Hu.
  pose proof (half_up_div_spec product u Hp Hu) as Hspec. fold cents in Hspec.
  pose proof (DecFacts.half_up_div_nonneg product u Hp Hu) as Hc.
  fold cents in Hc.
  assert (Hround : Dec.round_at 2 (Dec.mk product (Dec.scale a + 6)) = cents).
  { unfold Dec.round_at. cbn [Dec.coef Dec.scale].
    destruct (Nat.leb_spec (Dec.scale a + 6) 2); [lia |].
    replace (Dec.scale a + 6 - 2)%nat with (Dec.scale a + 4)%nat by lia.
    fold u. rewrite Z.abs_eq by lia. fold cents.
    destruct (Z.eq_dec product 0) as [E | E].
    - assert (cents = 0)
        by (subst cents; rewrite E; unfold Dec.half_up_div;
            apply Z.div_small; lia).
      rewrite E. cbn. lia.
    - rewrite Z.sgn_pos by lia. lia. }
  rewrite (exchangeFiatAmount_exact rates a fiatType) by (fold product; lia).
  fold product.
  assert (Hparse : Dec.parse (Dec.toFixed 2 (Dec.mk product (Dec.scale a + 6)))
                   = Some (Dec.mk cents 2))
    by (rewrite (DecFacts.parse_toFixed 1); now rewrite Hround).
  split; [exact Hparse |]. split; [| exact Hspec].
  unfold numeric. rewrite Hparse. cbn [mbind option_bind].
  unfold numeric_of, Dec.round_at. cbn [Dec.coef Dec.scale].
  change (2 <=? 2)%nat with true. cbv iota.
  change (Dec.pow10 (2 - 2)) with 1. rewrite Z.mul_1_r.
  destruct (Z.ltb_spec (Z.abs cents) (10 ^ 24)) as [_ | Hbig]; [reflexivity |].
  exfalso. rewrite Z.abs_eq in Hbig by lia.
  assert (1 <= u) by lia. nia.
Qed.

Lemma exchange_fiat_is_rounded_product_witness :
  Dec.parse (exchangeFiatAmount sample_rates (Dec.mk 1005 3) "USD")
  = Some (Dec.mk 101 2)
  /\ numeric 2 (exchangeFiatAmount sample_rates (Dec.mk 1005 3) "USD")
     = Some 101.
Proof.
  destruct (exchange_fiat_is_rounded_product sample_rates (Dec.mk 1005 3)
              "USD" ltac:(cbn; lia) ltac:(cbn; lia)
              ltac:(vm_compute; reflexivity)) as (H1 & H2 & _).
  split; [exact H1 | exact H2].
Defined.

(** X14.  An exchange is decided once.  After completeExchangeTransaction
    or the /reject_exchange handler has taken a decision on a Pending
    exchange, every later completion or rejection under a text that reads
    as the same key is refused and leaves the table as it is, so that the
    status, the completion time and the notes of the decision stay. *)
Theorem exchange_decided_once (int_of_text : string -> option Z)
    (adminChatId : string) (now : Z) (tbl tbl' : Table)
    (transactionId adminNotes : string) (words : option string)
    (userFound : bool) (t : Tx.t) :
  table_ok tbl ->
  decidable_exchange int_of_text tbl transactionId t ->
  tbl' = fst (completeExchangeTransaction int_of_text now tbl transactionId
                adminNotes)
  \/ tbl' = fst (on_reject_exchange int_of_text adminChatId userFound tbl
                   adminChatId transactionId words) ->
  forall (again : string) (now' : Z) (notes' chat' : string)
         (words' : option string) (found' : bool),
    int_of_text again = int_of_text transactionId ->
    (exists e,
        completeExchangeTransaction int_of_text now' tbl' again notes'
        = (tbl', DecisionError e))
    /\ fst (on_reject_exchange int_of_text adminChatId found' tbl' chat' again
              words') = tbl'
    /\ match snd (on_reject_exchange int_of_text adminChatId found' tbl' chat'
                    again words') with
       | ExchangeRejected _ _ => False
       | _ => True
       end.
Proof.
  intros Hok Hdec Htbl again now' notes' chat' words' found' Hkey.
  assert (Hsettled : exists (i : nat) t',
             tbl' !! i = Some t' /\ Tx.id t' = Tx.id t
             /\ Tx.status t' <> pending /\ table_ok tbl').
  { destruct Htbl as [-> | ->].
    - destruct (complete_at int_of_text now tbl transactionId adminNotes t
                  Hok Hdec) as (i & t' & Hi & E & Hid & _ & _ & _ & Hst).
      exists i, t'. rewrite E. cbn [fst].
      split; [apply list_lookup_insert_eq; eapply lookup_lt_Some; eauto |].
      split; [exact Hid |]. split; [congruence |].
      pose proof (complete_table_ok int_of_text now tbl transactionId
                    adminNotes Hok) as Hok'.
      now rewrite E in Hok'.
    - destruct (reject_at int_of_text adminChatId userFound tbl transactionId
                  words t Hok Hdec) as (i & t' & Hi & E & Hid & _ & _ & _ & Hst).
      exists i, t'. rewrite E.
      split; [apply list_lookup_insert_eq; eapply lookup_lt_Some; eauto |].
      split; [exact Hid |]. split; [congruence |].
      pose proof (reject_table_ok int_of_text adminChatId userFound tbl
                    adminChatId transactionId words Hok) as Hok'.
      now rewrite E in Hok'. }
  destruct Hsettled as (i & t' & Hi & Hid & Hst & Hok').
  assert (Hno : forall r, ~ decidable_exchange int_of_text tbl' again r).
  { apply (settled_not_decidable int_of_text tbl' i t' again Hok' Hi Hst).
    rewrite Hkey, Hid. exact (findByPk_key int_of_text _ _ _ (proj1 Hdec)). }
  split; [now apply complete_refuses |].
  apply reject_refuses. now right.
Qed.

Lemma exchange_decided_once_witness :
  let tbl' :=
    fst (completeExchangeTransaction decimal_key 1700000000000 ledger_example
           "4" "paid in cash") in
  (exists e,
      completeExchangeTransaction decimal_key 1700000009000 tbl' "04" "again"
      = (tbl', DecisionError e))
  /\ fst (on_reject_exchange decimal_key "admin" true tbl' "admin" "4" None)
     = tbl'.
Proof.
  intros tbl'.
  destruct (exchange_decided_once decimal_key "admin" 1700000000000
              ledger_example tbl' "4" "paid in cash" None true
              (Tx.mk 4 exchange "alice" 5000000 (Some 500) (Some "USD"%string)
                     None None pending None None None None)
              ledger_example_ok ltac:(repeat split) (or_introl eq_refl)
              "04" 1700000009000 "again" "admin" None true eq_refl)
    as (H1 & _ & _).
  destruct (exchange_decided_once decimal_key "admin" 1700000000000
              ledger_example tbl' "4" "paid in cash" None true
              (Tx.mk 4 exchange "alice" 5000000 (Some 500) (Some "USD"%string)
                     None None pending None None None None)
              ledger_example_ok ltac:(repeat split) (or_introl eq_refl)
              "4" 1700000009000 "again" "admin" None true eq_refl)
    as (_ & H2 & _).
  split; [exact H1 | exact H2].
Defined.

(** X15.  What a decision does to the balances.  Completing a Pending
    exchange changes no computed balance: the amount stays deducted, as it
    was while the request was Pending.  Rejecting it gives the amount back
    to its owner: the balance rule of that account grows by the amount of
    the exchange, and no other account moves. *)
Theorem decision_moves_balance (int_of_text : string -> option Z)
    (adminChatId : string) (now : Z) (tbl : Table)
    (transactionId adminNotes : string) (words : option string)
    (userFound : bool) (t : Tx.t) (c : string) :
  table_ok tbl ->
  decidable_exchange int_of_text tbl transactionId t ->
  let done :=
    fst (completeExchangeTransaction int_of_text now tbl transactionId
           adminNotes) in
  let rejected :=
    fst (on_reject_exchange int_of_text adminChatId userFound tbl adminChatId
           transactionId words) in
  getUserBalance done c = getUserBalance tbl c
  /\ rawBalance done c = rawBalance tbl c
  /\ rawBalance rejected c
     = rawBalance tbl c
       + (if bool_decide (Tx.chatId t = c) then Tx.amount t else 0).
Proof.
  intros Hok Hdec done rejected. subst done rejected.
  pose proof Hdec as (_ & Hty & Hst).
  destruct (complete_at int_of_text now tbl transactionId adminNotes t
              Hok Hdec) as (i & t' & Hi & E & Hid & Hc & Hty' & Ha & Hst').
  destruct (reject_at int_of_text adminChatId userFound tbl transactionId
              words t Hok Hdec)
    as (j & t'' & Hj & E' & Hid' & Hc' & Hty'' & Ha' & Hst'').
  rewrite E, E'. cbn [fst].
  split; [| split].
  - apply (getUserBalance_completed tbl i t t' c Hi Hty Hst); congruence.
  - rewrite (rawBalance_insert tbl i t t' c Hi).
    unfold effect. rewrite Hc, Hty', Ha, Hst', Hty, Hst.
    destruct (bool_decide _); lia.
  - rewrite (rawBalance_insert tbl j t t'' c Hj).
    unfold effect. rewrite Hc', Hty'', Ha', Hst'', Hty, Hst.
    destruct (bool_decide _); lia.
Qed.

Lemma decision_moves_balance_witness :
  getUserBalance
    (fst (completeExchangeTransaction decimal_key 1700000000000 ledger_example
            "4" "paid in cash")) "alice"
  = getUserBalance ledger_example "alice"
  /\ rawBalance
       (fst (on_reject_exchange decimal_key "admin" true ledger_example
               "admin" "4" None)) "alice"
     = 30400000.
Proof.
  destruct (decision_moves_balance decimal_key "admin" 1700000000000
              ledger_example "4" "paid in cash" None true
              (Tx.mk 4 exchange "alice" 5000000 (Some 500) (Some "USD"%string)
                     None None pending None None None None)
              "alice" ledger_example_ok ltac:(repeat split))
    as (H1 & _ & H3).
  split; [exact H1 |]. rewrite H3. reflexivity.
Defined.

(* ================================================================== *)
(** * Properties of the formatting of fiat amounts *)
(* ================================================================== *)

(** X16.  On a decimal literal in plain notation (digits with an optional
    sign and point, no exponent), formatFiat renders the value with exactly
    two fractional digits, rounded half away from zero to cents, and the
    rendering reads back as that number of cents.  On a value that is not
    negative it is idempotent, so that formatting the fiat amount of an
    exchange request, itself a two-digit rendering, shows it unchanged.
    Nothing is said of the other texts. *)
Theorem formatFiat_cents (s : string) (d : Dec.Decimal) :
  plain_text s = true -> Dec.parse s = Some d ->
  formatFiat s = Dec.toFixed 2 d
  /\ Dec.parse (formatFiat s) = Some (Dec.mk (Dec.round_at 2 d) 2)
  /\ (exists ip fp,
         list_ascii_of_string (formatFiat s)
         = (if Dec.coef d <? 0 then ["-"%char] else [])
             ++ ip ++ "."%char :: fp
         /\ ip <> [] /\ Forall (fun c => Dec.is_digit c = true) ip
         /\ Forall (fun c => Dec.is_digit c = true) fp
         /\ length fp = 2%nat)
  /\ (0 <= Dec.coef d -> formatFiat (formatFiat s) = formatFiat s).
Proof.
  intros _ Hs.
  assert (Ef : formatFiat s = Dec.toFixed 2 d)
    by (unfold formatFiat; now rewrite Hs).
  rewrite !Ef. split; [reflexivity |].
  split; [apply (DecFacts.parse_toFixed 1) |].
  split; [apply (toFixed_shape 1) |].
  intros Hd. unfold formatFiat. rewrite (DecFacts.parse_toFixed 1).
  destruct (DecFacts.round_at_sign 2 d) as [_ Hnn]. specialize (Hnn Hd).
  unfold Dec.toFixed, Dec.toFixed_chars. cbn [Dec.coef].
  assert (E : Dec.round_at 2 (Dec.mk (Dec.round_at 2 d) 2) = Dec.round_at 2 d).
  { unfold Dec.round_at at 1. cbn [Dec.coef Dec.scale].
    change (2 <=? 2)%nat with true. cbv iota.
    change (Dec.pow10 (2 - 2)) with 1. lia. }
  rewrite E.
  destruct (Z.ltb_spec (Dec.coef d) 0); [lia |].
  destruct (Z.ltb_spec (Dec.round_at 2 d) 0); [lia |]. reflexivity.
Qed.

Lemma formatFiat_cents_witness :
  formatFiat "12.345" = "12.35"%string
  /\ Dec.parse (formatFiat "12.345") = Some (Dec.mk 1235 2)
  /\ formatFiat (formatFiat "12.345") = formatFiat "12.345".
Proof.
  destruct (formatFiat_cents "12.345" (Dec.mk 12345 3) eq_refl eq_refl)
    as (H1 & H2 & _ & H3).
  split; [exact H1 |]. split; [exact H2 |]. apply H3. cbn. lia.
Defined.

(* ================================================================== *)
(** * Command patterns and words *)
(* ================================================================== *)

Section Text.

Lemma list_ascii_of_string_app (s1 s2 : string) :
  list_ascii_of_string (s1 ++ s2)
  = list_ascii_of_string s1 ++ list_ascii_of_string s2.
Proof.
  induction s1 as [| c s1 IH]; [reflexivity |].
  change (c :: list_ascii_of_string (s1 ++ s2)
          = c :: (list_ascii_of_string s1 ++ list_ascii_of_string s2)).
  now rewrite IH.
Qed.

Lemma strip_prefix_app p l : strip_prefix p (p ++ l) = Some l.
Proof.
  induction p as [| c p IH]; cbn; [now destruct l |].
  now rewrite Ascii.eqb_refl.
Qed.

(** A text that begins with the literal of the pattern is captured from
    there to the end of its first line. *)
Lemma capture_from_prefix pat rest :
  rest <> [] -> take_line rest = rest ->
  capture_from pat (pat ++ rest) = Some rest.
Proof.
  intros Hne Hline.
  assert (E : match strip_prefix pat (pat ++ rest) with
              | Some rest =>
                  match take_line rest with
                  | [] => None
                  | c :: cap => Some (c :: cap)
                  end
              | None => None
              end = Some rest).
  { rewrite strip_prefix_app, Hline. destruct rest; [congruence | reflexivity]. }
  destruct (pat ++ rest) as [| c l] eqn:Hl; cbn [capture_from]; now rewrite E.
Qed.

Lemma onText_command command rest :
  rest <> ""%string -> single_line rest ->
  onText command (command ++ " " ++ rest) = Some rest.
Proof.
  intros Hne Hline. unfold onText.
  rewrite !list_ascii_of_string_app. cbn [list_ascii_of_string app].
  replace (list_ascii_of_string command ++ " "%char :: list_ascii_of_string rest)
    with ((list_ascii_of_string command ++ [" "%char])
            ++ list_ascii_of_string rest)
    by (now rewrite <- app_assoc).
  rewrite capture_from_prefix.
  - cbn. now rewrite string_of_list_ascii_of_string.
  - destruct rest; [congruence | discriminate].
  - exact Hline.
Qed.

Lemma split_on_cons sep l : exists w ws, split_on sep l = w :: ws.
Proof.
  induction l as [| c l (w & ws & IH)]; cbn; [eauto |].
  destruct (Ascii.eqb c sep); [eauto |]. rewrite IH. eauto.
Qed.

Lemma split_on_word sep w l :
  Forall (fun c => c <> sep) w ->
  split_on sep (w ++ sep :: l) = w :: split_on sep l.
Proof.
  induction 1 as [| c w Hc _ IH]; cbn.
  - now rewrite Ascii.eqb_refl.
  - destruct (Ascii.eqb_spec c sep); [contradiction |]. now rewrite IH.
Qed.

Lemma split_on_one sep w :
  Forall (fun c => c <> sep) w -> split_on sep w = [w].
Proof.
  induction 1 as [| c w Hc _ IH]; cbn; [reflexivity |].
  destruct (Ascii.eqb_spec c sep); [contradiction |]. now rewrite IH.
Qed.

Lemma join_cons sep w w' ws :
  join sep (w :: w' :: ws) = w ++ sep :: join sep (w' :: ws).
Proof. reflexivity. Qed.

Lemma join_split sep l : join sep (split_on sep l) = l.
Proof.
  induction l as [| c l IH]; [reflexivity |].
  cbn [split_on].
  destruct (split_on_cons sep l) as (w & ws & E). rewrite E in IH |- *.
  destruct (Ascii.eqb_spec c sep) as [-> | Hne].
  - rewrite join_cons, IH. reflexivity.
  - destruct ws as [| w' ws].
    + cbn [join] in IH |- *. now rewrite IH.
    + rewrite join_cons in IH |- *. cbn [app]. now rewrite IH.
Qed.

Lemma words_after_id_notes command id notes :
  one_word command -> one_word id ->
  words_after_id (command ++ " " ++ id ++ " " ++ notes) = Some notes.
Proof.
  intros Hc Hi. unfold words_after_id.
  rewrite !list_ascii_of_string_app. cbn [list_ascii_of_string app].
  rewrite (split_on_word _ _ _ Hc), (split_on_word _ _ _ Hi).
  destruct (split_on_cons " "%char (list_ascii_of_string notes)) as (w & ws & E).
  rewrite E, <- E, join_split. now rewrite string_of_list_ascii_of_string.
Qed.

Lemma words_after_id_none command id :
  one_word command -> one_word id ->
  words_after_id (command ++ " " ++ id) = None.
Proof.
  intros Hc Hi. unfold words_after_id.
  rewrite !list_ascii_of_string_app. cbn [list_ascii_of_string app].
  now rewrite (split_on_word _ _ _ Hc), (split_on_one _ _ Hi).
Qed.

End Text.

(* ================================================================== *)
(** * Properties of the users table *)
(* ================================================================== *)





(** X17.  User.findOrCreateUser never removes a user and never blanks a
    name: after the call the user exists, every other user is as before,
    and a user who existed carries the name given when that name is not
    empty and the stored one otherwise; calling it again with the same
    arguments changes nothing.  The opening of the handlers registers a
    sender who is not in the table and leaves a registered one alone (so
    only /start, which always registers, brings a changed name in). *)
Theorem findOrCreateUser_keeps_users (users : Users) (chatId : string)
    (username : option string) :
  let users' := fst (findOrCreateUser users chatId username) in
  is_Some (users' !! chatId)
  /\ (forall c, c <> chatId -> users' !! c = users !! c)
  /\ (forall name,
        users !! chatId = Some name ->
        users' !! chatId = Some (if truthy username then username else name))
  /\ fst (findOrCreateUser users' chatId username) = users'
  /\ (forall fromUsername,
        ensureUserExists (ensure_registered users chatId fromUsername) chatId
        = true
        /\ (is_Some (users !! chatId) ->
            ensure_registered users chatId fromUsername = users)).
Proof.
  intros users'. subst users'.
  assert (Hfind : forall name,
             is_Some (fst (findOrCreateUser users chatId name) !! chatId)).
  { intros name. unfold findOrCreateUser.
    destruct (users !! chatId) as [stored |] eqn:Hu.
    - destruct (_ && _); cbn [fst]; [rewrite lookup_insert_eq | rewrite Hu];
        eauto.
    - cbn [fst]. rewrite lookup_insert_eq. eauto. }
  split; [apply Hfind |].
  split; [| split; [| split]].
  - intros c Hne. unfold findOrCreateUser.
    destruct (users !! chatId) as [stored |];
      [destruct (_ && _) |]; cbn [fst];
      try reflexivity; now apply lookup_insert_ne.
  - intros name Hu. unfold findOrCreateUser. rewrite Hu.
    destruct (bool_decide_reflect (name = username)) as [-> | Hne];
      cbn [negb andb fst].
    + rewrite Hu. now destruct (truthy username).
    + destruct (truthy username); cbn [fst];
        [apply lookup_insert_eq | exact Hu].
  - unfold findOrCreateUser.
    destruct (users !! chatId) as [stored |] eqn:Hu.
    + destruct (negb (bool_decide (stored = username)) && truthy username)
        eqn:Hc; cbn [fst].
      * rewrite lookup_insert_eq.
        now rewrite (bool_decide_eq_true_2 (username = username) eq_refl).
      * now rewrite Hu, Hc.
    + cbn [fst]. rewrite lookup_insert_eq.
      now rewrite (bool_decide_eq_true_2 (username = username) eq_refl).
  - intros fromUsername. unfold ensure_registered, ensureUserExists.
    destruct (bool_decide_reflect (is_Some (users !! chatId))) as [Hs | Hn].
    + split; [now apply bool_decide_eq_true_2 | reflexivity].
    + split; [| contradiction].
      apply bool_decide_eq_true_2. unfold registerUser. apply Hfind.
Qed.

(* ================================================================== *)
(** * Properties of the /exchange command *)
(* ================================================================== *)

Section ExchangeCommand.
Import Dec DecFacts.




End ExchangeCommand.



(* ================================================================== *)
(** * Properties of the rate commands *)
(* ================================================================== *)

Section Rates.
Import Dec DecFacts.

Lemma on_rate_accepts command as_new adminChatId store text v d :
  onText command text = Some v ->
  parse v = Some d -> 0 < coef d ->
  on_rate command as_new adminChatId store adminChatId text
  = Some match updateRates store (as_new v) with
         | Some store' => (store', RateUpdated v)
         | None => (store, RateError)
         end.
Proof.
  intros Ht Hv Hd. unfold on_rate. rewrite Ht. cbn [mbind option_bind].
  rewrite String.eqb_refl. cbn [negb].
  unfold isValidAmount. rewrite Hv, greaterThan_zero.
  destruct (Z.ltb_spec 0 (coef d)); [reflexivity | lia].
Qed.

Lemma numeric_parsed v d :
  parse v = Some d -> Z.abs (round_at 6 d) < 10 ^ 24 ->
  Some v ≫= numeric 6 = Some (round_at 6 d) /\ truthy (Some v) = true.
Proof.
  intros Hv Hfit. split.
  - cbn [mbind option_bind]. unfold numeric. rewrite Hv.
    cbn [mbind option_bind]. unfold numeric_of.
    destruct (Z.ltb_spec (Z.abs (round_at 6 d)) (10 ^ 24)); [reflexivity | lia].
  - destruct v; [discriminate Hv | reflexivity].
Qed.

End Rates.

(** X19.  The rate commands, on a value in plain notation.  Only the
    administrator changes the rates, and only with a text the amount
    validator accepts: every reply but the confirmation leaves the rates
    as they were, the confirmation goes to the administrator alone and
    only for a positive decimal value.  The confirmed /rate_usd stores
    the value rounded half up to six digits as the USD rate and leaves the
    UAH rate as getCurrentRates returned it before (the default 39.5 when
    there was no row yet); /rate_uah does the same with the two rates
    exchanged.  The stored rate is not negative, but it is zero for a
    positive value below half a millionth, which the validator accepts. *)
Theorem rate_update_is_rounded (adminChatId : string)
    (store store' : RateStore) (chatId text v : string) (reply : RateReply) :
  plain_text v = true ->
  let before := snd (getCurrentRates store) in
  (onText "/rate_usd" text = Some v ->
   is_Some (on_rate_usd adminChatId store chatId text)
   /\ (on_rate_usd adminChatId store chatId text = Some (store', reply) ->
       match reply with
       | RateNotAuthorized => chatId <> adminChatId /\ store' = store
       | RateInvalid =>
           chatId = adminChatId /\ isValidAmount v = false /\ store' = store
       | RateError =>
           chatId = adminChatId /\ isValidAmount v = true /\ store' = store
       | RateUpdated shown =>
           chatId = adminChatId /\ shown = v
           /\ exists d,
                Dec.parse v = Some d /\ 0 < Dec.coef d
                /\ 0 <= Dec.round_at 6 d
                /\ store' = Some {| rateUSD := Dec.round_at 6 d;
                                    rateUAH := rateUAH before |}
       end))
  /\ (onText "/rate_uah" text = Some v ->
      is_Some (on_rate_uah adminChatId store chatId text)
      /\ (on_rate_uah adminChatId store chatId text = Some (store', reply) ->
          match reply with
          | RateNotAuthorized => chatId <> adminChatId /\ store' = store
          | RateInvalid =>
              chatId = adminChatId /\ isValidAmount v = false
              /\ store' = store
          | RateError =>
              chatId = adminChatId /\ isValidAmount v = true
              /\ store' = store
          | RateUpdated shown =>
              chatId = adminChatId /\ shown = v
              /\ exists d,
                   Dec.parse v = Some d /\ 0 < Dec.coef d
                   /\ 0 <= Dec.round_at 6 d
                   /\ store' = Some {| rateUSD := rateUSD before;
                                       rateUAH := Dec.round_at 6 d |}
          end)).
Proof.
  intros _ before.
  assert (Hgen : forall command as_new,
    onText command text = Some v ->
    is_Some (on_rate command as_new adminChatId store chatId text)
    /\ (on_rate command as_new adminChatId store chatId text
        = Some (store', reply) ->
        match reply with
        | RateNotAuthorized => chatId <> adminChatId /\ store' = store
        | RateInvalid =>
            chatId = adminChatId /\ isValidAmount v = false /\ store' = store
        | RateError =>
            chatId = adminChatId /\ isValidAmount v = true /\ store' = store
        | RateUpdated shown =>
            chatId = adminChatId /\ shown = v
            /\ exists d,
                 Dec.parse v = Some d /\ 0 < Dec.coef d
                 /\ 0 <= Dec.round_at 6 d
                 /\ updateRates store (as_new v) = Some store'
        end)).
  { intros command as_new Ht. unfold on_rate. rewrite Ht.
    cbn [mbind option_bind]. split; [eexists; reflexivity |].
    destruct (String.eqb_spec chatId adminChatId) as [-> | Hne]; cbn [negb].
    2:{ intros H. injection H as <- <-. auto. }
    destruct (isValidAmount v) eqn:Hvalid; cbn [negb].
    2:{ intros H. injection H as <- <-. auto. }
    destruct (updateRates store (as_new v)) as [s |] eqn:Hu.
    2:{ intros H. injection H as <- <-. auto. }
    intros H. injection H as <- <-. split; [reflexivity |].
    split; [reflexivity |].
    unfold isValidAmount in Hvalid.
    destruct (Dec.parse v) as [d |] eqn:Hv; [| discriminate].
    exists d. rewrite greaterThan_zero in Hvalid. apply Z.ltb_lt in Hvalid.
    destruct (DecFacts.round_at_sign 6 d) as [_ Hnn].
    repeat split; auto. apply Hnn. lia. }
  assert (Hnum : forall d s, Dec.parse v = Some d ->
            Some v ≫= numeric 6 = Some s -> s = Dec.round_at 6 d).
  { intros d s Hv. cbn [mbind option_bind]. unfold numeric. rewrite Hv.
    cbn [mbind option_bind]. unfold numeric_of.
    destruct (_ <? _); congruence. }
  assert (Htruthy : forall d, Dec.parse v = Some d -> truthy (Some v) = true)
    by (intros d Hv; destruct v; [discriminate Hv | reflexivity]).
  split; intros Ht.
  - destruct (Hgen "/rate_usd"%string
                (fun rateUSD => {| new_rateUSD := Some rateUSD;
                                   new_rateUAH := None |}) Ht) as [Hs Hr].
    split; [exact Hs |]. intros E. specialize (Hr E).
    destruct reply; try exact Hr.
    destruct Hr as (Hc & Hshown & d & Hv & Hd & Hnn & Hu).
    split; [exact Hc |]. split; [exact Hshown |].
    exists d. repeat split; auto.
    revert Hu. unfold updateRates. cbn [new_rateUSD new_rateUAH].
    rewrite (Htruthy d Hv). cbn [truthy].
    destruct (Some v ≫= numeric 6) as [s |] eqn:Hn; [| discriminate].
    rewrite (Hnum d s Hv eq_refl). cbn [mbind option_bind].
    intros H. injection H as <-. subst before. now destruct store.
  - destruct (Hgen "/rate_uah"%string
                (fun rateUAH => {| new_rateUSD := None;
                                   new_rateUAH := Some rateUAH |}) Ht)
      as [Hs Hr].
    split; [exact Hs |]. intros E. specialize (Hr E).
    destruct reply; try exact Hr.
    destruct Hr as (Hc & Hshown & d & Hv & Hd & Hnn & Hu).
    split; [exact Hc |]. split; [exact Hshown |].
    exists d. repeat split; auto.
    revert Hu. unfold updateRates. cbn [new_rateUSD new_rateUAH].
    rewrite (Htruthy d Hv). cbn [truthy].
    destruct (Some v ≫= numeric 6) as [s |] eqn:Hn; [| discriminate].
    rewrite (Hnum d s Hv eq_refl). cbn [mbind option_bind].
    intros H. injection H as <-. subst before. now destruct store.
Qed.

Lemma rate_update_is_rounded_witness :
  on_rate_usd "admin" None "admin" "/rate_usd 0.0000001"
  = Some (Some {| rateUSD := 0; rateUAH := 39500000 |},
          RateUpdated "0.0000001")
  /\ exists d, Dec.parse "0.0000001" = Some d /\ 0 < Dec.coef d
              /\ Dec.round_at 6 d = 0.
Proof.
  assert (E : on_rate_usd "admin" None "admin" "/rate_usd 0.0000001"
              = Some (Some {| rateUSD := 0; rateUAH := 39500000 |},
                      RateUpdated "0.0000001"))
    by (vm_compute; reflexivity).
  split; [exact E |].
  destruct (proj2 (proj1 (rate_update_is_rounded "admin" None
                            (Some {| rateUSD := 0; rateUAH := 39500000 |})
                            "admin" "/rate_usd 0.0000001" "0.0000001"
                            (RateUpdated "0.0000001") eq_refl)
                     eq_refl) E)
    as (_ & _ & d & Hv & Hd & _ & Hs).
  exists d. split; [exact Hv |]. split; [exact Hd |].
  injection Hs as Hs. symmetry. exact Hs.
Defined.

(* ================================================================== *)
(** * Properties of the decision commands *)
(* ================================================================== *)

(** X20.  The notes of a decision join the key.  For the administrator,
    on a one-line message that is the command, the id and further text:
    /complete_exchange hands completeExchangeTransaction the id together
    with the further text as the transaction id (the pattern captures
    the rest of the line), and the further text as the notes;
    /reject_exchange looks the row up under the same joined text.  So
    when the server does not read the joined text as an integer key, the
    command fails with the error of the query and the table is left as it
    is.  With the id alone the id is passed on, with empty notes. *)
Theorem decision_notes_join_the_key (int_of_text : string -> option Z)
    (adminChatId : string) (now : Z) (userFound : bool) (tbl : Table)
    (id notes : string) :
  one_word id -> single_line (id ++ " " ++ notes) ->
  let joined := (id ++ " " ++ notes)%string in
  let reply_of (r : Table * ExchangeDecision) :=
    match r with
    | (tbl', DecisionError error) => (tbl', CompleteFailed error)
    | (tbl', DecisionOk transaction) =>
        (tbl',
         if userFound then ExchangeCompleted transaction else CompleteError)
    end in
  on_complete_exchange int_of_text adminChatId now userFound tbl adminChatId
    ("/complete_exchange " ++ joined)
  = Some (reply_of (completeExchangeTransaction int_of_text now tbl joined
                      notes))
  /\ on_reject_exchange_text int_of_text adminChatId userFound tbl adminChatId
       ("/reject_exchange " ++ joined)
     = Some (on_reject_exchange int_of_text adminChatId userFound tbl
               adminChatId joined (Some notes))
  /\ (int_of_text joined = None ->
      on_complete_exchange int_of_text adminChatId now userFound tbl
        adminChatId ("/complete_exchange " ++ joined)
      = Some (tbl, CompleteFailed "invalid input syntax for type integer")
      /\ on_reject_exchange_text int_of_text adminChatId userFound tbl
           adminChatId ("/reject_exchange " ++ joined)
         = Some (tbl, RejectError))
  /\ (id <> ""%string -> single_line id ->
      on_complete_exchange int_of_text adminChatId now userFound tbl
        adminChatId ("/complete_exchange " ++ id)
      = Some (reply_of (completeExchangeTransaction int_of_text now tbl id
                          ""))).
Proof.
  intros Hid Hline joined reply_of.
  assert (Hjoined : joined <> ""%string)
    by (subst joined; destruct id; discriminate).
  assert (Hc : one_word "/complete_exchange")
    by (unfold one_word; cbn; repeat constructor; discriminate).
  assert (Hr : one_word "/reject_exchange")
    by (unfold one_word; cbn; repeat constructor; discriminate).
  assert (E1 : on_complete_exchange int_of_text adminChatId now userFound tbl
                 adminChatId ("/complete_exchange " ++ joined)
               = Some (reply_of (completeExchangeTransaction int_of_text now
                                   tbl joined notes))).
  { unfold on_complete_exchange.
    change ("/complete_exchange " ++ joined)%string
      with ("/complete_exchange" ++ " " ++ joined)%string.
    rewrite (onText_command "/complete_exchange" joined Hjoined Hline).
    cbn [mbind option_bind]. rewrite String.eqb_refl. cbn [negb].
    subst joined.
    rewrite (words_after_id_notes "/complete_exchange" id notes Hc Hid).
    reflexivity. }
  assert (E2 : on_reject_exchange_text int_of_text adminChatId userFound tbl
                 adminChatId ("/reject_exchange " ++ joined)
               = Some (on_reject_exchange int_of_text adminChatId userFound tbl
                         adminChatId joined (Some notes))).
  { unfold on_reject_exchange_text.
    change ("/reject_exchange " ++ joined)%string
      with ("/reject_exchange" ++ " " ++ joined)%string.
    rewrite (onText_command "/reject_exchange" joined Hjoined Hline).
    cbn [mbind option_bind]. subst joined.
    now rewrite (words_after_id_notes "/reject_exchange" id notes Hr Hid). }
  split; [exact E1 |]. split; [exact E2 |]. split.
  - intros Hkey. rewrite E1, E2. split.
    + unfold completeExchangeTransaction, findByPk. now rewrite Hkey.
    + unfold on_reject_exchange, findByPk.
      now rewrite String.eqb_refl, Hkey.
  - intros Hne Hline'. unfold on_complete_exchange.
    change ("/complete_exchange " ++ id)%string
      with ("/complete_exchange" ++ " " ++ id)%string.
    rewrite (onText_command "/complete_exchange" id Hne Hline').
    cbn [mbind option_bind]. rewrite String.eqb_refl. cbn [negb].
    now rewrite (words_after_id_none "/complete_exchange" id Hc Hid).
Qed.

Lemma decision_notes_join_the_key_witness :
  on_complete_exchange decimal_key "admin" 1700000000000 true ledger_example
    "admin" "/complete_exchange 4 paid in cash"
  = Some (ledger_example,
          CompleteFailed "invalid input syntax for type integer")
  /\ (exists t,
        on_complete_exchange decimal_key "admin" 1700000000000 true
          ledger_example "admin" "/complete_exchange 4"
        = Some (save ledger_example t, ExchangeCompleted t)
        /\ Tx.status t = completed /\ Tx.adminNotes t = None).
Proof.
  destruct (decision_notes_join_the_key decimal_key "admin" 1700000000000
              true ledger_example "4" "paid in cash"
              ltac:(unfold one_word; cbn; repeat constructor; discriminate)
              eq_refl) as (_ & _ & H3 & H4).
  split; [exact (proj1 (H3 eq_refl)) |].
  pose proof (H4 ltac:(discriminate) eq_refl) as E4.
  exists (Tx.mk 4 exchange "alice" 5000000 (Some 500) (Some "USD"%string)
                None None completed (Some 1700000000000) None None None).
  split; [| split; reflexivity].
  etransitivity; [exact E4 | vm_compute; reflexivity].
Defined.

Section Rendered.
Import Dec DecFacts DecText.

Lemma strip_zeros_spec s : forall c,
  (snd (strip_zeros s c) <= s)%nat
  /\ c = fst (strip_zeros s c) * pow10 (s - snd (strip_zeros s c)).
Proof.
  induction s as [| s IH]; intros c; cbn [strip_zeros].
  - cbn [fst snd]. change (pow10 (0 - 0)) with 1. lia.
  - destruct (Z.eqb_spec (c mod 10) 0) as [Hz | Hz].
    + destruct (IH (c / 10)) as [Hs Hc]. split; [lia |].
      replace (S s - snd (strip_zeros s (c / 10)))%nat
        with (S (s - snd (strip_zeros s (c / 10)))) by lia.
      rewrite pow10_S. pose proof (Z_div_mod_eq_full c 10). lia.
    + cbn [fst snd]. rewrite Nat.sub_diag. change (pow10 0) with 1. lia.
Qed.

Lemma strip_zeros_micro d m :
  is_micro d m ->
  is_micro (mk (fst (strip_zeros (scale d) (coef d)))
               (snd (strip_zeros (scale d) (coef d)))) m.
Proof.
  intros [Hs Hm]. destruct (strip_zeros_spec (scale d) (coef d)) as [Hle Hc].
  split; cbn [coef scale]; [lia |].
  set (c := fst (strip_zeros (scale d) (coef d))) in *.
  set (s := snd (strip_zeros (scale d) (coef d))) in *.
  rewrite <- Hm, Hc, <- Z.mul_assoc, <- pow10_add.
  f_equal. f_equal. lia.
Qed.

Lemma parse_toFixed_0 d : parse (toFixed 0 d) = Some (mk (round_at 0 d) 0).
Proof.
  unfold parse, toFixed. rewrite list_ascii_of_string_of_list_ascii.
  unfold toFixed_chars.
  set (r := Z.abs (round_at 0 d)).
  assert (Hr : 0 <= r) by (subst r; lia).
  change (pow10 0) with 1. rewrite Z.div_1_r, app_nil_r.
  destruct (int_digits_cons r) as (c & l & E & Hc & Hl).
  assert (Hv : digits_value 0 (c :: l) = r)
    by (rewrite <- E; now apply digits_value_int).
  destruct (round_at_sign 0 d) as [Hneg Hpos].
  assert (Hu : forall neg, parse_unsigned neg (c :: l)
                           = Some (mk (if neg then - r else r) 0)).
  { intros neg. unfold parse_unsigned.
    pose proof (take_digits_stop (c :: l) [] ltac:(constructor; assumption) I) as T.
    rewrite app_nil_r in T. rewrite T. cbn [parse_exponent fmap option_fmap option_map].
    unfold assemble. rewrite app_nil_r, Hv. cbn [length]. cbn [Z.of_nat Z.sub Z.opp Z.add].
    cbn [Z.leb Z.compare]. f_equal. f_equal. destruct neg; lia. }
  rewrite E. destruct (Z.ltb_spec (coef d) 0) as [Hlt | Hge].
  - cbn [app parse_chars]. rewrite Hu. f_equal. f_equal. subst r. lia.
  - cbn [app]. rewrite parse_chars_digit by exact Hc.
    rewrite Hu. f_equal. f_equal. subst r. lia.
Qed.

Lemma parse_toFixed_any p d : parse (toFixed p d) = Some (mk (round_at p d) p).
Proof. destruct p; [apply parse_toFixed_0 | apply parse_toFixed]. Qed.

Lemma round_at_own c s : round_at s (mk c s) = c.
Proof.
  unfold round_at. cbn [coef scale]. rewrite Nat.leb_refl, Nat.sub_diag.
  change (pow10 0) with 1. lia.
Qed.

(** Between 1e-7 and 1e+21 the text is the fixed notation at the scale
    left by the trailing zeros. *)
Lemma toString_plain d :
  let c := fst (strip_zeros (scale d) (coef d)) in
  let s := snd (strip_zeros (scale d) (coef d)) in
  c <> 0 ->
  -7 < Z.of_nat (ndigits (Z.abs c)) - 1 - Z.of_nat s < 21 ->
  toString d = toFixed s (mk c s).
Proof.
  intros c s Hc He. unfold toString.
  destruct (strip_zeros (scale d) (coef d)) as [c0 s0] eqn:E.
  cbn [fst snd] in c, s. subst c s.
  destruct (Z.eqb_spec (Z.abs c0) 0) as [Hz | _]; [lia |].
  destruct (Z.leb_spec 21 (Z.of_nat (ndigits (Z.abs c0)) - 1 - Z.of_nat s0)); [lia |].
  destruct (Z.leb_spec (Z.of_nat (ndigits (Z.abs c0)) - 1 - Z.of_nat s0) (-7)); [lia |].
  cbn [orb]. unfold toFixed, toFixed_chars, plain.
  rewrite round_at_own. reflexivity.
Qed.

Lemma ndigits_le a n : 1 <= a < pow10 n -> (ndigits a <= n)%nat.
Proof.
  intros [H1 H2]. destruct (ndigits_spec a H1) as [Hlo _].
  destruct (Nat.le_gt_cases (ndigits a) n) as [H | H]; [exact H |].
  pose proof (pow10_le_mono n (ndigits a - 1) ltac:(lia)). lia.
Qed.

(** The text of an amount of millionths reads back as the same amount. *)
Lemma parse_toString_micro d m :
  is_micro d m -> Z.abs m < pow10 precision ->
  exists d', parse (toString d) = Some d' /\ is_micro d' m.
Proof.
  intros Hd Hm. pose proof (strip_zeros_micro d m Hd) as [Hs Hc].
  cbn [coef scale] in Hs, Hc.
  set (c := fst (strip_zeros (scale d) (coef d))) in *.
  set (s := snd (strip_zeros (scale d) (coef d))) in *.
  destruct (Z.eq_dec c 0) as [Hz | Hnz].
  - exists (mk 0 0). split.
    + unfold toString. fold c s.
      replace (strip_zeros (scale d) (coef d)) with (c, s)
        by (subst c s; now destruct (strip_zeros _ _)).
      rewrite Hz. reflexivity.
    + rewrite Hz in Hc. rewrite <- Hc. split; [cbn; lia | reflexivity].
  - exists (mk c s). split.
    + rewrite toString_plain; fold c s; [| exact Hnz |].
      * rewrite parse_toFixed_any. now rewrite round_at_own.
      * pose proof (count_digits_pos (Z.to_nat (Z.log2 (Z.abs c))) (Z.abs c)) as Hp.
        fold (ndigits (Z.abs c)) in Hp.
        pose proof (pow10_pos (6 - s)).
        assert (Z.abs c <= Z.abs m) by (rewrite <- Hc; nia).
        pose proof (ndigits_le (Z.abs c) precision ltac:(lia)).
        unfold precision in *. lia.
    + split; [exact Hs | exact Hc].
Qed.

Lemma numeric_toString_micro d m :
  is_micro d m -> Z.abs m < pow10 precision ->
  numeric 6 (toString d) = Some m.
Proof.
  intros Hd Hm. destruct (parse_toString_micro d m Hd Hm) as (d' & E & Hd').
  unfold numeric. rewrite E. cbn [mbind option_bind]. unfold numeric_of.
  rewrite (round_at_micro d' m Hd').
  destruct (Z.ltb_spec (Z.abs m) (10 ^ 24)) as [_ | H]; [reflexivity |].
  change (pow10 precision) with (10 ^ 20) in Hm. lia.
Qed.

End Rendered.

Section Volumes.
Import Dec DecFacts DecText.

Local Abbreviation add := (fun sum tx => plus sum (of_micro (Tx.amount tx))).

Lemma totalVolume_fold txs : forall v,
  totalVolume (fold_left add_volume txs v) = fold_left add txs (totalVolume v).
Proof.
  induction txs as [| r txs IH]; intros v; [reflexivity |].
  cbn [fold_left]. now rewrite IH.
Qed.

Lemma volume_deposit_fold txs : forall v,
  volume_deposit (fold_left add_volume txs v)
  = fold_left add (of_type deposit txs) (volume_deposit v).
Proof.
  induction txs as [| r txs IH]; intros v; [reflexivity |].
  cbn [fold_left]. rewrite IH. unfold of_type. cbn [List.filter add_volume volume_deposit].
  destruct (Tx.type r); reflexivity.
Qed.

Lemma volume_withdrawal_fold txs : forall v,
  volume_withdrawal (fold_left add_volume txs v)
  = fold_left add (of_type withdrawal txs) (volume_withdrawal v).
Proof.
  induction txs as [| r txs IH]; intros v; [reflexivity |].
  cbn [fold_left]. rewrite IH. unfold of_type. cbn [List.filter add_volume volume_withdrawal].
  destruct (Tx.type r); reflexivity.
Qed.

Lemma volume_exchange_fold txs : forall v,
  volume_exchange (fold_left add_volume txs v)
  = fold_left add (of_type exchange txs) (volume_exchange v).
Proof.
  induction txs as [| r txs IH]; intros v; [reflexivity |].
  cbn [fold_left]. rewrite IH. unfold of_type. cbn [List.filter add_volume volume_exchange].
  destruct (Tx.type r); reflexivity.
Qed.

Lemma sum_abs_filter f txs : sum_abs (List.filter f txs) <= sum_abs txs.
Proof.
  induction txs as [| r txs IH]; cbn [List.filter]; [lia |].
  change (sum_abs (r :: txs)) with (Z.abs (Tx.amount r) + sum_abs txs).
  destruct (f r); [| lia].
  change (sum_abs (r :: List.filter f txs))
    with (Z.abs (Tx.amount r) + sum_abs (List.filter f txs)). lia.
Qed.

Lemma sum_amounts_by_type txs :
  sum_amounts txs
  = sum_amounts (of_type deposit txs) + sum_amounts (of_type withdrawal txs)
    + sum_amounts (of_type exchange txs).
Proof.
  induction txs as [| r txs IH]; [reflexivity |].
  change (sum_amounts (r :: txs)) with (Tx.amount r + sum_amounts txs).
  unfold of_type in *. cbn [List.filter].
  destruct (Tx.type r);
    repeat first [ rewrite bool_decide_eq_true_2 by reflexivity
                 | rewrite bool_decide_eq_false_2 by discriminate ];
    rewrite IH;
    repeat match goal with
    | |- context [sum_amounts (r :: ?l)] =>
        change (sum_amounts (r :: l)) with (Tx.amount r + sum_amounts l)
    end; lia.
Qed.

(** Each running sum is exact while the amounts fit the precision, and
    its text reads back as the sum. *)
Lemma volumes_micro txs :
  sum_abs txs < pow10 precision ->
  is_micro (totalVolume (volumes txs)) (sum_amounts txs)
  /\ is_micro (volume_deposit (volumes txs)) (sum_amounts (of_type deposit txs))
  /\ is_micro (volume_withdrawal (volumes txs))
       (sum_amounts (of_type withdrawal txs))
  /\ is_micro (volume_exchange (volumes txs))
       (sum_amounts (of_type exchange txs)).
Proof.
  intros Hb. unfold volumes.
  rewrite totalVolume_fold, volume_deposit_fold, volume_withdrawal_fold,
    volume_exchange_fold.
  cbn [totalVolume volume_deposit volume_withdrawal volume_exchange].
  repeat split; apply total_micro; try exact Hb;
    (eapply Z.le_lt_trans; [apply sum_abs_filter | exact Hb]).
Qed.

Lemma denotes_toString d m :
  is_micro d m -> Z.abs m < pow10 precision -> denotes (toString d) m.
Proof. apply parse_toString_micro. Qed.

End Volumes.

Section Recorded.

Lemma metric_key_eqb m new :
  String.eqb (metricType m) (metricType new)
  && String.eqb (metricDate m) (metricDate new) = true
  <-> metric_key m = metric_key new.
Proof.
  unfold metric_key. rewrite andb_true_iff, !String.eqb_eq.
  split; [intros [-> ->]; reflexivity | intros [= -> ->]; auto].
Qed.

Lemma record_metric_In new metrics : In new (record_metric new metrics).
Proof.
  induction metrics as [| m metrics IH]; cbn [record_metric]; [now left |].
  destruct (_ && _); [now left | now right].
Qed.

Lemma record_metric_others new metrics m :
  metric_key m <> metric_key new ->
  In m (record_metric new metrics) <-> In m metrics.
Proof.
  intros Hk. induction metrics as [| m0 metrics IH]; cbn [record_metric].
  - split; [intros [<- | []]; congruence | intros []].
  - destruct (_ && _) eqn:E.
    + apply metric_key_eqb in E. cbn [In].
      split; (intros [<- | H]; [congruence | now right]).
    + cbn [In]. rewrite IH. reflexivity.
Qed.

Lemma record_metric_keys_in new metrics k :
  In k (metric_key <$> record_metric new metrics) ->
  k = metric_key new \/ In k (metric_key <$> metrics).
Proof.
  induction metrics as [| m metrics IH]; cbn [record_metric].
  - intros [<- | []]. now left.
  - destruct (_ && _) eqn:E.
    + apply metric_key_eqb in E. cbn [fmap list_fmap In].
      intros [<- | H]; [now left | right; now right].
    + cbn [fmap list_fmap In]. intros [<- | H]; [right; now left |].
      destruct (IH H); [now left | right; now right].
Qed.

Lemma record_metric_unique new metrics :
  NoDup (metric_key <$> metrics) ->
  NoDup (metric_key <$> record_metric new metrics).
Proof.
  induction metrics as [| m metrics IH]; cbn [record_metric]; intros Hn.
  - cbn. apply NoDup_cons. split; [apply not_elem_of_nil | constructor].
  - cbn [fmap list_fmap] in Hn. apply NoDup_cons in Hn as [Hm Hn].
    destruct (_ && _) eqn:E.
    + apply metric_key_eqb in E. cbn [fmap list_fmap].
      apply NoDup_cons. split; [now rewrite <- E | exact Hn].
    + cbn [fmap list_fmap]. apply NoDup_cons. split; [| now apply IH].
      rewrite list_elem_of_In. intros H.
      destruct (record_metric_keys_in _ _ _ H) as [H' | H'].
      * assert (E' : String.eqb (metricType m) (metricType new)
                     && String.eqb (metricDate m) (metricDate new) = true)
          by now apply metric_key_eqb.
        congruence.
      * apply Hm. now apply list_elem_of_In.
Qed.

Lemma record_metric_again new metrics :
  record_metric new (record_metric new metrics) = record_metric new metrics.
Proof.
  assert (R : String.eqb (metricType new) (metricType new)
              && String.eqb (metricDate new) (metricDate new) = true)
    by now apply metric_key_eqb.
  induction metrics as [| m metrics IH]; cbn [record_metric].
  - now rewrite R.
  - destruct (String.eqb (metricType m) (metricType new)
              && String.eqb (metricDate m) (metricDate new)) eqn:E;
      cbn [record_metric].
    + now rewrite R.
    + now rewrite E, IH.
Qed.

(** With one row a key, the row of the key is the one just written. *)
Lemma record_metric_row new metrics m :
  NoDup (metric_key <$> metrics) ->
  In m (record_metric new metrics) -> metric_key m = metric_key new -> m = new.
Proof.
  induction metrics as [| m0 metrics IH]; cbn [record_metric]; intros Hn Hin Hk.
  - destruct Hin as [<- | []]. reflexivity.
  - cbn [fmap list_fmap] in Hn. apply NoDup_cons in Hn as [Hm Hn].
    destruct (_ && _) eqn:E.
    + apply metric_key_eqb in E. destruct Hin as [<- | Hin]; [reflexivity |].
      exfalso. apply Hm. rewrite E, <- Hk. apply list_elem_of_In.
      now apply (in_map metric_key).
    + destruct Hin as [<- | Hin]; [| now apply IH].
      apply metric_key_eqb in Hk. congruence.
Qed.

End Recorded.

Section Window.

Lemma endOfDay_start offset date :
  endOfDay offset date = startOfDay date + 86399999 - offset mod day_ms.
Proof.
  unfold endOfDay, startOfDay. rewrite Z.div_add_l by discriminate.
  pose proof (Z_div_mod_eq_full offset day_ms). lia.
Qed.

Lemma completedBetween_In tbl s e r :
  In r (completedBetween tbl s e)
  <-> In r tbl /\ Tx.status r = completed
      /\ exists at_, Tx.completedAt r = Some at_ /\ s <= at_ <= e.
Proof.
  unfold completedBetween. rewrite filter_In, andb_true_iff, bool_decide_eq_true.
  split.
  - intros (Hin & Hs & Hc). destruct (Tx.completedAt r) as [at_ |]; [| discriminate].
    apply andb_true_iff in Hc as [H1 H2]. repeat split; auto. exists at_. split; [reflexivity | lia].
  - intros (Hin & Hs & at_ & -> & H1 & H2). repeat split; auto.
    apply andb_true_iff. split; lia.
Qed.

End Window.

(* ================================================================== *)
(** * The Deposit button and the daily volume *)
(* ================================================================== *)

(** X21.  The Deposit button of the menu does what /deposit without an
    amount does: for each of the 10000 draws [k] it stores, for the
    account, the intent for exactly [10 + k / 10000] rendered with six
    digits, and two draws ask for the same amount only when they are the
    same draw. *)
Theorem deposit_button_amount (now k k' : Z) (st : State) (c : string) :
  0 <= k < 10000 -> 0 <= k' < 10000 ->
  let depositAmount := Dec.toFixed 6 (Dec.of_micro (10000000 + 100 * k)) in
  on_deposit_button now k st c
  = (Build_State
       (<[c := Build_DepositRequest depositAmount now]> (depositRequests st))
       (table st),
     DepositInstructions depositAmount)
  /\ on_deposit_button now k st c = on_deposit now k st c "/deposit"
  /\ (snd (on_deposit_button now k st c) = snd (on_deposit_button now k' st c)
      <-> k = k').
Proof.
  intros Hk Hk' depositAmount.
  assert (B : forall j, 0 <= j < 10000 ->
            on_deposit_button now j st c
            = (Build_State
                 (<[c := Build_DepositRequest
                           (Dec.toFixed 6 (Dec.of_micro (10000000 + 100 * j))) now]>
                    (depositRequests st))
                 (table st),
               DepositInstructions
                 (Dec.toFixed 6 (Dec.of_micro (10000000 + 100 * j))))).
  { intros j Hj. unfold on_deposit_button.
    rewrite (draw_renders j Hj), (parse_draw j Hj).
    change (Dec.parse "10") with (Some (Dec.mk 10 0)). cbv iota zeta.
    assert (E : Dec.toFixed 6 (Dec.plus (Dec.mk 10 0) (Dec.mk j 4))
                = Dec.toFixed 6 (Dec.of_micro (10000000 + 100 * j))).
    { apply DecFacts.toFixed_micro. apply DecFacts.plus_micro.
      - split; [cbn; lia | reflexivity].
      - apply is_micro_draw.
      - change (Dec.pow10 Dec.precision) with (10 ^ 20). lia. }
    now rewrite E. }
  split; [apply (B k Hk) |]. split.
  - rewrite (B k Hk).
    rewrite (on_deposit_drawn now k st c "/deposit" (Dec.mk 10 0) Hk eq_refl).
    cbv zeta.
    assert (E : Dec.toFixed 6 (Dec.plus (Dec.mk 10 0) (Dec.mk k 4))
                = Dec.toFixed 6 (Dec.of_micro (10000000 + 100 * k))).
    { apply DecFacts.toFixed_micro. apply DecFacts.plus_micro.
      - split; [cbn; lia | reflexivity].
      - apply is_micro_draw.
      - change (Dec.pow10 Dec.precision) with (10 ^ 20). lia. }
    now rewrite E.
  - split; [| now intros ->].
    rewrite (B k Hk), (B k' Hk'). cbn [snd]. intros [= E].
    apply (f_equal Dec.parse) in E.
    rewrite !DecFacts.parse_toFixed_micro in E.
    injection E as E. lia.
Qed.

Lemma deposit_button_amount_witness :
  on_deposit_button 1700000000000 1234 (Build_State ∅ []) "alice"
  = (Build_State
       (<["alice"%string := Build_DepositRequest "10.123400" 1700000000000]> ∅)
       [],
     DepositInstructions "10.123400").
Proof.
  exact (proj1 (deposit_button_amount 1700000000000 1234 77 (Build_State ∅ [])
                  "alice" ltac:(lia) ltac:(lia))).
Defined.

(** X22.  The daily volume is exact.  While the amounts of the day's
    completed rows fit the 20 digits of the arithmetic,
    calculateDailyVolume returns; the total it reports reads as the sum of
    the amounts of these rows, the three parts as the sums over the
    deposits, the withdrawals and the exchanges, the parts add up to the
    total, the count is the number of the rows, and the value stored for
    the day is the total in millionths: the detour through the text of
    the total loses nothing. *)
Theorem daily_volume_is_exact (iso_date : Z -> string) (offset : Z)
    (tbl : Table) (metrics : Metrics) (date : Z) :
  let txs := completedBetween tbl (startOfDay date) (endOfDay offset date) in
  let result := dailyVolume (iso_date (date / day_ms)) txs in
  sum_abs txs < 10 ^ 20 ->
  exists metrics',
    calculateDailyVolume iso_date offset tbl metrics date
    = Some (metrics', result)
    /\ denotes (daily_total result) (sum_amounts txs)
    /\ denotes (daily_deposit result) (sum_amounts (of_type deposit txs))
    /\ denotes (daily_withdrawal result)
         (sum_amounts (of_type withdrawal txs))
    /\ denotes (daily_exchange result) (sum_amounts (of_type exchange txs))
    /\ sum_amounts txs
       = sum_amounts (of_type deposit txs)
         + sum_amounts (of_type withdrawal txs)
         + sum_amounts (of_type exchange txs)
    /\ daily_count result = length txs
    /\ exists m,
         In m metrics'
         /\ metric_key m = ("daily_volume"%string, iso_date (date / day_ms))
         /\ metricValue m = sum_amounts txs.
Proof.
  intros txs result Hb.
  destruct (volumes_micro txs Hb) as (Ht & Hd & Hw & He).
  assert (Hf : forall f, Z.abs (sum_amounts (List.filter f txs))
                         < Dec.pow10 Dec.precision).
  { intros f. pose proof (sum_amounts_abs (List.filter f txs)).
    pose proof (sum_abs_filter f txs).
    change (Dec.pow10 Dec.precision) with (10 ^ 20). lia. }
  assert (Hs : Z.abs (sum_amounts txs) < Dec.pow10 Dec.precision).
  { pose proof (sum_amounts_abs txs).
    change (Dec.pow10 Dec.precision) with (10 ^ 20). lia. }
  eexists. split; [| repeat split].
  - unfold calculateDailyVolume. cbv zeta. fold txs. fold result.
    unfold recordDailyVolume.
    change (daily_total result) with (DecText.toString (totalVolume (volumes txs))).
    rewrite (numeric_toString_micro _ _ Ht Hs). reflexivity.
  - apply denotes_toString; assumption.
  - apply denotes_toString; [exact Hd | apply Hf].
  - apply denotes_toString; [exact Hw | apply Hf].
  - apply denotes_toString; [exact He | apply Hf].
  - apply sum_amounts_by_type.
  - eexists. split; [apply record_metric_In |]. split; reflexivity.
Qed.

Lemma daily_volume_is_exact_witness :
  exists metrics',
    calculateDailyVolume sample_iso_date 0 day_table day_metrics 1700000007000
    = Some (metrics',
            {| daily_date := "2023-11-14"; daily_total := "130.4077";
               daily_deposit := "75.4077"; daily_withdrawal := "50";
               daily_exchange := "5"; daily_count := 4 |})
    /\ denotes "130.4077" 130407700.
Proof.
  destruct (daily_volume_is_exact sample_iso_date 0 day_table day_metrics
              1700000007000 ltac:(vm_compute; reflexivity))
    as (metrics' & E & Ht & _).
  exists metrics'. split; [exact E | exact Ht].
Defined.

(** X23.  The rows a daily volume counts.  With [offset] the local time
    of the server minus UTC, the volume of the day of [date] counts the
    completed rows whose completion is on that UTC day and not in its
    last [offset mod 24 h]: on a server on UTC these are the completed
    rows of the day, on any other the rows completed in the last hours of
    a UTC day are in no day's volume. *)
Theorem daily_window (offset : Z) (tbl : Table) (date : Z) (r : Tx.t) :
  In r (completedBetween tbl (startOfDay date) (endOfDay offset date))
  <-> In r tbl /\ Tx.status r = completed
      /\ exists at_, Tx.completedAt r = Some at_
           /\ at_ / day_ms = date / day_ms
           /\ at_ mod day_ms <= 86399999 - offset mod day_ms.
Proof.
  rewrite completedBetween_In, endOfDay_start. unfold startOfDay.
  pose proof (Z.mod_pos_bound offset day_ms eq_refl) as Ho.
  assert (W : forall at_,
            date / day_ms * day_ms <= at_
              <= date / day_ms * day_ms + 86399999 - offset mod day_ms
            <-> at_ / day_ms = date / day_ms
                /\ at_ mod day_ms <= 86399999 - offset mod day_ms).
  { intros at_. pose proof (Z_div_mod_eq_full at_ day_ms) as Ha.
    pose proof (Z.mod_pos_bound at_ day_ms eq_refl) as Hr.
    unfold day_ms in *. lia. }
  split; intros (Hin & Hs & at_ & Hc & Hw); repeat split; auto;
    exists at_; (split; [exact Hc | now apply W]).
Qed.

(** X24.  A day has one volume row.  On a table of metrics with at most
    one row for a type and date, calculateDailyVolume leaves at most one
    row for a type and date; the row of the day's volume is the one just
    computed, the rows of other days and types are the ones there were,
    and computing the volume again changes nothing. *)
Theorem daily_volume_recorded_once (iso_date : Z -> string) (offset : Z)
    (tbl : Table) (metrics metrics' : Metrics) (date : Z)
    (result : DailyVolume) :
  NoDup (metric_key <$> metrics) ->
  calculateDailyVolume iso_date offset tbl metrics date
  = Some (metrics', result) ->
  NoDup (metric_key <$> metrics')
  /\ (exists m, In m metrics'
        /\ metric_key m = ("daily_volume"%string, daily_date result))
  /\ (forall m, In m metrics' ->
        metric_key m = ("daily_volume"%string, daily_date result) ->
        numeric 6 (daily_total result) = Some (metricValue m)
        /\ metricData m
           = Some {| breakdown_deposit := daily_deposit result;
                     breakdown_withdrawal := daily_withdrawal result;
                     breakdown_exchange := daily_exchange result;
                     breakdown_count := daily_count result |})
  /\ (forall m, metric_key m <> ("daily_volume"%string, daily_date result) ->
        In m metrics' <-> In m metrics)
  /\ calculateDailyVolume iso_date offset tbl metrics' date
     = Some (metrics', result).
Proof.
  intros Hn E. unfold calculateDailyVolume in E |- *. cbv zeta in E |- *.
  set (dateStr := iso_date (date / day_ms)) in *.
  set (txs := completedBetween tbl (startOfDay date) (endOfDay offset date)) in *.
  unfold recordDailyVolume in E |- *.
  destruct (numeric 6 (daily_total (dailyVolume dateStr txs))) as [value |] eqn:Ev;
    [| discriminate].
  cbn [mbind option_bind] in E |- *. injection E as <- <-.
  set (new := {| metricType := "daily_volume"; metricDate := dateStr;
                 metricValue := value; metricData := _ |}).
  change (daily_date (dailyVolume dateStr txs)) with dateStr.
  change ("daily_volume"%string, dateStr) with (metric_key new).
  split; [now apply record_metric_unique |].
  split; [exists new; split; [apply record_metric_In | reflexivity] |].
  split; [| split].
  - intros m Hin Hk. rewrite (record_metric_row new metrics m Hn Hin Hk).
    split; [exact Ev | reflexivity].
  - intros m Hk. now apply record_metric_others.
  - now rewrite record_metric_again.
Qed.

Lemma daily_volume_recorded_once_witness :
  match calculateDailyVolume sample_iso_date 0 day_table day_metrics
          1700000007000 with
  | Some (metrics', result) =>
      NoDup (metric_key <$> metrics')
      /\ length metrics' = length day_metrics
      /\ calculateDailyVolume sample_iso_date 0 day_table metrics'
           1700000007000
         = Some (metrics', result)
  | None => False
  end.
Proof.
  destruct (calculateDailyVolume sample_iso_date 0 day_table day_metrics
              1700000007000) as [[metrics' result] |] eqn:E.
  - destruct (daily_volume_recorded_once sample_iso_date 0 day_table
                day_metrics metrics' 1700000007000 result)
      as (Hn & _ & _ & _ & Hagain).
    + apply (bool_decide_unpack _). vm_compute. exact I.
    + exact E.
    + split; [exact Hn |]. split; [| exact Hagain].
      vm_compute in E. injection E as <- _. reflexivity.
  - vm_compute in E. discriminate E.
Defined.
